(** * RecallBricks API: context retrieval pipeline

    A shallow embedding of [src/routes/context.ts] (the keyword-heuristic
    lexical path) and of the memories router (vector mode, text-only
    context, creation), with the properties of the specification proved
    over it.

    Conventions of the embedding.
    - A JavaScript string is a [string]; each [ascii] stands for one UTF-16
      code unit in the range U+0000..U+00FF (Latin-1).  Inside that range
      [toLowerCase], [\w] and [\s] are modelled exactly.
    - A JavaScript number that the handlers compute with (limits, scores,
      ages) is a rational [Q]: the arithmetic is exact, IEEE-754 rounding
      and the special values NaN and Infinity are not represented.  This
      reading serves the statements about the order of scores.  The value
      of a score is stated over the module [Double], which evaluates the
      same scoring code in IEEE-754 double precision.
      Timestamps are integers [Z] (epoch milliseconds), as [Date.now()] and
      [Date.prototype.getTime()] return them for a valid date.
    - The store (Supabase), the embedding provider and the chat-completion
      provider are oracles of a [world]; every call to one of them is
      recorded in a trace. *)

From Stdlib Require Import List Bool Arith ZArith QArith Qminmax Lia Lqa.
From Stdlib Require Import Ascii String.
From Stdlib Require Import Sorting.Sorted Sorting.Permutation.
From Stdlib Require Floats.SpecFloat.
Import ListNotations.

Local Open Scope string_scope.
Local Open Scope list_scope.

(* ================================================================== *)
(** * JavaScript values and built-ins used by the handlers            *)
(* ================================================================== *)

Module JS.

(** An optional, possibly [null] request field of declared type [A]. *)
Inductive opt (A : Type) : Type :=
| Undefined : opt A
| Null : opt A
| Val : A -> opt A.
Arguments Undefined {A}.
Arguments Null {A}.
Arguments Val {A} _.

(** Values that reach the JSON response through [&&] and [||]. *)
Inductive value : Type :=
| VUndefined : value
| VNull : value
| VBool : bool -> value
| VNum : Q -> value
| VStr : string -> value.

Definition is_empty (s : string) : bool :=
  match s with EmptyString => true | String _ _ => false end.

(** ToBoolean. *)
Definition truthy (v : value) : bool :=
  match v with
  | VUndefined | VNull => false
  | VBool b => b
  | VNum q => negb (Qeq_bool q 0)
  | VStr s => negb (is_empty s)
  end.

(** [a && b] returns one of its operands: [a] when [a] is falsy. *)
Definition and_ (a b : value) : value := if truthy a then b else a.

Definition of_string (o : opt string) : value :=
  match o with Undefined => VUndefined | Null => VNull | Val s => VStr s end.

Definition of_number (o : opt Q) : value :=
  match o with Undefined => VUndefined | Null => VNull | Val q => VNum q end.

(** [x || d] for a numeric field and a non-zero default. *)
Definition number_or (o : opt Q) (d : Q) : Q :=
  match o with
  | Val q => if Qeq_bool q 0 then d else q
  | _ => d
  end.

(** [x || d] for a string field. *)
Definition string_or (o : opt string) (d : string) : string :=
  match o with
  | Val s => if is_empty s then d else s
  | _ => d
  end.

(** ** Characters *)

Definition code (c : ascii) : nat := nat_of_ascii c.

Definition between (lo hi n : nat) : bool := (lo <=? n)%nat && (n <=? hi)%nat.

(** [\w] without the unicode flag: [A-Za-z0-9_]. *)
Definition is_word (c : ascii) : bool :=
  let n := code c in
  between 65 90 n || between 97 122 n || between 48 57 n || (n =? 95)%nat.

(** [\s] restricted to Latin-1: TAB, LF, VT, FF, CR, SP and NBSP. *)
Definition is_space (c : ascii) : bool :=
  let n := code c in
  between 9 13 n || (n =? 32)%nat || (n =? 160)%nat.

(** Simple lower-case mapping of a Latin-1 code unit. *)
Definition lower_char (c : ascii) : ascii :=
  let n := code c in
  if between 65 90 n then ascii_of_nat (n + 32)
  else if between 192 222 n && negb (n =? 215)%nat then ascii_of_nat (n + 32)
  else c.

(** ** Strings *)

Fixpoint map_chars (f : ascii -> ascii) (s : string) : string :=
  match s with
  | EmptyString => EmptyString
  | String c s' => String (f c) (map_chars f s')
  end.

(** [String.prototype.toLowerCase]. *)
Definition toLowerCase (s : string) : string := map_chars lower_char s.

(** [s.replace(/[^\w\s]/g, ' ')]. *)
Definition replace_non_word (s : string) : string :=
  map_chars (fun c => if is_word c || is_space c then c else " "%char) s.

Fixpoint rev_string (acc s : string) : string :=
  match s with
  | EmptyString => acc
  | String c s' => rev_string (String c acc) s'
  end.

(** [s.split(/\s+/)]: the pieces between maximal runs of white space; a
    leading or trailing run leaves an empty piece, and the empty string
    splits into one empty piece.  [cur] is the current piece, reversed. *)
Fixpoint split_ws_from (s cur : string) (in_ws : bool) : list string :=
  match s with
  | EmptyString => [rev_string "" cur]
  | String c s' =>
      if is_space c then
        if in_ws then split_ws_from s' cur true
        else rev_string "" cur :: split_ws_from s' "" true
      else split_ws_from s' (String c cur) false
  end.

Definition split_ws (s : string) : list string := split_ws_from s "" false.

(** [s.includes(sub)]. *)
Fixpoint includes (s sub : string) : bool :=
  if String.prefix sub s then true
  else match s with
       | EmptyString => false
       | String _ s' => includes s' sub
       end.

(** [arr.join(sep)]. *)
Definition join (sep : string) (l : list string) : string := String.concat sep l.

(** ToIntegerOrInfinity of a finite number: truncation towards zero. *)
Definition to_integer (q : Q) : Z := Z.quot (Qnum q) (Zpos (Qden q)).

(** [arr.slice(0, end)]. *)
Definition slice0 {A : Type} (l : list A) (e : Q) : list A :=
  let len := Z.of_nat (List.length l) in
  let rel := to_integer e in
  let fin := if (rel <? 0)%Z then Z.max (len + rel) 0 else Z.min rel len in
  firstn (Z.to_nat fin) l.

(** [arr.slice(-n)] for a literal [n]: the last [n] elements. *)
Definition slice_last {A : Type} (n : nat) (l : list A) : list A :=
  skipn (List.length l - n) l.

(** [String.prototype.trim]. *)
Fixpoint trim_start (s : string) : string :=
  match s with
  | EmptyString => EmptyString
  | String c s' => if is_space c then trim_start s' else s
  end.

Fixpoint trim_end (s : string) : string :=
  match s with
  | EmptyString => EmptyString
  | String c s' =>
      match trim_end s' with
      | EmptyString => if is_space c then EmptyString else String c EmptyString
      | t => String c t
      end
  end.

Definition trim (s : string) : string := trim_end (trim_start s).

(** ** parseInt

    [parseInt(s)] without a radix: leading white space is skipped, a sign
    is read, the prefix [0x] or [0X] selects radix 16, and the longest run
    of digits is converted; [None] stands for NaN.  The integer is exact
    (the rounding of integers above 2^53 to a double is not represented). *)
Definition digit_of (radix : nat) (c : ascii) : option nat :=
  let n := code c in
  let v := if between 48 57 n then Some (n - 48)%nat
           else if between 97 122 n then Some (n - 87)%nat
           else if between 65 90 n then Some (n - 55)%nat
           else None in
  match v with
  | Some d => if (d <? radix)%nat then Some d else None
  | None => None
  end.

Fixpoint parse_digits (radix : nat) (s : string) (acc : option Z) : option Z :=
  match s with
  | EmptyString => acc
  | String c s' =>
      match digit_of radix c with
      | Some d =>
          let a := match acc with Some a => a | None => 0%Z end in
          parse_digits radix s' (Some (a * Z.of_nat radix + Z.of_nat d)%Z)
      | None => acc
      end
  end.

Definition parseInt (s : string) : option Z :=
  let s1 := trim_start s in
  let '(neg, s2) :=
    match s1 with
    | String "-"%char r => (true, r)
    | String "+"%char r => (false, r)
    | _ => (false, s1)
    end in
  let '(radix, s3) :=
    match s2 with
    | String "0"%char (String x r) =>
        if Ascii.eqb x "x"%char || Ascii.eqb x "X"%char then (16%nat, r)
        else (10%nat, s2)
    | _ => (10%nat, s2)
    end in
  match parse_digits radix s3 None with
  | Some v => Some (if neg then (- v)%Z else v)
  | None => None
  end.

(** Arithmetic on the results of [parseInt]: NaN propagates. *)
Definition num_add (a b : option Z) : option Z :=
  match a, b with Some x, Some y => Some (x + y)%Z | _, _ => None end.

Definition num_sub (a b : option Z) : option Z :=
  match a, b with Some x, Some y => Some (x - y)%Z | _, _ => None end.

(** ** Set *)

Definition mem (x : string) (l : list string) : bool :=
  existsb (String.eqb x) l.

(** [set.add(x)] on a set kept as the list of its elements in insertion
    order. *)
Definition set_add (acc : list string) (x : string) : list string :=
  if mem x acc then acc else acc ++ [x].

(** [new Set(arr)]: the distinct elements in order of first insertion. *)
Definition set_of_list (l : list string) : list string :=
  fold_left set_add l [].

Definition set_size (s : list string) : nat := List.length s.
Definition set_has (s : list string) (x : string) : bool := mem x s.

(** ** Array.prototype.sort

    ECMAScript 2019 requires [sort] to be stable.  For a comparator that
    is consistent, the result of a stable sort does not depend on the
    algorithm; it is modelled here by a stable insertion sort.  An element
    [x] that stood before every element of [l] stays before the elements
    it does not compare greater than. *)
Section Sort.
Context {A : Type} (cmp : A -> A -> Q).

Fixpoint sort_insert (x : A) (l : list A) : list A :=
  match l with
  | [] => [x]
  | y :: ys => if Qle_bool (cmp x y) 0 then x :: y :: ys
               else y :: sort_insert x ys
  end.

Fixpoint sort (l : list A) : list A :=
  match l with
  | [] => []
  | x :: xs => sort_insert x (sort xs)
  end.
End Sort.

End JS.

(* ================================================================== *)
(** * Data model, collaborators and the handler monad                  *)
(* ================================================================== *)

Module Api.

(** A row of the [memories] table. *)
Record Memory : Type := {
  id : string;
  user_id : string;
  text : string;
  source : string;
  project_id : string;
  tags : list string;
  metadata : list (string * string);
  embedding : list Q;
  created_at : Z;
  updated_at : Z
}.

(** [{ ...memory, relevance_score: score }]. *)
Record ScoredMemory : Type := {
  memory : Memory;
  relevance_score : Q
}.

(** An error object; only its [message] is read. *)
Record Error : Type := { message : JS.opt string }.

(** ** The store

    A query built with the Supabase client: the table, the selected
    columns, the equality filters in the order they were added, the
    full-text filter, the ordering, the row cap and the row range. *)
Record Select : Type := {
  sel_table : string;
  sel_columns : string;
  sel_eq : list (string * string);
  sel_textSearch : option (string * string);
  sel_order : option (string * bool);
  sel_limit : option Q;
  sel_range : option (option Z * option Z)
}.

(** The row handed to [insert]. *)
Record NewMemory : Type := {
  new_user_id : string;
  new_text : string;
  new_source : string;
  new_project_id : string;
  new_tags : list string;
  new_metadata : list (string * string);
  new_embedding : list Q
}.

(** The arguments of the [match_memories] remote procedure.
    [match_count] is [None] when [parseInt] produced NaN. *)
Record Rpc : Type := {
  query_embedding : list Q;
  match_threshold : Q;
  match_count : option Z;
  filter_user_id : string
}.

(** What awaiting a store call yields: the pair [{ data, error }], or a
    rejection. *)
Inductive Reply (A : Type) : Type :=
| Settled (data : option A) (error : option Error)
| Rejected (e : Error).
Arguments Settled {A} _ _.
Arguments Rejected {A} _.

(** The collaborators of one request.  [now n] is the value of the
    [n]-th call of [Date.now()]. *)
Record world : Type := {
  select : Select -> Reply (list Memory);
  insert : NewMemory -> Reply Memory;
  rpc : Rpc -> Reply (list Memory);
  embed : string -> Error + list Q;
  chat : string -> Error + option string;
  now : nat -> Z
}.

(** External calls, as they are issued. *)
Inductive event : Type :=
| ESelect (q : Select)
| EInsert (m : NewMemory)
| ERpc (a : Rpc)
| EEmbed (input : string)
| EChat (input : string).

(** ** Responses *)

Record Intelligence : Type := {
  keyword_extraction : bool;
  relevance_scoring : bool;
  conversation_context : bool
}.

Record ContextResult : Type := {
  res_query : string;
  keywords_extracted : list string;
  memories : list ScoredMemory;
  count : nat;
  crossLLM : JS.value;
  llm : string;
  intelligence : Intelligence
}.

Inductive Body : Type :=
| ErrorBody (error : string) (msg : string)
| ContextBody (r : ContextResult)
| SearchBody (mems : list Memory) (cnt : nat) (query : string)
| TextBody (context : list string) (cnt : nat)
| TextAllBody (context : list string) (cnt : nat) (limit offset : option Z)
| CreatedBody (data : option Memory).

Record Response : Type := { status : nat; body : Body }.

(** ** Handler monad: collaborators read, calls traced, errors thrown *)

Record state : Type := { trace : list event; reads : nat }.

Inductive outcome (A : Type) : Type :=
| Return (a : A)
| Throw (e : Error).
Arguments Return {A} _.
Arguments Throw {A} _.

Definition M (A : Type) : Type := world -> state -> outcome A * state.

Definition ret {A} (a : A) : M A := fun _ st => (Return a, st).

Definition throw {A} (e : Error) : M A := fun _ st => (Throw e, st).

Definition bind {A B} (m : M A) (k : A -> M B) : M B :=
  fun w st =>
    match m w st with
    | (Return a, st') => k a w st'
    | (Throw e, st') => (Throw e, st')
    end.

(** [try { m } catch (error) { h error }]. *)
Definition try_catch {A} (m : M A) (h : Error -> M A) : M A :=
  fun w st =>
    match m w st with
    | (Return a, st') => (Return a, st')
    | (Throw e, st') => h e w st'
    end.

Notation "x <- m ;; k" := (bind m (fun x => k))
  (at level 61, m at next level, right associativity).

Definition emit (e : event) : M unit :=
  fun _ st => (Return tt, {| trace := trace st ++ [e]; reads := reads st |}).

(** [Date.now()]. *)
Definition date_now : M Z :=
  fun w st => (Return (now w (reads st)),
               {| trace := trace st; reads := S (reads st) |}).

(** [await] of a store call, followed by [if (error) throw error]. *)
Definition settle {A} (r : Reply A) : M (option A) :=
  match r with
  | Settled d None => ret d
  | Settled _ (Some e) => throw e
  | Rejected e => throw e
  end.

Definition await_select (q : Select) : M (option (list Memory)) :=
  _ <- emit (ESelect q) ;; fun w => settle (select w q) w.

Definition await_insert (m : NewMemory) : M (option Memory) :=
  _ <- emit (EInsert m) ;; fun w => settle (insert w m) w.

Definition await_rpc (a : Rpc) : M (option (list Memory)) :=
  _ <- emit (ERpc a) ;; fun w => settle (rpc w a) w.

Definition await_provider {A} (r : Error + A) : M A :=
  match r with inl e => throw e | inr a => ret a end.

Definition await_embed (input : string) : M (list Q) :=
  _ <- emit (EEmbed input) ;; fun w => await_provider (embed w input) w.

Definition await_chat (input : string) : M (option string) :=
  _ <- emit (EChat input) ;; fun w => await_provider (chat w input) w.

(** [arr.map(f)] for a callback with effects. *)
Fixpoint mapM {A B} (f : A -> M B) (l : list A) : M (list B) :=
  match l with
  | [] => ret []
  | x :: xs => y <- f x ;; ys <- mapM f xs ;; ret (y :: ys)
  end.

(** [res.status(code).json({ error, message })]. *)
Definition error_response (code : nat) (kind m : string) : Response :=
  {| status := code; body := ErrorBody kind m |}.

(** The [catch] block shared by the handlers: status 500 and
    [error.message || fallback]. *)
Definition internal_error (fallback : string) (e : Error) : M Response :=
  ret (error_response 500 "Internal Server Error"
         (JS.string_or (message e) fallback)).

Definition initial : state := {| trace := []; reads := 0 |}.

(** Running a handler: its response and the external calls it made.  A
    handler ends in a [catch], so it never throws; the last case is
    unreachable for the handlers of this file. *)
Definition run (h : M Response) (w : world) : Response * list event :=
  match h w initial with
  | (Return r, st) => (r, trace st)
  | (Throw e, st) => (error_response 500 "Unhandled" "", trace st)
  end.

End Api.

(* ================================================================== *)
(** * src/routes/context.ts                                            *)
(* ================================================================== *)

Module Context.
Import Api.

(** [ContextRequest], the destructured [req.body]. *)
Record ContextRequest : Type := {
  query : JS.opt string;
  llm : JS.opt string;
  limit : JS.opt Q;
  project_id : JS.opt string;
  conversation_history : JS.opt (list string)
}.

Definition stopWords : list string :=
  ["the"; "a"; "an"; "and"; "or"; "but"; "in"; "on"; "at"; "to"; "for";
   "of"; "with"; "by"; "from"; "is"; "was"; "are"; "were"; "been"; "be";
   "have"; "has"; "had"; "do"; "does"; "did"; "will"; "would"; "could";
   "should"; "can"; "may"; "might"; "what"; "when"; "where"; "who"; "how";
   "why"; "this"; "that"; "these"; "those"].

(** [word.length > 2 && !stopWords.has(word)]. *)
Definition keep_word (word : string) : bool :=
  (2 <? String.length word)%nat && negb (JS.mem word stopWords).

(** [.toLowerCase().replace(/[^\w\s]/g, ' ').split(/\s+/).filter(...)]. *)
Definition tokens (s : string) : list string :=
  filter keep_word (JS.split_ws (JS.replace_non_word (JS.toLowerCase s))).

(** [conversation_history.slice(-3).join(' ')]. *)
Definition recentContext (history : list string) : string :=
  JS.join " " (JS.slice_last 3 history).

Definition historyKeywords (history : list string) : list string :=
  firstn 5 (tokens (recentContext history)).

(** The keyword list after the optional [push(...historyKeywords)]. *)
Definition keywords (q : string) (history : JS.opt (list string)) : list string :=
  let primary := firstn 10 (tokens q) in
  match history with
  | JS.Val (h :: hs) => primary ++ historyKeywords (h :: hs)
  | _ => primary
  end.

Definition searchQuery (kws : list string) : string := JS.join " | " kws.

(** [truthy] project ids add a second equality filter. *)
Definition project_filter (p : JS.opt string) : list (string * string) :=
  match p with
  | JS.Val s => if JS.is_empty s then [] else [("project_id", s)]
  | _ => []
  end.

Definition dbQuery (uid : string) (kws : list string) (r : ContextRequest)
  : Select :=
  {| sel_table := "memories";
     sel_columns := "*";
     sel_eq := ("user_id", uid) :: project_filter (project_id r);
     sel_textSearch := Some ("text_search", searchQuery kws);
     sel_order := Some ("created_at", false);
     sel_limit := Some (JS.number_or (limit r) 10);
     sel_range := None |}.

(** The [forEach] over the keywords: ten points for every entry of the
    list that the lower-cased text includes. *)
Definition keyword_score (kws : list string) (memoryText : string) : Q :=
  fold_left (fun score keyword =>
               if JS.includes memoryText keyword then score + 10 else score)
            kws 0.

(** [(Date.now() - new Date(memory.created_at).getTime()) / (1000*60*60*24)]. *)
Definition daysOld (t : Z) (m : Memory) : Q :=
  inject_Z (t - created_at m) / inject_Z (1000 * 60 * 60 * 24).

(** [Math.max(0, 5 - daysOld * 0.1)]. *)
Definition recency_bonus (d : Q) : Q := Qmax 0 (5 - d * (1 # 10)).

(** The score of one memory, [t] being the value [Date.now()] returned
    inside the callback. *)
Definition score (kws : list string) (t : Z) (m : Memory) : Q :=
  keyword_score kws (JS.toLowerCase (text m)) + recency_bonus (daysOld t m).

Definition score_memory (kws : list string) (m : Memory) : M ScoredMemory :=
  t <- date_now ;;
  ret {| memory := m; relevance_score := score kws t m |}.

(** [(a, b) => b.relevance_score - a.relevance_score]. *)
Definition by_score (a b : ScoredMemory) : Q :=
  relevance_score b - relevance_score a.

Definition sources (scored : list ScoredMemory) : list string :=
  JS.set_of_list (map (fun m => source (memory m)) scored).

(** [llm && sources.size > 1 && !sources.has(llm)]. *)
Definition crossLLM_of (l : JS.opt string) (srcs : list string) : JS.value :=
  JS.and_ (JS.and_ (JS.of_string l) (JS.VBool (1 <? JS.set_size srcs)%nat))
    (JS.VBool (negb (match l with
                     | JS.Val s => JS.set_has srcs s
                     | _ => false
                     end))).

Definition history_given (h : JS.opt (list string)) : bool :=
  match h with JS.Val _ => true | _ => false end.

(** Everything after the scoring [map]: the in-place sort, the set of
    sources, the cross-source flag and [res.json({ ... })]. *)
Definition respond (r : ContextRequest) (q : string) (kws : list string)
  (scored : list ScoredMemory) : Response :=
  let scoredMemories := JS.sort by_score scored in
  let srcs := sources scoredMemories in
  {| status := 200;
     body := ContextBody
       {| res_query := q;
          keywords_extracted := kws;
          memories := JS.slice0 scoredMemories (JS.number_or (limit r) 10);
          count := List.length scoredMemories;
          crossLLM := crossLLM_of (llm r) srcs;
          Api.llm := JS.string_or (llm r) "unknown";
          intelligence :=
            {| keyword_extraction := true;
               relevance_scoring := true;
               conversation_context := history_given (conversation_history r) |}
       |} |}.

(** The body of the [try] block once [query] is known to be truthy. *)
Definition recall (uid : string) (r : ContextRequest) (q : string) : M Response :=
  let kws := keywords q (conversation_history r) in
  data <- await_select (dbQuery uid kws r) ;;
  scored <- mapM (score_memory kws) (match data with Some d => d | None => [] end) ;;
  ret (respond r q kws scored).

(** [router.post('/', ...)]. *)
Definition post_context (uid : string) (r : ContextRequest) : M Response :=
  try_catch
    (match query r with
     | JS.Val (String c q) => recall uid r (String c q)
     | _ => ret (error_response 400 "Bad Request" "Query is required.")
     end)
    (internal_error "Failed to recall context.").

End Context.

(* ================================================================== *)
(** * The memories router                                              *)
(* ================================================================== *)

Module Memories.
Import Api.

(** [CreateMemoryRequest], the destructured [req.body]. *)
Record CreateMemoryRequest : Type := {
  text : JS.opt string;
  source : JS.opt string;
  project_id : JS.opt string;
  tags : JS.opt (list string);
  metadata : JS.opt (list (string * string))
}.

(** A value of [req.query]: absent, a string, or an array of strings when
    the parameter is repeated. *)
Inductive param : Type :=
| Absent
| One (s : string)
| Many (l : list string).

(** The body of [POST /search].  [limit] is [String(limit)] for a limit
    that is present, so that [parseInt(String(limit))] is [parseInt] of
    it; [None] is the absent field, which defaults to 10. *)
Record SearchRequest : Type := {
  query : JS.value;
  limit : option string
}.

(** [parseInt(x as string)] of a query parameter with a numeric default:
    [parseInt] converts its argument to a string first. *)
Definition parse_param (p : param) (default : Z) : option Z :=
  match p with
  | Absent => Some default
  | One s => JS.parseInt s
  | Many l => JS.parseInt (JS.join "," l)
  end.

Definition dquote : string := String (ascii_of_nat 34) EmptyString.

Definition q_required : string :=
  "Query parameter " ++ dquote ++ "q" ++ dquote ++ " is required.".

(** [extractKeyInfo]: a failure of the completion call, and an empty or
    missing completion, give the original text back. *)
Definition extractKeyInfo (t : string) : M string :=
  try_catch
    (completion <- await_chat t ;;
     ret (match option_map JS.trim completion with
          | Some (String c s) => String c s
          | _ => t
          end))
    (fun _ => ret t).

(** [generateEmbedding]: the error is logged and thrown again. *)
Definition generateEmbedding (t : string) : M (list Q) :=
  try_catch (await_embed t) (fun e => throw e).

(** [{ ...metadata, key: v }] on an object kept as an association list. *)
Fixpoint set_key (k v : string) (l : list (string * string))
  : list (string * string) :=
  match l with
  | [] => [(k, v)]
  | (k', v') :: l' =>
      if String.eqb k k' then (k, v) :: l' else (k', v') :: set_key k v l'
  end.

Definition or_nil {A} (o : JS.opt (list A)) : list A :=
  match o with JS.Val l => l | _ => [] end.

(** The object handed to [insert]. *)
Definition row (uid : string) (r : CreateMemoryRequest) (t extractedText : string)
  (emb : list Q) : NewMemory :=
  {| new_user_id := uid;
     new_text := extractedText;
     new_source := JS.string_or (source r) "api";
     new_project_id := JS.string_or (project_id r) "default";
     new_tags := or_nil (tags r);
     new_metadata :=
       set_key "extracted" "true"
         (set_key "original_text" t (or_nil (metadata r)));
     new_embedding := emb |}.

Definition create (uid : string) (r : CreateMemoryRequest) (t : string)
  : M Response :=
  extractedText <- extractKeyInfo t ;;
  emb <- generateEmbedding extractedText ;;
  data <- await_insert (row uid r t extractedText emb) ;;
  ret {| status := 201; body := CreatedBody data |}.

(** [router.post('/', ...)]. *)
Definition post_memories (uid : string) (r : CreateMemoryRequest) : M Response :=
  try_catch
    (match text r with
     | JS.Val (String c t) => create uid r (String c t)
     | _ => ret (error_response 400 "Bad Request" "Text is required.")
     end)
    (internal_error "Failed to create memory.").

(** The two calls of vector retrieval: the embedding of the query, then
    [supabase.rpc('match_memories', ...)]. *)
Definition match_memories (uid q : string) (cnt : option Z) : M (list Memory) :=
  queryEmbedding <- generateEmbedding q ;;
  data <- await_rpc {| query_embedding := queryEmbedding;
                       match_threshold := 1 # 2;
                       match_count := cnt;
                       filter_user_id := uid |} ;;
  ret (match data with Some d => d | None => [] end).

(** [router.get('/search', ...)]. *)
Definition get_search (uid : string) (q lim : param) : M Response :=
  try_catch
    (match q with
     | One (String c s) =>
         data <- match_memories uid (String c s) (parse_param lim 10) ;;
         ret {| status := 200;
                body := SearchBody data (List.length data) (String c s) |}
     | _ => ret (error_response 400 "Bad Request" q_required)
     end)
    (internal_error "Failed to search memories.").

(** [router.post('/search', ...)]. *)
Definition post_search (uid : string) (r : SearchRequest) : M Response :=
  try_catch
    (match query r with
     | JS.VStr (String c s) =>
         let cnt := match limit r with
                    | None => Some 10%Z
                    | Some l => JS.parseInt l
                    end in
         data <- match_memories uid (String c s) cnt ;;
         ret {| status := 200;
                body := SearchBody data (List.length data) (String c s) |}
     | _ => ret (error_response 400 "Bad Request" "Query field is required.")
     end)
    (internal_error "Failed to search memories.").

(** [router.get('/context', ...)]. *)
Definition get_context (uid : string) (q lim : param) : M Response :=
  try_catch
    (match q with
     | One (String c s) =>
         data <- match_memories uid (String c s) (parse_param lim 10) ;;
         let context := map Api.text data in
         ret {| status := 200; body := TextBody context (List.length context) |}
     | _ => ret (error_response 400 "Bad Request" q_required)
     end)
    (internal_error "Failed to generate context.").

(** The query of [GET /context/all]: the [text] column of the owner's
    rows, most recent first, rows [offset] to [offset + limit - 1]. *)
Definition all_query (uid : string) (lim off : option Z) : Select :=
  {| sel_table := "memories";
     sel_columns := "text";
     sel_eq := [("user_id", uid)];
     sel_textSearch := None;
     sel_order := Some ("created_at", false);
     sel_limit := None;
     sel_range := Some (off, JS.num_sub (JS.num_add off lim) (Some 1%Z)) |}.

(** [router.get('/context/all', ...)]. *)
Definition get_context_all (uid : string) (lim off : param) : M Response :=
  try_catch
    (let l := parse_param lim 100 in
     let o := parse_param off 0 in
     data <- await_select (all_query uid l o) ;;
     let context := map Api.text (match data with Some d => d | None => [] end) in
     ret {| status := 200;
            body := TextAllBody context (List.length context) l o |})
    (internal_error "Failed to retrieve all context.").

End Memories.

(* ================================================================== *)
(** * Definitions used to state the properties                         *)
(* ================================================================== *)

Module Spec.
Import Api.

(** The entries of the keyword list, counted with multiplicity, that a
    text includes. *)
Definition matches (kws : list string) (memoryText : string) : nat :=
  List.length (filter (JS.includes memoryText) kws).

(** The specification's count: the distinct keywords that a text
    includes. *)
Definition distinct_matches (kws : list string) (memoryText : string) : nat :=
  List.length (filter (JS.includes memoryText) (JS.set_of_list kws)).

(** The specification's score: ten points per distinct matching keyword
    plus the recency bonus. *)
Definition spec_score (kws : list string) (t : Z) (m : Memory) : Q :=
  10 * inject_Z (Z.of_nat (distinct_matches kws (JS.toLowerCase (text m))))
  + Qmax 0 (5 - (1 # 10) * Context.daysOld t m).

(** The scored candidates when the [n]-th and following readings of the
    clock are used, one per row. *)
Fixpoint scored_from (w : world) (kws : list string) (n : nat)
  (rows : list Memory) : list ScoredMemory :=
  match rows with
  | [] => []
  | m :: ms =>
      {| memory := m; relevance_score := Context.score kws (now w n) m |}
      :: scored_from w kws (S n) ms
  end.

Definition rows_of (data : option (list Memory)) : list Memory :=
  match data with Some d => d | None => [] end.

(** Most recent first. *)
Definition recency_desc (a b : Memory) : Prop := (created_at b <= created_at a)%Z.

(** The comparator [(a, b) => key(b) - key(a)] of a descending sort. *)
Definition by_key {A} (key : A -> Q) (a b : A) : Q := key b - key a.

(** Ranked: a higher key first, and the order [T] among equal keys. *)
Definition key_ranked {A} (key : A -> Q) (T : A -> A -> Prop) (a b : A) : Prop :=
  key b < key a \/ (key b == key a /\ T a b).

(** The elements whose key equals [k], in their order. *)
Definition with_key {A} (key : A -> Q) (k : Q) (l : list A) : list A :=
  filter (fun x => Qeq_bool (key x) k) l.

(** [out] is a stable descending arrangement of [l]: it is in descending
    order of key, and for every key value the elements with that key are
    those of [l], in the order of [l]. *)
Definition stable_desc {A} (key : A -> Q) (l out : list A) : Prop :=
  StronglySorted (fun a b => key b <= key a) out /\
  forall k, with_key key k out = with_key key k l.

(** A store reply that makes the handler throw. *)
Definition failed {A} (r : Reply A) (e : Error) : Prop :=
  r = Rejected e \/ exists d, r = Settled d (Some e).

(** The text that [extractKeyInfo] hands to the embedding call. *)
Definition extracted_text (w : world) (t : string) : string :=
  match chat w t with
  | inr (Some c) => match JS.trim c with EmptyString => t | s => s end
  | _ => t
  end.

(** The arguments of the remote procedure for a query embedding. *)
Definition rpc_args (uid : string) (cnt : option Z) (v : list Q) : Rpc :=
  {| query_embedding := v; match_threshold := 1 # 2;
     match_count := cnt; filter_user_id := uid |}.

(** Vector retrieval fails with [e]: the embedding call fails, or it
    succeeds and the remote procedure fails. *)
Definition vector_failure (w : world) (uid q : string) (cnt : option Z)
  (e : Error) : Prop :=
  embed w q = inl e \/
  exists v, embed w q = inr v /\ failed (rpc w (rpc_args uid cnt v)) e.

Definition message_of (e : Error) (fallback : string) : string :=
  JS.string_or (message e) fallback.

(** A required string field that is absent, [null] or empty. *)
Definition missing (o : JS.opt string) : Prop :=
  JS.truthy (JS.of_string o) = false.

(** A limit that is absent, [null] or zero. *)
Definition falsy_limit (o : JS.opt Q) : Prop :=
  JS.truthy (JS.of_number o) = false.

(** The store query that [POST /context] issues for a truthy query [q]. *)
Definition context_query (uid : string) (r : Context.ContextRequest)
  (q : string) : Select :=
  Context.dbQuery uid (Context.keywords q (Context.conversation_history r)) r.

(** The response of [POST /context] to the rows the store returned. *)
Definition context_response (w : world) (r : Context.ContextRequest)
  (q : string) (data : option (list Memory)) : Response :=
  let kws := Context.keywords q (Context.conversation_history r) in
  Context.respond r q kws (scored_from w kws 0 (rows_of data)).

Definition server_error (e : Error) (fallback : string) : Response :=
  error_response 500 "Internal Server Error" (message_of e fallback).

(** The state after further external calls. *)
Definition after (st : state) (evs : list event) : state :=
  {| trace := trace st ++ evs; reads := reads st |}.

(** The calls of a vector retrieval: the embedding, then the remote
    procedure when the embedding was obtained. *)
Definition vector_trace (w : world) (uid q : string) (cnt : option Z)
  : list event :=
  EEmbed q ::
  match embed w q with
  | inr v => [ERpc (rpc_args uid cnt v)]
  | inl _ => []
  end.

(** [parseInt(String(limit))] of the body of [POST /search]. *)
Definition body_count (l : option string) : option Z :=
  match l with None => Some 10%Z | Some x => JS.parseInt x end.

End Spec.

(* ================================================================== *)
(** * Sample data                                                      *)
(* ================================================================== *)

Module Sample.
Import Api.

Definition day : Z := 86400000.

Definition mem (i txt src : string) (created : Z) : Memory :=
  {| id := i; user_id := "u1"; text := txt; source := src;
     project_id := "default"; tags := []; metadata := []; embedding := [];
     created_at := created; updated_at := created |}.

Definition m_postgres : Memory :=
  mem "m1" "We decided to use PostgreSQL" "claude" 0.

Definition m_postgres_dark : Memory :=
  mem "m2" "We decided to use PostgreSQL, dark mode too" "claude" 0.

Definition m_dark : Memory := mem "m3" "Dark mode preferred" "chatgpt" day.

Definition m_old : Memory := mem "m4" "dark theme notes" "cursor" (- 100 * day).


Definition oops : Error := {| message := JS.Val "upstream unavailable" |}.

(** A world whose store answers every query with [rows], whose remote
    procedure answers with [near], whose providers answer with [emb] and
    [completion], and whose clock stands at [t]. *)
Definition world_of (rows near : Reply (list Memory)) (emb : Error + list Q)
  (completion : Error + option string) (stored : Reply Memory) (t : Z)
  : world :=
  {| select := fun _ => rows;
     insert := fun _ => stored;
     rpc := fun _ => near;
     embed := fun _ => emb;
     chat := fun _ => completion;
     now := fun _ => t |}.

Definition serving (rows : list Memory) (t : Z) : world :=
  world_of (Settled (Some rows) None) (Settled (Some rows) None)
           (inr [1 # 2; 1 # 4]) (inr None) (Settled None None) t.

Definition request (q : string) (l : JS.opt string) (lim : JS.opt Q)
  : Context.ContextRequest :=
  {| Context.query := JS.Val q; Context.llm := l; Context.limit := lim;
     Context.project_id := JS.Undefined;
     Context.conversation_history := JS.Undefined |}.

Definition m_older : Memory := mem "m6" "dark things" "cursor" (- 200 * day).

(** Four candidates in the order of the store, most recent first, seen 31
    days after the first was created: for the query "dark mode" the scores
    are 21.9, 1.8, 10 and 10. *)
Definition ranked_rows : list Memory := [m_dark; m_postgres; m_old; m_older].

Definition ranked_world : world := serving ranked_rows (32 * day).

Definition ranked_request : Context.ContextRequest :=
  request "dark mode" (JS.Val "gemini") JS.Undefined.

(** A world that agrees with [ranked_world] on full-text queries and on
    the clock, and on nothing else. *)
Definition other_world : world :=
  {| select := fun q => match sel_textSearch q with
                        | Some _ => Settled (Some ranked_rows) None
                        | None => Rejected oops
                        end;
     insert := fun _ => Rejected oops;
     rpc := fun _ => Rejected oops;
     embed := fun _ => inl oops;
     chat := fun _ => inl oops;
     now := fun _ => (32 * day)%Z |}.

(** The store rejects every call. *)
Definition store_down : world :=
  world_of (Rejected oops) (Rejected oops) (inr [1 # 2; 1 # 4]) (inr None)
           (Settled None (Some oops)) 0.

(** The embedding provider rejects every call. *)
Definition embed_down : world :=
  world_of (Settled (Some ranked_rows) None) (Settled (Some ranked_rows) None)
           (inl oops) (inr (Some "  use PostgreSQL  ")) (Settled None None) 0.

Definition create_request (t : string) : Memories.CreateMemoryRequest :=
  {| Memories.text := JS.Val t; Memories.source := JS.Undefined;
     Memories.project_id := JS.Undefined; Memories.tags := JS.Undefined;
     Memories.metadata := JS.Undefined |}.

Definition memories_of (resp : Response) : list ScoredMemory :=
  match body resp with ContextBody res => memories res | _ => [] end.

Definition crossLLM_in (resp : Response) : option JS.value :=
  match body resp with ContextBody res => Some (crossLLM res) | _ => None end.

End Sample.

(* ================================================================== *)
(** * Definitions used to state further properties of the lexical path *)
(* ================================================================== *)

Module Shape.
Import Api.

(** [a-z0-9_]: lower-case word characters. *)
Definition is_keyword_char (c : ascii) : bool :=
  let n := JS.code c in
  JS.between 97 122 n || JS.between 48 57 n || (n =? 95)%nat.

(** The code units of a string. *)
Definition chars (s : string) : list ascii := list_ascii_of_string s.

(** The character-wise step of [.toLowerCase().replace(/[^\w\s]/g, ' ')]. *)
Definition normalize_char (c : ascii) : ascii :=
  let l := JS.lower_char c in
  if JS.is_word l || JS.is_space l then l else " "%char.

(** An external call that carries the owner [uid]: a filter on [user_id]
    for a query, the [user_id] of an inserted row, the [filter_user_id] of
    the remote procedure.  The providers are not given an owner. *)
Definition scoped (uid : string) (e : event) : Prop :=
  match e with
  | ESelect q => In ("user_id", uid) (sel_eq q)
  | EInsert m => new_user_id m = uid
  | ERpc a => filter_user_id a = uid
  | EEmbed _ | EChat _ => True
  end.

(** The value under a key of an object kept as an association list. *)
Fixpoint lookup (k : string) (l : list (string * string)) : option string :=
  match l with
  | [] => None
  | (k', v) :: l' => if String.eqb k k' then Some v else lookup k l'
  end.

End Shape.

(* ================================================================== *)
(** * Further sample data                                              *)
(* ================================================================== *)

Module More.
Import Api.

(** A creation request that brings its own metadata, among it a key the
    handler sets itself. *)
Definition create_with_metadata : Memories.CreateMemoryRequest :=
  {| Memories.text := JS.Val "We use PostgreSQL";
     Memories.source := JS.Val "claude";
     Memories.project_id := JS.Undefined;
     Memories.tags := JS.Val ["db"];
     Memories.metadata :=
       JS.Val [("original_text", "forged"); ("topic", "db")] |}.

(** Every collaborator answers; the completion comes back padded. *)
Definition creating : world :=
  Sample.world_of (Settled (Some Sample.ranked_rows) None)
                  (Settled (Some Sample.ranked_rows) None)
                  (inr [1 # 2; 1 # 4]) (inr (Some "  use PostgreSQL  "))
                  (Settled (Some Sample.m_postgres) None) 0.

End More.

(* ================================================================== *)
(** * Effects of the remaining handlers                                *)
(* ================================================================== *)

(** A computation that reads the collaborators of a world [W], records
    its external calls as events [E] and may throw a value of [X]. *)
Module Eff.

Section Eff.
Context {W E X : Type}.

Definition M (A : Type) : Type := W -> list E -> (X + A) * list E.

Definition ret {A} (a : A) : M A := fun _ tr => (inr a, tr).

Definition throw {A} (x : X) : M A := fun _ tr => (inl x, tr).

Definition bind {A B} (m : M A) (k : A -> M B) : M B :=
  fun w tr =>
    match m w tr with
    | (inr a, tr') => k a w tr'
    | (inl x, tr') => (inl x, tr')
    end.

(** [try { m } catch (x) { h x }]. *)
Definition try_catch {A} (m : M A) (h : X -> M A) : M A :=
  fun w tr =>
    match m w tr with
    | (inr a, tr') => (inr a, tr')
    | (inl x, tr') => h x w tr'
    end.

(** An awaited external call: the event is recorded and the collaborator
    answers. *)
Definition call {A} (e : E) (answer : W -> A) : M A :=
  fun w tr => (inr (answer w), tr ++ [e]).

(** A look at the world that is no external call. *)
Definition read {A} (f : W -> A) : M A := fun w tr => (inr (f w), tr).

Definition run {A} (m : M A) (w : W) : (X + A) * list E := m w [].

End Eff.

Arguments M : clear implicits.

Notation "x <~ m ;; k" := (bind m (fun x => k))
  (at level 61, m at next level, right associativity).

End Eff.

(* ================================================================== *)
(** * The filter search of the context router and the rest of the
      memories router                                                  *)
(* ================================================================== *)

Module Rest.
Import Api Eff.

(** A query built with the Supabase client.  A filter value is kept as
    it was handed to [eq]; [q_limit] is [None] when [limit] is not
    called and [Some None] when it is called with NaN. *)
Record Query : Type := {
  q_table : string;
  q_columns : string;
  q_eq : list (string * Memories.param);
  q_textSearch : option (string * string);
  q_contains : option (string * list string);
  q_order : option (string * bool);
  q_limit : option (option Q)
}.

(** The object [updates] of [PUT /:id]; [None] is a key that is not
    set. *)
Record Updates : Type := {
  up_text : option string;
  up_embedding : option (list Q);
  up_tags : option (list string);
  up_metadata : option (list (string * string));
  up_project_id : option string
}.

Record world : Type := {
  rows : Query -> Reply (list Memory);
  single : Query -> Reply Memory;
  delete : Query -> Reply unit;
  update : Updates -> Query -> Reply Memory;
  embed : string -> Error + list Q
}.

Inductive event : Type :=
| ERows (q : Query)
| ESingle (q : Query)
| EDelete (q : Query)
| EUpdate (u : Updates) (q : Query)
| EEmbed (input : string).

Inductive Body : Type :=
| ErrorBody (error : string) (msg : string)
| ListBody (memories : option (list Memory)) (count : nat)
| MemoryBody (data : Memory)
| DeletedBody (msg : string) (id : string).

Record Response : Type := { status : nat; body : Body }.

Definition H (A : Type) : Type := Eff.M world event Error A.

(** [const { data, error } = await ...; if (error) throw error]. *)
Definition settle {A} (r : Reply A) : H (option A) :=
  match r with
  | Settled d None => ret d
  | Settled _ (Some e) => throw e
  | Rejected e => throw e
  end.

Definition await_rows (q : Query) : H (option (list Memory)) :=
  r <~ call (ERows q) (fun w => rows w q) ;; settle r.

(** The [catch] block of a handler. *)
Definition internal_error (fallback : string) (e : Error) : H Response :=
  ret {| status := 500;
         body := ErrorBody "Internal Server Error"
                   (JS.string_or (message e) fallback) |}.

Definition not_found : Response :=
  {| status := 404; body := ErrorBody "Not Found" "Memory not found." |}.

(** ** POST /search of the context router *)

Record SearchFilters : Type := {
  query : JS.opt string;
  tags : JS.opt (list string);
  source : JS.opt string;
  project_id : JS.opt string;
  limit : JS.opt Q
}.

(** [if (x) dbQuery = dbQuery.eq(column, x)] for a string of the body. *)
Definition eq_if_truthy (column : string) (x : JS.opt string)
  : list (string * Memories.param) :=
  match x with
  | JS.Val (String c s) => [(column, Memories.One (String c s))]
  | _ => []
  end.

Definition dbQuery (uid : string) (r : SearchFilters) : Query :=
  {| q_table := "memories";
     q_columns := "*";
     q_eq := ("user_id", Memories.One uid)
             :: eq_if_truthy "source" (source r)
             ++ eq_if_truthy "project_id" (project_id r);
     q_textSearch := match query r with
                     | JS.Val (String c s) => Some ("text_search", String c s)
                     | _ => None
                     end;
     q_contains := match tags r with
                   | JS.Val (t :: ts) => Some ("tags", t :: ts)
                   | _ => None
                   end;
     q_order := Some ("created_at", false);
     q_limit := Some (Some (JS.number_or (limit r) 50)) |}.

(** [router.post('/search', ...)] of the context router. *)
Definition post_search (uid : string) (r : SearchFilters) : H Response :=
  try_catch
    (data <~ await_rows (dbQuery uid r) ;;
     let found := match data with Some d => d | None => [] end in
     ret {| status := 200; body := ListBody (Some found) (List.length found) |})
    (internal_error "Failed to search memories.").

(** ** GET / of the memories router *)

(** ToBoolean of a value of [req.query]: an array is truthy. *)
Definition given (p : Memories.param) : bool :=
  match p with
  | Memories.Absent => false
  | Memories.One s => negb (JS.is_empty s)
  | Memories.Many _ => true
  end.

(** [parseInt(p as string)] of a value that is present. *)
Definition parse (p : Memories.param) : option Z :=
  match p with
  | Memories.Absent => None
  | Memories.One s => JS.parseInt s
  | Memories.Many l => JS.parseInt (JS.join "," l)
  end.

Definition eq_if_given (column : string) (p : Memories.param)
  : list (string * Memories.param) :=
  if given p then [(column, p)] else [].

Definition list_query (uid : string) (lim src proj : Memories.param) : Query :=
  {| q_table := "memories";
     q_columns := "*";
     q_eq := ("user_id", Memories.One uid)
             :: eq_if_given "source" src ++ eq_if_given "project_id" proj;
     q_textSearch := None;
     q_contains := None;
     q_order := Some ("created_at", false);
     q_limit := if given lim then Some (option_map inject_Z (parse lim))
                else None |}.

(** [router.get('/', ...)]: [memories] is [data] as it came, [count] is
    [data?.length || 0]. *)
Definition get_list (uid : string) (lim src proj : Memories.param) : H Response :=
  try_catch
    (data <~ await_rows (list_query uid lim src proj) ;;
     ret {| status := 200;
            body := ListBody data
                      (match data with Some d => List.length d | None => 0 end) |})
    (internal_error "Failed to retrieve memories.").

(** ** GET /:id, DELETE /:id and PUT /:id *)

Definition by_id (uid id : string) : Query :=
  {| q_table := "memories";
     q_columns := "*";
     q_eq := [("id", Memories.One id); ("user_id", Memories.One uid)];
     q_textSearch := None;
     q_contains := None;
     q_order := None;
     q_limit := None |}.

(** [router.get('/:id', ...)]: the reply is not passed through
    [if (error) throw error]; an error and a missing row are both
    answered with 404. *)
Definition get_one (uid id : string) : H Response :=
  try_catch
    (r <~ call (ESingle (by_id uid id)) (fun w => single w (by_id uid id)) ;;
     match r with
     | Settled (Some data) None => ret {| status := 200; body := MemoryBody data |}
     | Settled _ _ => ret not_found
     | Rejected e => throw e
     end)
    (internal_error "Failed to retrieve memory.").

(** [router.delete('/:id', ...)]. *)
Definition delete_one (uid id : string) : H Response :=
  try_catch
    (r <~ call (EDelete (by_id uid id)) (fun w => delete w (by_id uid id)) ;;
     _ <~ settle r ;;
     ret {| status := 200;
            body := DeletedBody "Memory deleted successfully." id |})
    (internal_error "Failed to delete memory.").

Record UpdateRequest : Type := {
  new_text : JS.opt string;
  new_tags : JS.opt (list string);
  new_metadata : JS.opt (list (string * string));
  new_project_id : JS.opt string
}.

(** [generateEmbedding], as the update calls it. *)
Definition generateEmbedding (t : string) : H (list Q) :=
  try_catch
    (r <~ call (EEmbed t) (fun w => embed w t) ;;
     match r with inl e => throw e | inr v => ret v end)
    (fun e => throw e).

(** An array or an object of the body is truthy when it is there. *)
Definition present {A} (o : JS.opt A) : option A :=
  match o with JS.Val a => Some a | _ => None end.

Definition truthy_string (o : JS.opt string) : option string :=
  match o with JS.Val (String c s) => Some (String c s) | _ => None end.

(** The object [updates] once the embedding is known. *)
Definition updates_of (r : UpdateRequest) (emb : option (list Q)) : Updates :=
  {| up_text := truthy_string (new_text r);
     up_embedding := emb;
     up_tags := present (new_tags r);
     up_metadata := present (new_metadata r);
     up_project_id := truthy_string (new_project_id r) |}.

(** [router.put('/:id', ...)]. *)
Definition put_one (uid id : string) (r : UpdateRequest) : H Response :=
  try_catch
    (emb <~ match truthy_string (new_text r) with
            | Some t => v <~ generateEmbedding t ;; ret (Some v)
            | None => ret None
            end ;;
     let updates := updates_of r emb in
     reply <~ call (EUpdate updates (by_id uid id))
                   (fun w => update w updates (by_id uid id)) ;;
     data <~ settle reply ;;
     match data with
     | None => ret not_found
     | Some d => ret {| status := 200; body := MemoryBody d |}
     end)
    (internal_error "Failed to update memory.").

End Rest.

(* ================================================================== *)
(** * Definitions used to state the properties of the remaining
      handlers                                                         *)
(* ================================================================== *)

Module RestSpec.
Import Api Rest.

Definition status_500 (e : Error) (fallback : string) : Response :=
  {| status := 500;
     body := ErrorBody "Internal Server Error" (Spec.message_of e fallback) |}.

(** A query that filters [user_id] on the caller's id. *)
Definition owned (uid : string) (q : Query) : Prop :=
  In ("user_id", Memories.One uid) (q_eq q).

(** [data?.length || 0]. *)
Definition length_or_0 (data : option (list Memory)) : nat :=
  match data with Some d => List.length d | None => 0%nat end.

Definition updated (data : option Memory) : Response :=
  match data with
  | Some d => {| status := 200; body := MemoryBody d |}
  | None => not_found
  end.

(** A world whose store answers every call with the same replies. *)
Definition constant (many : Reply (list Memory)) (one : Reply Memory)
  (gone : Reply unit) (emb : Error + list Q) : world :=
  {| rows := fun _ => many;
     single := fun _ => one;
     delete := fun _ => gone;
     update := fun _ _ => one;
     embed := fun _ => emb |}.

End RestSpec.

(* ================================================================== *)
(** * utils/errors: error codes, APIError and the error factories      *)
(* ================================================================== *)

Module Errors.

Inductive ErrorCode : Type :=
| INVALID_API_KEY | MISSING_API_KEY | UNAUTHORIZED
| VALIDATION_ERROR | INVALID_INPUT | MISSING_REQUIRED_FIELD
| INVALID_TEXT_LENGTH
| RATE_LIMIT_EXCEEDED
| DATABASE_ERROR | DATABASE_CONNECTION_FAILED | QUERY_FAILED
| RESOURCE_NOT_FOUND | ROUTE_NOT_FOUND
| INTERNAL_SERVER_ERROR | SERVICE_UNAVAILABLE | CIRCUIT_BREAKER_OPEN.

(** [Record<string, any>]. *)
Definition Details : Type := list (string * JS.value).

Record APIError : Type := {
  code : ErrorCode;
  message : string;
  statusCode : nat;
  details : option Details
}.

(** [new APIError(code, message, statusCode = 500, details)]. *)
Definition make (c : ErrorCode) (m : string) (st : option nat)
  (d : option Details) : APIError :=
  {| code := c; message := m;
     statusCode := match st with Some n => n | None => 500%nat end;
     details := d |}.

(** [toJSON()]: the object under the key [error]. *)
Record ErrorJSON : Type := {
  json_code : ErrorCode;
  json_message : string;
  json_details : option Details
}.

Definition toJSON (e : APIError) : ErrorJSON :=
  {| json_code := code e; json_message := message e;
     json_details := details e |}.

(** What [createErrorResponse] is given: an [Error], or an [APIError];
    both have a [stack]. *)
Inductive Failure : Type :=
| Plain (message : string) (stack : JS.opt string)
| Api (e : APIError) (stack : JS.opt string).

(** [ErrorResponse]; [response_stack] is [None] when the key is absent. *)
Record ErrorResponse : Type := {
  response_code : ErrorCode;
  response_message : string;
  response_details : option Details;
  requestId : option string;
  timestamp : string;
  response_stack : option (JS.opt string)
}.

(** [...(includeStack && { stack: error.stack })]. *)
Definition spread_stack (includeStack : bool) (stack : JS.opt string)
  : option (JS.opt string) :=
  if includeStack then Some stack else None.

(** [createErrorResponse(error, requestId, includeStack = false)];
    [now] is [new Date().toISOString()]. *)
Definition createErrorResponse (error : Failure) (rid : option string)
  (includeStack : option bool) (now : string) : ErrorResponse :=
  let include := match includeStack with Some b => b | None => false end in
  match error with
  | Api e stack =>
      {| response_code := code e;
         response_message := message e;
         response_details := details e;
         requestId := rid;
         timestamp := now;
         response_stack := spread_stack include stack |}
  | Plain m stack =>
      {| response_code := INTERNAL_SERVER_ERROR;
         response_message :=
           if JS.is_empty m then "An unexpected error occurred" else m;
         response_details := None;
         requestId := rid;
         timestamp := now;
         response_stack := spread_stack include stack |}
  end.

(** ** The factories of [Errors] *)

Definition or_default (m : option string) (d : string) : string :=
  match m with Some s => s | None => d end.

Definition of_optional (o : option string) : JS.value :=
  match o with Some s => JS.VStr s | None => JS.VUndefined end.

Definition invalidApiKey : APIError :=
  make INVALID_API_KEY "Invalid API key" (Some 401%nat) None.

Definition missingApiKey : APIError :=
  make MISSING_API_KEY
       "API key is required. Provide it in the X-API-Key header." (Some 401%nat) None.

Definition unauthorized (msg : option string) : APIError :=
  make UNAUTHORIZED (or_default msg "Unauthorized") (Some 401%nat) None.

Definition validationError (msg : string) (d : option Details) : APIError :=
  make VALIDATION_ERROR msg (Some 400%nat) d.

(** [render] is the conversion of a number to a string that a template
    literal applies. *)
Definition textTooLong (render : Q -> string) (max actual : Q) : APIError :=
  make INVALID_TEXT_LENGTH
       ("Text too long. Maximum " ++ render max ++ " characters, got "
        ++ render actual)
       (Some 400%nat)
       (Some [("max", JS.VNum max); ("actual", JS.VNum actual)]).

Definition rateLimitExceeded (retryAfter limit : Q) : APIError :=
  make RATE_LIMIT_EXCEEDED "Rate limit exceeded. Please try again later."
       (Some 429%nat)
       (Some [("retryAfter", JS.VNum retryAfter); ("limit", JS.VNum limit)]).

Definition databaseError (msg : string) (d : option Details) : APIError :=
  make DATABASE_ERROR msg (Some 500%nat) d.

Definition resourceNotFound (resource : string) (id : option string) : APIError :=
  make RESOURCE_NOT_FOUND
       (resource ++ " not found"
        ++ match id with
           | Some (String c s) => ": " ++ String c s
           | _ => ""
           end)
       (Some 404%nat)
       (Some [("resource", JS.VStr resource); ("id", of_optional id)]).

Definition routeNotFound (method path : string) : APIError :=
  make ROUTE_NOT_FOUND ("Route " ++ method ++ " " ++ path ++ " not found")
       (Some 404%nat)
       (Some [("method", JS.VStr method); ("path", JS.VStr path)]).

Definition serviceUnavailable (msg : option string) : APIError :=
  make SERVICE_UNAVAILABLE (or_default msg "Service temporarily unavailable")
       (Some 503%nat) None.

Definition circuitBreakerOpen : APIError :=
  make CIRCUIT_BREAKER_OPEN
       "Service temporarily unavailable due to high error rate. Please try again later."
       (Some 503%nat) None.

(** The errors that the factories produce. *)
Inductive produced : APIError -> Prop :=
| by_invalidApiKey : produced invalidApiKey
| by_missingApiKey : produced missingApiKey
| by_unauthorized m : produced (unauthorized m)
| by_validationError m d : produced (validationError m d)
| by_textTooLong render max actual : produced (textTooLong render max actual)
| by_rateLimitExceeded a l : produced (rateLimitExceeded a l)
| by_databaseError m d : produced (databaseError m d)
| by_resourceNotFound r i : produced (resourceNotFound r i)
| by_routeNotFound m p : produced (routeNotFound m p)
| by_serviceUnavailable m : produced (serviceUnavailable m)
| by_circuitBreakerOpen : produced circuitBreakerOpen.

End Errors.

(* ================================================================== *)
(** * middleware/auth: authenticateApiKey                              *)
(* ================================================================== *)

Module Auth.
Import Eff.

Record Headers : Type := {
  authorization : option string;
  x_api_key : option string
}.

(** The user of [supabase.auth.getUser]. *)
Record AuthUser : Type := { user_id : string; user_email : option string }.

(** A row of [api_keys], columns [id, user_id, is_active]. *)
Record ApiKeyRow : Type := {
  key_id : string;
  key_user_id : string;
  is_active : bool
}.

(** What a value thrown by a collaborator shows to the middleware. *)
Record Foreign : Type := {
  foreign_message : JS.opt string;
  foreign_statusCode : option nat
}.

Inductive Thrown : Type :=
| Api (e : Errors.APIError)
| Other (e : Foreign).

Inductive UserReply : Type :=
| UserSettled (user : option AuthUser) (error : option Foreign)
| UserRejected (e : Foreign).

Inductive KeyReply : Type :=
| KeySettled (data : option ApiKeyRow) (error : option Foreign)
| KeyRejected (e : Foreign).

(** The update of [last_used_at]: its result is not read; it can only
    matter by rejecting. *)
Inductive TouchReply : Type :=
| Touched
| TouchRejected (e : Foreign).

Record world : Type := {
  getUser : string -> UserReply;
  findKey : string -> KeyReply;
  touch : string -> Z -> TouchReply;
  now : Z
}.

Inductive event : Type :=
| EGetUser (token : string)
| EFindKey (key : string)
| ETouch (id : string) (time : Z).

Inductive Method : Type := Jwt | ApiKey.

(** [req.user], kept for backward compatibility. *)
Record ReqUser : Type := {
  id : string;
  email : option string;
  api_key : string
}.

Record Request : Type := {
  headers : Headers;
  userId : option string;
  userEmail : option string;
  authMethod : option Method;
  user : option ReqUser
}.

(** [next()] or [next(error)]. *)
Inductive Next : Type :=
| Continue
| Fail (error : Thrown).

Definition H (A : Type) : Type := Eff.M world event Thrown A.

(** [s.substring(n)]. *)
Fixpoint drop (n : nat) (s : string) : string :=
  match n, s with
  | O, _ => s
  | S n', String _ s' => drop n' s'
  | S _, EmptyString => EmptyString
  end.

Definition invalid_token : Thrown :=
  Api (Errors.unauthorized (Some "Invalid or expired token")).

Definition with_jwt (req : Request) (u : AuthUser) : Request :=
  {| headers := headers req;
     userId := Some (user_id u);
     userEmail := user_email u;
     authMethod := Some Jwt;
     user := Some {| id := user_id u; email := user_email u; api_key := "" |} |}.

Definition with_api_key (req : Request) (row : ApiKeyRow) (apiKey : string)
  : Request :=
  {| headers := headers req;
     userId := Some (key_user_id row);
     userEmail := userEmail req;
     authMethod := Some ApiKey;
     user := Some {| id := key_user_id row; email := None;
                     api_key := apiKey |} |}.

(** The inner [try] of the JWT branch; whatever is thrown in it is
    replaced by [invalid_token]. *)
Definition jwt (req : Request) (token : string) : H Request :=
  try_catch
    (r <~ call (EGetUser token) (fun w => getUser w token) ;;
     match r with
     | UserRejected e => throw (Other e)
     | UserSettled (Some u) None => ret (with_jwt req u)
     | UserSettled _ _ => throw invalid_token
     end)
    (fun _ => throw invalid_token).

(** [dbError.statusCode === 401]. *)
Definition is_401 (t : Thrown) : bool :=
  match t with
  | Api e => (Errors.statusCode e =? 401)%nat
  | Other e => match foreign_statusCode e with
               | Some n => (n =? 401)%nat
               | None => false
               end
  end.

(** [dbError.message]. *)
Definition message_value (t : Thrown) : JS.value :=
  match t with
  | Api e => JS.VStr (Errors.message e)
  | Other e => JS.of_string (foreign_message e)
  end.

(** The inner [try] of the API key branch and its [catch]. *)
Definition api_key_branch (req : Request) (apiKey : string) : H Request :=
  try_catch
    (r <~ call (EFindKey apiKey) (fun w => findKey w apiKey) ;;
     match r with
     | KeyRejected e => throw (Other e)
     | KeySettled (Some row) None =>
         if is_active row then
           t <~ read now ;;
           u <~ call (ETouch (key_id row) t) (fun w => touch w (key_id row) t) ;;
           match u with
           | Touched => ret (with_api_key req row apiKey)
           | TouchRejected e => throw (Other e)
           end
         else throw (Api (Errors.unauthorized (Some "API key is inactive")))
     | KeySettled _ _ => throw (Api (Errors.unauthorized (Some "Invalid API key")))
     end)
    (fun dbError =>
       if is_401 dbError then throw dbError
       else throw (Api (Errors.databaseError "Failed to validate API key"
                          (Some [("error", message_value dbError)])))).

Definition authentication_required : Thrown :=
  Api (Errors.unauthorized
         (Some "Authentication required. Provide either Authorization: Bearer {token} or X-API-Key header")).

(** The outer [try]. *)
Definition authenticate (req : Request) : H Request :=
  let by_key :=
    match x_api_key (headers req) with
    | Some (String c s) => api_key_branch req (String c s)
    | _ => throw authentication_required
    end in
  match authorization (headers req) with
  | Some h => if String.prefix "Bearer " h then jwt req (drop 7 h) else by_key
  | None => by_key
  end.

(** [authenticateApiKey(req, res, next)]: the request as the middleware
    leaves it, how [next] is called, and the calls made. *)
Definition authenticateApiKey (req : Request) (w : world)
  : Request * Next * list event :=
  match run (authenticate req) w with
  | (inr req', tr) => (req', Continue, tr)
  | (inl e, tr) => (req, Fail e, tr)
  end.

End Auth.

(* ================================================================== *)
(** * Definitions used to state the properties of the authentication   *)
(* ================================================================== *)

Module AuthSpec.
Import Auth.

(** The header selects the JWT branch. *)
Definition bearer (req : Request) : Prop :=
  exists h, authorization (headers req) = Some h /\
            String.prefix "Bearer " h = true.

(** The API key that the request presents, when it has a non-empty one. *)
Definition presented (req : Request) : option string :=
  match x_api_key (headers req) with
  | Some (String c s) => Some (String c s)
  | _ => None
  end.

Definition inactive_key : Thrown :=
  Api (Errors.unauthorized (Some "API key is inactive")).

Definition invalid_key : Thrown :=
  Api (Errors.unauthorized (Some "Invalid API key")).

(** The error that replaces a failure of the lookup or of the update. *)
Definition validation_failed (e : Foreign) : Thrown :=
  Api (Errors.databaseError "Failed to validate API key"
         (Some [("error", JS.of_string (foreign_message e))])).

(** What the API key branch throws for a rejection [e]. *)
Definition rejected_as (e : Foreign) : Thrown :=
  if is_401 (Other e) then Other e else validation_failed e.

(** The HTTP status that an error handed to [next] carries, if any. *)
Definition status_of (t : Thrown) : option nat :=
  match t with
  | Api e => Some (Errors.statusCode e)
  | Other e => foreign_statusCode e
  end.

Definition anonymous (auth key : option string) : Request :=
  {| headers := {| authorization := auth; x_api_key := key |};
     userId := None; userEmail := None; authMethod := None; user := None |}.

Definition alice : AuthUser :=
  {| user_id := "user-1"; user_email := Some "alice@example.org" |}.

Definition key_row (active : bool) : ApiKeyRow :=
  {| key_id := "key-7"; key_user_id := "user-1"; is_active := active |}.

Definition outage : Foreign :=
  {| foreign_message := JS.Val "fetch failed"; foreign_statusCode := None |}.

(** A world in which the token "good" belongs to [alice], the key
    "rb_live" is active, the key "rb_old" is inactive, and the lookup of
    the key "rb_down" is rejected. *)
Definition sample : world :=
  {| getUser := fun token =>
       if String.eqb token "good" then UserSettled (Some alice) None
       else UserSettled None (Some outage);
     findKey := fun key =>
       if String.eqb key "rb_live" then KeySettled (Some (key_row true)) None
       else if String.eqb key "rb_old" then KeySettled (Some (key_row false)) None
       else if String.eqb key "rb_down" then KeyRejected outage
       else KeySettled None (Some outage);
     touch := fun _ _ => Touched;
     now := 1700000000000 |}.

End AuthSpec.

(* ================================================================== *)
(** * Server start: required environment variables                     *)
(* ================================================================== *)

Module Boot.

(** [must(name)]: the trimmed value of the variable, or the message of
    the error thrown when it is unset, empty or blank. *)
Definition must (env : string -> option string) (name : string)
  : string + string :=
  match env name with
  | Some (String c v) =>
      if JS.is_empty (JS.trim (String c v))
      then inl ("[BOOT] Missing env: " ++ name)%string
      else inr (JS.trim (String c v))
  | _ => inl ("[BOOT] Missing env: " ++ name)%string
  end.

(** No white space at the start. *)
Definition no_lead (s : string) : Prop :=
  match s with
  | EmptyString => True
  | String c _ => JS.is_space c = false
  end.

(** No white space at the end. *)
Fixpoint no_trail (s : string) : Prop :=
  match s with
  | EmptyString => True
  | String c EmptyString => JS.is_space c = false
  | String _ s' => no_trail s'
  end.

Fixpoint blank (s : string) : bool :=
  match s with
  | EmptyString => true
  | String c s' => JS.is_space c && blank s'
  end.

End Boot.

(* ================================================================== *)
(** * The tool handler of the MCP server                               *)
(* ================================================================== *)

Module Mcp.
Import Api Eff.

(** An error object of the database client. *)
Record DbError : Type := {
  message : JS.opt string;
  code : JS.opt string
}.

(** A thrown value, as the [catch] reads it: its [message] and
    [String(e)]. *)
Record Thrown : Type := {
  thrown_message : JS.opt string;
  thrown_string : string
}.

(** [req.params.arguments ?? {}], at the types of the tool schemas. *)
Record Args : Type := {
  id : JS.opt string;
  user_id : JS.opt string;
  text : JS.opt string;
  meta : JS.opt string;
  limit : JS.opt Q
}.

(** The object handed to [upsert]. *)
Record Row : Type := {
  row_id : JS.opt string;
  row_user_id : JS.opt string;
  row_text : string;
  row_meta : JS.opt string
}.

Inductive Answer (A : Type) : Type :=
| Resolved (data : option A) (error : option DbError)
| Rejected (thrown : Thrown).
Arguments Resolved {A} _ _.
Arguments Rejected {A} _.

Inductive HealthAnswer : Type :=
| HealthResolved (error : option DbError) (count : option nat)
| HealthRejected (thrown : Thrown).

Record world : Type := {
  health : HealthAnswer;
  upsert : Row -> Answer unit;
  getOne : JS.opt string -> Answer Memory;
  recent : JS.opt string -> Q -> Answer (list Memory)
}.

Inductive event : Type :=
| EHealth
| EUpsert (r : Row)
| EGet (id : JS.opt string)
| EList (user_id : JS.opt string) (limit : Q).

(** The object given to [text(...)], before [JSON.stringify]. *)
Inductive Payload : Type :=
| Pong
| Health (ok : bool) (error : option string) (count : option nat)
| Done
| Found (memory : option Memory)
| Items (items : list Memory)
| Failed (error : string).

Definition H (A : Type) : Type := Eff.M world event Thrown A.

(** [String(x)] of an argument. *)
Definition to_String (o : JS.opt string) : string :=
  match o with
  | JS.Undefined => "undefined"
  | JS.Null => "null"
  | JS.Val s => s
  end.

(** [new Error(m)]. *)
Definition new_Error (m : JS.opt string) : Thrown :=
  let msg := match m with JS.Undefined => "" | _ => to_String m end in
  {| thrown_message := JS.Val msg;
     thrown_string := if JS.is_empty msg then "Error"
                      else "Error: " ++ msg |}.

(** [x ?? null]. *)
Definition or_null (o : JS.opt string) : JS.opt string :=
  match o with JS.Undefined => JS.Null | _ => o end.

(** [Number(limit)] of [const { limit = 20 } = args]. *)
Definition limit_of (o : JS.opt Q) : Q :=
  match o with
  | JS.Undefined => 20
  | JS.Null => 0
  | JS.Val q => q
  end.

Definition awaited {A} (a : Answer A) : H (option A * option DbError) :=
  match a with
  | Resolved d e => ret (d, e)
  | Rejected t => throw t
  end.

(** [if (error) throw new Error(error.message)]. *)
Definition throw_if_error (e : option DbError) : H unit :=
  match e with
  | Some err => throw (new_Error (message err))
  | None => ret tt
  end.

Definition is_not_found (e : DbError) : bool :=
  match code e with
  | JS.Val c => String.eqb c "PGRST116"
  | _ => false
  end.

(** The body of the [try] block. *)
Definition dispatch (name : string) (args : Args) : H Payload :=
  if String.eqb name "ping" then ret Pong
  else if String.eqb name "supabase_health" then
    r <~ call EHealth health ;;
    match r with
    | HealthResolved error count =>
        ret (Health (match error with Some _ => false | None => true end)
                    (match error with
                     | Some e => match message e with
                                 | JS.Val m => Some m
                                 | _ => None
                                 end
                     | None => None
                     end)
                    count)
    | HealthRejected t => throw t
    end
  else if String.eqb name "putMemory" then
    let r := {| row_id := id args; row_user_id := user_id args;
                row_text := to_String (text args);
                row_meta := or_null (meta args) |} in
    a <~ call (EUpsert r) (fun w => upsert w r) ;;
    de <~ awaited a ;;
    _ <~ throw_if_error (snd de) ;;
    ret Done
  else if String.eqb name "getMemory" then
    a <~ call (EGet (id args)) (fun w => getOne w (id args)) ;;
    de <~ awaited a ;;
    match snd de with
    | Some e => if is_not_found e then ret (Found (fst de))
                else throw (new_Error (message e))
    | None => ret (Found (fst de))
    end
  else if String.eqb name "listMemories" then
    let n := limit_of (limit args) in
    a <~ call (EList (user_id args) n) (fun w => recent w (user_id args) n) ;;
    de <~ awaited a ;;
    _ <~ throw_if_error (snd de) ;;
    ret (Items (match fst de with Some l => l | None => [] end))
  else throw (new_Error (JS.Val ("Unknown tool: " ++ name)%string)).

(** [e?.message ?? String(e)]. *)
Definition thrown_text (t : Thrown) : string :=
  match thrown_message t with
  | JS.Val m => m
  | _ => thrown_string t
  end.

(** The handler of [CallToolRequestSchema]: the payload of the content
    and the database calls made. *)
Definition callTool (name : string) (args : Args) (w : world)
  : Payload * list event :=
  match run (dispatch name args) w with
  | (inr p, tr) => (p, tr)
  | (inl t, tr) => (Failed (thrown_text t), tr)
  end.

Definition no_args : Args :=
  {| id := JS.Undefined; user_id := JS.Undefined; text := JS.Undefined;
     meta := JS.Undefined; limit := JS.Undefined |}.

Definition known : list string :=
  ["ping"; "supabase_health"; "putMemory"; "getMemory"; "listMemories"].

End Mcp.

(* ================================================================== *)
(** * Definitions used to state what the handlers have in common,
      and sample worlds of the MCP server                              *)
(* ================================================================== *)

Module RestCalls.
Import Api Rest.

(** The handlers of the filter search and of the rest of the memories
    router, for the caller [uid]. *)
Inductive handler (uid : string) : H Response -> Prop :=
| h_search r : handler uid (post_search uid r)
| h_list lim src proj : handler uid (get_list uid lim src proj)
| h_get id : handler uid (get_one uid id)
| h_delete id : handler uid (delete_one uid id)
| h_put id r : handler uid (put_one uid id r).

(** The store queries among the calls of a run. *)
Fixpoint store_calls (tr : list event) : list Query :=
  match tr with
  | [] => []
  | ERows q :: tr' | ESingle q :: tr' | EDelete q :: tr'
  | EUpdate _ q :: tr' => q :: store_calls tr'
  | EEmbed _ :: tr' => store_calls tr'
  end.

Definition filters (q : JS.opt string) (t : JS.opt (list string))
  (l : JS.opt Q) : SearchFilters :=
  {| query := q; tags := t; source := JS.Undefined;
     project_id := JS.Undefined; limit := l |}.

Definition new_text_only (t : JS.opt string) : UpdateRequest :=
  {| new_text := t; new_tags := JS.Undefined; new_metadata := JS.Undefined;
     new_project_id := JS.Undefined |}.

End RestCalls.

Module McpSpec.
Import Api Mcp.

Definition no_rows : DbError :=
  {| message := JS.Val "JSON object requested, multiple (or no) rows returned";
     code := JS.Val "PGRST116" |}.

(** A database in which no memory is found and every write succeeds. *)
Definition empty_db : world :=
  {| health := HealthResolved None (Some 0%nat);
     upsert := fun _ => Resolved None None;
     getOne := fun _ => Resolved None (Some no_rows);
     recent := fun _ _ => Resolved None None |}.

End McpSpec.

(* ================================================================== *)
(** * The scoring arithmetic in double precision                       *)
(* ================================================================== *)

(** A JavaScript number is an IEEE-754 binary64 value, and every
    arithmetic operation rounds its exact result to the nearest double,
    ties to even.  [Context.score] reads the scoring arithmetic over the
    exact rationals, which is what the statements about the order of
    scores use; this module is the same code over the doubles that the
    program computes with, for the statements about the values of
    scores.  The operations are those of the standard library's
    specification of IEEE-754 arithmetic, at precision 53 and maximal
    exponent 1024. *)
Module Double.
Import Api.

Definition prec : Z := 53.
Definition emax : Z := 1024.

Definition number : Type := SpecFloat.spec_float.

(** The double nearest to an integer: the integer itself when it has
    less than 54 bits. *)
Definition of_Z (z : Z) : number :=
  SpecFloat.binary_normalize prec emax z 0 false.

Definition add : number -> number -> number := SpecFloat.SFadd prec emax.
Definition sub : number -> number -> number := SpecFloat.SFsub prec emax.
Definition mul : number -> number -> number := SpecFloat.SFmul prec emax.
Definition div : number -> number -> number := SpecFloat.SFdiv prec emax.

(** The literal [0.1]: the double nearest to one tenth,
    [7205759403792794 * 2 ^ -56]. *)
Definition tenth : number := SpecFloat.S754_finite false 7205759403792794 (-56).

(** [Math.max(a, b)]: NaN when an argument is NaN, and [+0] is larger
    than [-0]. *)
Definition Math_max (a b : number) : number :=
  match SpecFloat.SFcompare a b with
  | None => SpecFloat.S754_nan
  | Some Lt => b
  | Some Gt => a
  | Some Eq => match a with SpecFloat.S754_zero true => b | _ => a end
  end.

Definition is_finite (x : number) : bool :=
  match x with
  | SpecFloat.S754_zero _ | SpecFloat.S754_finite _ _ _ => true
  | _ => false
  end.

(** [m * 2 ^ e]. *)
Definition magnitude (m : positive) (e : Z) : Q :=
  match e with
  | Z0 => inject_Z (Zpos m)
  | Zpos k => inject_Z (Zpos m * 2 ^ Zpos k)
  | Zneg k => Zpos m # (2 ^ k)
  end.

(** The rational that a finite double stands for; the value given to NaN
    and to the infinities is not used. *)
Definition value (x : number) : Q :=
  match x with
  | SpecFloat.S754_finite s m e => if s then - magnitude m e else magnitude m e
  | _ => 0
  end.

(** A time value of [Date]: at most 8.64e15 milliseconds from the
    epoch. *)
Definition time_value (t : Z) : Prop := (Z.abs t <= 8640000000000000)%Z.

(** [let score = 0; keywords.forEach(keyword => { if
    (memoryText.includes(keyword)) score += 10 })]. *)
Definition keyword_score (kws : list string) (memoryText : string) : number :=
  fold_left (fun score keyword =>
               if JS.includes memoryText keyword then add score (of_Z 10)
               else score)
            kws (of_Z 0).

(** [1000 * 60 * 60 * 24]. *)
Definition ms_per_day : number :=
  mul (mul (mul (of_Z 1000) (of_Z 60)) (of_Z 60)) (of_Z 24).

(** [(Date.now() - new Date(memory.created_at).getTime()) / (1000*60*60*24)]. *)
Definition daysOld (t : Z) (m : Memory) : number :=
  div (sub (of_Z t) (of_Z (created_at m))) ms_per_day.

(** [Math.max(0, 5 - daysOld * 0.1)]. *)
Definition recency_bonus (d : number) : number :=
  Math_max (of_Z 0) (sub (of_Z 5) (mul d tenth)).

(** [score += Math.max(0, 5 - daysOld * 0.1)] after the [forEach]. *)
Definition score (kws : list string) (t : Z) (m : Memory) : number :=
  add (keyword_score kws (JS.toLowerCase (text m)))
      (recency_bonus (daysOld t m)).

(** The literal [14.9]: the double nearest to 149/10,
    [8387954305977549 * 2 ^ -49]. *)
Definition lit_14_9 : number :=
  SpecFloat.S754_finite false 8387954305977549 (-49).

End Double.

(* ================================================================== *)
(** * Definitions used to state the facts about double precision       *)
(* ================================================================== *)

Module DoubleSpec.
Import SpecFloat.

(** [p * 2 ^ n]. *)
Definition shl (p : positive) (n : nat) : positive := Nat.iter n xO p.

(** The double that holds an integer of less than 54 bits: its mantissa
    is shifted to 53 digits. *)
Definition canon (z : Z) : Double.number :=
  match z with
  | Z0 => S754_zero false
  | Zpos p => S754_finite false (shl p (Z.to_nat (53 - Zpos (digits2_pos p))))
                          (Zpos (digits2_pos p) - 53)
  | Zneg p => S754_finite true (shl p (Z.to_nat (53 - Zpos (digits2_pos p))))
                          (Zpos (digits2_pos p) - 53)
  end.

(** An integer of less than 54 bits. *)
Definition small (z : Z) : Prop := (Z.abs z < 2 ^ 53)%Z.

(** A memory created at the epoch whose text has no keyword of the
    samples. *)
Definition m_plain : Api.Memory := Sample.mem "m7" "We decided" "claude" 0.

End DoubleSpec.

(* ================================================================== *)
(** * Facts about the JavaScript built-ins                             *)
(* ================================================================== *)

Module JSFacts.

Lemma mem_true_iff (x : string) (l : list string) :
  JS.mem x l = true <-> In x l.
Proof.
  unfold JS.mem. rewrite existsb_exists. split.
  - intros [y [Hin Heq]]. apply String.eqb_eq in Heq. now subst.
  - intros Hin. exists x. split; [assumption | apply String.eqb_refl].
Qed.

Lemma mem_false_iff (x : string) (l : list string) :
  JS.mem x l = false <-> ~ In x l.
Proof.
  rewrite <- mem_true_iff. destruct (JS.mem x l); split; congruence.
Qed.

(** ** [new Set(arr)] *)

Lemma set_fold_spec (l acc : list string) :
  NoDup acc ->
  NoDup (fold_left JS.set_add l acc) /\
  (forall x, In x (fold_left JS.set_add l acc) <-> In x acc \/ In x l).
Proof.
  revert acc. induction l as [|a l IH]; intros acc Hnd; simpl.
  - split; [assumption | intros x; tauto].
  - assert (Hstep : NoDup (JS.set_add acc a) /\
                    forall x, In x (JS.set_add acc a) <-> In x acc \/ x = a).
    { unfold JS.set_add. destruct (JS.mem a acc) eqn:Hm.
      - apply mem_true_iff in Hm. split; [assumption |].
        intros x; split; [tauto | intros [H | ->]; assumption].
      - apply mem_false_iff in Hm. split.
        + apply NoDup_app; [assumption | repeat constructor; intros [] | ].
          intros x Hx [<- | []]. contradiction.
        + intros x. rewrite in_app_iff. simpl. intuition congruence. }
    destruct Hstep as [Hnd' Hin'].
    destruct (IH _ Hnd') as [IH1 IH2]. split; [assumption |].
    intros x. rewrite IH2, Hin'. intuition congruence.
Qed.

Lemma set_of_list_NoDup (l : list string) : NoDup (JS.set_of_list l).
Proof. apply (set_fold_spec l []). constructor. Qed.

Lemma set_of_list_In (l : list string) (x : string) :
  In x (JS.set_of_list l) <-> In x l.
Proof.
  unfold JS.set_of_list.
  destruct (set_fold_spec l [] (NoDup_nil _)) as [_ H].
  rewrite (H x). simpl. tauto.
Qed.

Lemma set_has_iff (l : list string) (x : string) :
  JS.set_has (JS.set_of_list l) x = true <-> In x l.
Proof. unfold JS.set_has. now rewrite mem_true_iff, set_of_list_In. Qed.

(** A set has more than one element exactly when the array holds two
    different values. *)
Lemma set_size_gt1_iff (l : list string) :
  (1 < JS.set_size (JS.set_of_list l))%nat <->
  exists x y, In x l /\ In y l /\ x <> y.
Proof.
  unfold JS.set_size.
  pose proof (set_of_list_NoDup l) as Hnd.
  pose proof (set_of_list_In l) as Hin.
  destruct (JS.set_of_list l) as [|a [|b s]]; simpl; split.
  - lia.
  - intros (x & _ & Hx & _ & _). apply Hin in Hx. destruct Hx.
  - lia.
  - intros (x & y & Hx & Hy & Hne).
    apply Hin in Hx, Hy. simpl in Hx, Hy. intuition congruence.
  - intros _. exists a, b. repeat split.
    + apply Hin. simpl. tauto.
    + apply Hin. simpl. tauto.
    + inversion Hnd as [|? ? Hna _]. intros ->. apply Hna. simpl. tauto.
  - intros _. lia.
Qed.

(** ** [arr.slice(0, end)] *)

Lemma slice0_firstn {A} (l : list A) (e : Q) :
  exists n, JS.slice0 l e = firstn n l.
Proof. unfold JS.slice0. eexists. reflexivity. Qed.

Lemma to_integer_lower (n : Z) (q : Q) :
  (0 <= n)%Z -> inject_Z n <= q -> (n <= JS.to_integer q)%Z.
Proof.
  intros Hn Hle. unfold JS.to_integer.
  unfold Qle in Hle. simpl in Hle. rewrite Z.mul_1_r in Hle.
  assert (Hq : (0 <= Qnum q)%Z) by nia.
  rewrite Z.quot_div_nonneg by lia.
  apply Z.div_le_lower_bound; lia.
Qed.

(** A cap that the array respects makes the truncation the identity. *)
Lemma slice0_all {A} (l : list A) (e : Q) :
  inject_Z (Z.of_nat (List.length l)) <= e -> JS.slice0 l e = l.
Proof.
  intros Hle. unfold JS.slice0.
  pose proof (to_integer_lower _ _ (Nat2Z.is_nonneg _) Hle) as Hint.
  destruct (JS.to_integer e <? 0)%Z eqn:Hneg.
  - apply Z.ltb_lt in Hneg. lia.
  - rewrite Z.min_r by lia. rewrite Nat2Z.id. apply firstn_all.
Qed.

(** ** [arr.sort(cmp)] *)

Section SortFacts.
Context {A : Type}.

Lemma sort_insert_perm (cmp : A -> A -> Q) (x : A) (l : list A) :
  Permutation (x :: l) (JS.sort_insert cmp x l).
Proof.
  induction l as [|y ys IH]; simpl.
  - apply Permutation_refl.
  - destruct (Qle_bool (cmp x y) 0).
    + apply Permutation_refl.
    + eapply perm_trans; [apply perm_swap | apply perm_skip, IH].
Qed.

Lemma sort_perm (cmp : A -> A -> Q) (l : list A) :
  Permutation l (JS.sort cmp l).
Proof.
  induction l as [|x xs IH]; simpl.
  - apply perm_nil.
  - eapply perm_trans; [apply perm_skip, IH | apply sort_insert_perm].
Qed.

Lemma sort_length (cmp : A -> A -> Q) (l : list A) :
  List.length (JS.sort cmp l) = List.length l.
Proof. symmetry. apply Permutation_length, sort_perm. Qed.

(** Sorting by a key in descending order, with the order [T] of the
    input kept among equal keys. *)
Variable key : A -> Q.
Variable T : A -> A -> Prop.

Lemma by_key_le (x y : A) :
  Qle_bool (Spec.by_key key x y) 0 = true <-> key y <= key x.
Proof.
  unfold Spec.by_key. rewrite Qle_bool_iff. split; intros H.
  - apply (Qplus_le_l _ _ (- key x)). now rewrite Qplus_opp_r.
  - apply (Qplus_le_l _ _ (- key x)) in H. now rewrite Qplus_opp_r in H.
Qed.

Lemma sort_insert_ranked (x : A) (l : list A) :
  StronglySorted (Spec.key_ranked key T) l -> Forall (T x) l ->
  StronglySorted (Spec.key_ranked key T) (JS.sort_insert (Spec.by_key key) x l).
Proof.
  induction l as [|y ys IH]; intros Hs HT; simpl.
  - repeat constructor.
  - inversion Hs as [|? ? Hys Hy]; subst.
    inversion HT as [|? ? HTy HTys]; subst.
    destruct (Qle_bool (Spec.by_key key x y) 0) eqn:Hc.
    + apply by_key_le in Hc. constructor; [assumption |].
      assert (Hxy : Spec.key_ranked key T x y).
      { destruct (Qlt_le_dec (key y) (key x)) as [Hlt | Hge].
        - now left.
        - right. split; [apply Qle_antisym; assumption | assumption]. }
      constructor; [assumption |].
      rewrite Forall_forall in Hy, HTys |- *. intros z Hz.
      destruct (Hy z Hz) as [Hlt | [Heq Hyz]].
      * left. eapply Qlt_le_trans; eassumption.
      * destruct Hxy as [Hlt | [Heq' _]].
        -- left. now rewrite Heq.
        -- right. split; [now rewrite Heq | now apply HTys].
    + assert (Hlt : key x < key y).
      { apply Qnot_le_lt. intros Hle. apply by_key_le in Hle. congruence. }
      constructor; [now apply IH |].
      eapply Permutation_Forall; [apply sort_insert_perm |].
      constructor; [now left | assumption].
Qed.

Lemma sort_ranked (l : list A) :
  StronglySorted T l ->
  StronglySorted (Spec.key_ranked key T) (JS.sort (Spec.by_key key) l).
Proof.
  induction 1 as [|x xs Hs IH Hx]; simpl.
  - constructor.
  - apply sort_insert_ranked; [assumption |].
    eapply Permutation_Forall; [apply sort_perm | assumption].
Qed.

(** The sort is stable: the elements of one key keep their order. *)
Lemma sort_insert_with_key (k : Q) (x : A) (l : list A) :
  Spec.with_key key k (JS.sort_insert (Spec.by_key key) x l)
  = Spec.with_key key k (x :: l).
Proof.
  induction l as [|y ys IH]; simpl; [reflexivity |].
  destruct (Qle_bool (Spec.by_key key x y) 0) eqn:Hc; [reflexivity |].
  assert (Hlt : key x < key y).
  { apply Qnot_le_lt. intros Hle. apply by_key_le in Hle. congruence. }
  unfold Spec.with_key in *. simpl in *. rewrite IH.
  destruct (Qeq_bool (key y) k) eqn:Ey, (Qeq_bool (key x) k) eqn:Ex;
    try reflexivity.
  apply Qeq_bool_iff in Ey, Ex. rewrite Ey, Ex in Hlt.
  now apply Qlt_irrefl in Hlt.
Qed.

Lemma sort_with_key (k : Q) (l : list A) :
  Spec.with_key key k (JS.sort (Spec.by_key key) l) = Spec.with_key key k l.
Proof.
  induction l as [|x xs IH]; simpl; [reflexivity |].
  rewrite sort_insert_with_key. unfold Spec.with_key in *. simpl.
  now rewrite IH.
Qed.

End SortFacts.

Lemma StronglySorted_weaken {A} (R R' : A -> A -> Prop) (l : list A) :
  (forall a b, R a b -> R' a b) -> StronglySorted R l -> StronglySorted R' l.
Proof.
  intros HR. induction 1 as [|x l Hl IH Hx]; constructor; [assumption |].
  eapply Forall_impl; [| exact Hx]. intros b. apply HR.
Qed.

Lemma StronglySorted_any {A} (l : list A) :
  StronglySorted (fun _ _ => True) l.
Proof.
  induction l; constructor; [assumption | now apply Forall_forall].
Qed.

Section StableSort.
Context {A : Type} (key : A -> Q).

Lemma sort_desc (l : list A) :
  StronglySorted (fun a b => key b <= key a) (JS.sort (Spec.by_key key) l).
Proof.
  apply (StronglySorted_weaken (Spec.key_ranked key (fun _ _ => True))).
  - intros a b [Hlt | [Heq _]]; [now apply Qlt_le_weak |].
    rewrite Heq. apply Qle_refl.
  - apply sort_ranked, StronglySorted_any.
Qed.

Lemma sort_stable_desc (l : list A) :
  Spec.stable_desc key l (JS.sort (Spec.by_key key) l).
Proof. split; [apply sort_desc | intros k; apply sort_with_key]. Qed.

Lemma with_key_In (k : Q) (x : A) (l : list A) :
  In x (Spec.with_key key k l) -> In x l.
Proof. unfold Spec.with_key. intros H. now apply filter_In in H. Qed.

Lemma with_key_head (x : A) (l : list A) :
  Spec.with_key key (key x) (x :: l) = x :: Spec.with_key key (key x) l.
Proof. unfold Spec.with_key. simpl. now rewrite Qeq_bool_refl. Qed.

Lemma head_key_le (a b : A) (l1 l2 : list A) :
  StronglySorted (fun x y => key y <= key x) (b :: l2) ->
  Spec.with_key key (key a) (a :: l1) = Spec.with_key key (key a) (b :: l2) ->
  key a <= key b.
Proof.
  intros Hs Hf. rewrite with_key_head in Hf.
  assert (Hin : In a (b :: l2)).
  { apply (with_key_In (key a)). rewrite <- Hf. now left. }
  inversion Hs as [|? ? _ Hb]; subst.
  destruct Hin as [<- | Hin]; [apply Qle_refl |].
  rewrite Forall_forall in Hb. now apply Hb.
Qed.

(** Two descending arrangements with the same elements in the same order
    under every key are the same list: the result of a stable sort does
    not depend on the algorithm. *)
Lemma desc_determined (l1 l2 : list A) :
  StronglySorted (fun a b => key b <= key a) l1 ->
  StronglySorted (fun a b => key b <= key a) l2 ->
  (forall k, Spec.with_key key k l1 = Spec.with_key key k l2) ->
  l1 = l2.
Proof.
  intros H1. revert l2.
  induction H1 as [|a l1 Hs1 IH Ha]; intros [|b l2] H2 Hf.
  - reflexivity.
  - specialize (Hf (key b)). rewrite with_key_head in Hf. discriminate.
  - specialize (Hf (key a)). rewrite with_key_head in Hf. discriminate.
  - assert (Hab : key b == key a).
    { apply Qle_antisym.
      - apply (head_key_le b a l2 l1); [now constructor | now rewrite Hf].
      - apply (head_key_le a b l1 l2); [assumption | apply Hf]. }
    assert (Heq : a = b).
    { pose proof (Hf (key a)) as Hk. rewrite with_key_head in Hk.
      unfold Spec.with_key in Hk at 2. simpl in Hk.
      apply Qeq_bool_iff in Hab. rewrite Hab in Hk. now injection Hk. }
    subst b. f_equal. inversion H2; subst. apply IH; [assumption |].
    intros k. specialize (Hf k). unfold Spec.with_key in *. simpl in Hf.
    destruct (Qeq_bool (key a) k); [now injection Hf | assumption].
Qed.

Lemma stable_desc_unique (l out : list A) :
  Spec.stable_desc key l out -> out = JS.sort (Spec.by_key key) l.
Proof.
  intros [Hs Hf]. apply desc_determined; [assumption | apply sort_desc |].
  intros k. now rewrite Hf, sort_with_key.
Qed.

End StableSort.

Lemma StronglySorted_firstn {A} (R : A -> A -> Prop) (n : nat) (l : list A) :
  StronglySorted R l -> StronglySorted R (firstn n l).
Proof.
  intros H. revert n. induction H as [|x l Hl IH Hx]; intros [|n]; simpl;
    try constructor; auto.
  revert Hx. clear. revert n.
  induction l as [|y l IH]; intros [|n] H; simpl; try constructor;
    inversion H; subst; auto.
Qed.

Lemma StronglySorted_nth {A} (R : A -> A -> Prop) (l : list A) :
  StronglySorted R l ->
  forall i j a b, (i < j)%nat ->
    nth_error l i = Some a -> nth_error l j = Some b -> R a b.
Proof.
  induction 1 as [|x l Hl IH Hx]; intros i j a b Hij Ha Hb.
  - destruct i; discriminate.
  - destruct j as [|j]; [lia |]. simpl in Hb.
    destruct i as [|i]; simpl in Ha.
    + injection Ha as <-. rewrite Forall_forall in Hx.
      apply Hx. eapply nth_error_In; eassumption.
    + apply (IH i j); [lia | assumption | assumption].
Qed.
End JSFacts.

(* ================================================================== *)
(** * Keyword extraction                                               *)
(* ================================================================== *)

Module KeywordProps.
Import Context.

Lemma keep_word_spec (word : string) :
  keep_word word = true <->
  (2 < String.length word)%nat /\ ~ In word stopWords.
Proof.
  unfold keep_word. rewrite andb_true_iff, negb_true_iff.
  rewrite Nat.ltb_lt, JSFacts.mem_false_iff. tauto.
Qed.

Lemma tokens_kept (s : string) : Forall (fun k => keep_word k = true) (tokens s).
Proof.
  unfold tokens. apply Forall_forall. intros k Hk.
  now apply filter_In in Hk.
Qed.

Lemma Forall_firstn {A} (P : A -> Prop) (n : nat) (l : list A) :
  Forall P l -> Forall P (firstn n l).
Proof.
  intros H. revert n. induction H as [|x l Hx Hl IH]; intros [|n]; simpl;
    constructor; auto.
Qed.

Lemma historyKeywords_length (h : list string) :
  (List.length (historyKeywords h) <= 5)%nat.
Proof. unfold historyKeywords. apply firstn_le_length. Qed.

Lemma keywords_kept (q : string) (h : JS.opt (list string)) :
  Forall (fun k => keep_word k = true) (keywords q h).
Proof.
  assert (Hp : Forall (fun k => keep_word k = true) (firstn 10 (tokens q)))
    by (apply Forall_firstn, tokens_kept).
  unfold keywords. destruct h as [| |[|e es]]; try assumption.
  apply Forall_app. split; [assumption |].
  unfold historyKeywords. apply Forall_firstn, tokens_kept.
Qed.

Lemma keywords_primary_prefix (q : string) (h : JS.opt (list string)) :
  exists extra, keywords q h = firstn 10 (tokens q) ++ extra /\
                (List.length extra <= 5)%nat.
Proof.
  unfold keywords. destruct h as [| |[|e es]].
  1-3: exists []; rewrite app_nil_r; simpl; split; [reflexivity | lia].
  eexists. split; [reflexivity | apply historyKeywords_length].
Qed.

(** C3: the extracted keyword list is the first 10 tokens of the query
    followed by at most 5 tokens of the history, so it never has more
    than 15 entries; it never holds a token of length at most 2 or a stop
    word; and for the query "I prefer dark mode and decided to use
    PostgreSQL" it contains prefer, dark, mode, decided and postgresql,
    whatever the history. *)
Theorem keywords_bounded_and_filtered :
  forall (q : string) (h : JS.opt (list string)),
    (exists extra,
        keywords q h = firstn 10 (tokens q) ++ extra /\
        (List.length (firstn 10 (tokens q)) <= 10)%nat /\
        (List.length extra <= 5)%nat) /\
    (List.length (keywords q h) <= 15)%nat /\
    Forall (fun k => (2 < String.length k)%nat /\ ~ In k stopWords)
           (keywords q h) /\
    incl ["prefer"; "dark"; "mode"; "decided"; "postgresql"]
         (keywords "I prefer dark mode and decided to use PostgreSQL" h).
Proof.
  intros q h.
  pose proof (firstn_le_length 10 (tokens q)) as Hten.
  split; [| split; [| split]].
  - destruct (keywords_primary_prefix q h) as (extra & Heq & Hextra).
    now exists extra.
  - destruct (keywords_primary_prefix q h) as (extra & -> & Hextra).
    rewrite length_app. lia.
  - eapply Forall_impl; [| apply keywords_kept].
    intros k Hk. now apply keep_word_spec.
  - destruct (keywords_primary_prefix
                "I prefer dark mode and decided to use PostgreSQL" h)
      as (extra & -> & _).
    apply incl_appl.
    replace (firstn 10 (tokens "I prefer dark mode and decided to use PostgreSQL"))
      with ["prefer"; "dark"; "mode"; "decided"; "use"; "postgresql"]
      by (vm_compute; reflexivity).
    intros k Hk. simpl in *. intuition.
Qed.

End KeywordProps.

(* ================================================================== *)
(** * Runs of the handlers                                             *)
(* ================================================================== *)

Module Runs.
Import Api Spec.

Lemma failed_cases {A} (r : Reply A) :
  (exists d, r = Settled d None) \/ (exists e, failed r e).
Proof.
  destruct r as [d [e|] | e].
  - right. exists e. right. now exists d.
  - left. now exists d.
  - right. exists e. now left.
Qed.

Lemma settle_failed {A} (r : Reply A) (e : Error) (w : world) (st : state) :
  failed r e -> settle r w st = (Throw e, st).
Proof.
  intros [-> | [d ->]]; reflexivity.
Qed.

(** A handler whose body is wrapped in the shared [catch] block always
    produces a response. *)
Lemma caught_returns (m : M Response) (fallback : string) (w : world)
  (st : state) :
  exists resp st',
    try_catch m (internal_error fallback) w st = (Return resp, st').
Proof.
  unfold try_catch. destruct (m w st) as [[resp | e] st'].
  - now exists resp, st'.
  - unfold internal_error, ret. eauto.
Qed.

Lemma missing_cases (o : JS.opt string) :
  missing o \/ exists c s, o = JS.Val (String c s).
Proof.
  destruct o as [| |[|c s]]; try (left; reflexivity).
  right. now exists c, s.
Qed.

(** The scoring [map] reads the clock once per row and calls nothing. *)
Lemma mapM_score (kws : list string) (rows : list Memory) (w : world)
  (st : state) :
  mapM (Context.score_memory kws) rows w st =
  (Return (scored_from w kws (reads st) rows),
   {| trace := trace st; reads := reads st + List.length rows |}).
Proof.
  revert st. induction rows as [|m ms IH]; intros st; simpl.
  - unfold ret. destruct st as [tr n]. simpl. now rewrite Nat.add_0_r.
  - unfold bind at 1. unfold Context.score_memory at 1.
    unfold bind at 1. unfold date_now, ret at 1.
    unfold bind at 1. rewrite IH. simpl. unfold ret.
    now rewrite Nat.add_succ_r.
Qed.

Section PostContext.
Variables (uid : string) (r : Context.ContextRequest) (w : world).

Lemma run_post_context_invalid :
  missing (Context.query r) ->
  run (Context.post_context uid r) w =
  (error_response 400 "Bad Request" "Query is required.", []).
Proof.
  unfold missing, run, Context.post_context, try_catch.
  destruct (Context.query r) as [| |[|c s]]; simpl; intros H;
    try reflexivity; discriminate.
Qed.

Lemma recall_settled (q : string) (data : option (list Memory)) :
  select w (context_query uid r q) = Settled data None ->
  Context.recall uid r q w initial =
  (Return (context_response w r q data),
   {| trace := [ESelect (context_query uid r q)];
      reads := List.length (rows_of data) |}).
Proof.
  intros Hsel. unfold Context.recall, await_select.
  unfold bind at 1. unfold bind at 1. unfold emit at 1.
  fold (context_query uid r q). rewrite Hsel. simpl settle. unfold ret at 1.
  unfold bind at 1. rewrite mapM_score. reflexivity.
Qed.

Lemma recall_failed (q : string) (e : Error) :
  failed (select w (context_query uid r q)) e ->
  Context.recall uid r q w initial =
  (Throw e, {| trace := [ESelect (context_query uid r q)]; reads := 0 |}).
Proof.
  intros Hf. unfold Context.recall, await_select.
  unfold bind at 1. unfold bind at 1. unfold emit at 1.
  fold (context_query uid r q). now rewrite (settle_failed _ _ _ _ Hf).
Qed.

Lemma run_post_context_ok (c : ascii) (s : string)
  (data : option (list Memory)) :
  Context.query r = JS.Val (String c s) ->
  select w (context_query uid r (String c s)) = Settled data None ->
  run (Context.post_context uid r) w =
  (context_response w r (String c s) data,
   [ESelect (context_query uid r (String c s))]).
Proof.
  intros Hq Hsel. unfold run, Context.post_context, try_catch.
  rewrite Hq, (recall_settled _ _ Hsel). reflexivity.
Qed.

Lemma run_post_context_failed (c : ascii) (s : string) (e : Error) :
  Context.query r = JS.Val (String c s) ->
  failed (select w (context_query uid r (String c s))) e ->
  run (Context.post_context uid r) w =
  (server_error e "Failed to recall context.",
   [ESelect (context_query uid r (String c s))]).
Proof.
  intros Hq Hf. unfold run, Context.post_context, try_catch.
  rewrite Hq, (recall_failed _ _ Hf). reflexivity.
Qed.

(** A response that carries results comes from a settled store call. *)
Lemma run_post_context_body (resp : Response) (tr : list event)
  (res : ContextResult) :
  run (Context.post_context uid r) w = (resp, tr) ->
  body resp = ContextBody res ->
  exists c s data,
    Context.query r = JS.Val (String c s) /\
    select w (context_query uid r (String c s)) = Settled data None /\
    resp = context_response w r (String c s) data /\
    tr = [ESelect (context_query uid r (String c s))].
Proof.
  intros Hrun Hbody.
  destruct (missing_cases (Context.query r)) as [Hm | (c & s & Hq)].
  - rewrite (run_post_context_invalid Hm) in Hrun.
    injection Hrun as <- <-. discriminate.
  - destruct (failed_cases (select w (context_query uid r (String c s))))
      as [[data Hsel] | [e Hf]].
    + rewrite (run_post_context_ok _ _ _ Hq Hsel) in Hrun.
      injection Hrun as <- <-. now exists c, s, data.
    + rewrite (run_post_context_failed _ _ _ Hq Hf) in Hrun.
      injection Hrun as <- <-. discriminate.
Qed.

End PostContext.

End Runs.

(* ================================================================== *)
(** * Relevance scoring                                                *)
(* ================================================================== *)

Module ScoreProps.
Import Api Spec Context.

Lemma inject_nat_succ (n : nat) :
  inject_Z (Z.of_nat (S n)) == inject_Z (Z.of_nat n) + 1.
Proof. rewrite Nat2Z.inj_succ, <- Z.add_1_r, inject_Z_plus. reflexivity. Qed.

(** The [forEach] adds ten points per matching entry to what it started
    from. *)
Lemma keyword_fold (kws : list string) (memoryText : string) (acc : Q) :
  fold_left (fun score keyword =>
               if JS.includes memoryText keyword then score + 10 else score)
            kws acc
  == acc + 10 * inject_Z (Z.of_nat (matches kws memoryText)).
Proof.
  revert acc. unfold matches.
  induction kws as [|k ks IH]; intros acc; simpl.
  - ring.
  - rewrite IH. destruct (JS.includes memoryText k).
    + cbn [List.length]. rewrite inject_nat_succ. ring.
    + reflexivity.
Qed.

Lemma keyword_score_matches (kws : list string) (memoryText : string) :
  keyword_score kws memoryText
  == 10 * inject_Z (Z.of_nat (matches kws memoryText)).
Proof. unfold keyword_score. rewrite keyword_fold. ring. Qed.

Lemma daysOld_nonneg (t : Z) (m : Memory) :
  (created_at m <= t)%Z -> 0 <= daysOld t m.
Proof.
  intros H. unfold daysOld, Qdiv, Qle. simpl. lia.
Qed.

Lemma recency_bonus_nonneg (d : Q) : 0 <= recency_bonus d.
Proof. unfold recency_bonus. apply Q.le_max_l. Qed.


Lemma recency_bonus_at_most_5 (d : Q) : 0 <= d -> recency_bonus d <= 5.
Proof.
  intros H. unfold recency_bonus. apply Q.max_lub; [discriminate |].
  rewrite <- (Qplus_0_r 5) at 2.
  apply Qplus_le_compat; [apply Qle_refl |].
  rewrite <- (Qopp_involutive 0). apply Qopp_le_compat.
  apply Qmult_le_0_compat; [assumption | discriminate].
Qed.

Lemma keyword_score_nonneg (kws : list string) (memoryText : string) :
  0 <= keyword_score kws memoryText.
Proof.
  rewrite keyword_score_matches.
  apply Qmult_le_0_compat; [discriminate |].
  unfold Qle. simpl. lia.
Qed.

Lemma score_nonneg (kws : list string) (t : Z) (m : Memory) :
  0 <= score kws t m.
Proof.
  unfold score. rewrite <- (Qplus_0_r 0).
  apply Qplus_le_compat; [apply keyword_score_nonneg | apply recency_bonus_nonneg].
Qed.






End ScoreProps.

(* ================================================================== *)
(** * Ranking                                                          *)
(* ================================================================== *)

Module RankingProps.
Import Api Spec Context.

Lemma scored_from_In (w : world) (kws : list string) (rows : list Memory) :
  forall n a, In a (scored_from w kws n rows) -> In (memory a) rows.
Proof.
  induction rows as [|m ms IH]; intros n a; simpl.
  - tauto.
  - intros [<- | H]; [now left | right; eauto].
Qed.

Lemma scored_from_length (w : world) (kws : list string) (rows : list Memory) :
  forall n, List.length (scored_from w kws n rows) = List.length rows.
Proof. induction rows; intros n; simpl; auto. Qed.

(** Scoring keeps the rows in the order of the store. *)
Lemma scored_from_recency (w : world) (kws : list string) (rows : list Memory) :
  StronglySorted recency_desc rows ->
  forall n, StronglySorted (fun a b => recency_desc (memory a) (memory b))
                           (scored_from w kws n rows).
Proof.
  induction 1 as [|m ms Hs IH Hm]; intros n; simpl; constructor.
  - apply IH.
  - apply Forall_forall. intros a Ha. simpl.
    rewrite Forall_forall in Hm. apply Hm.
    eapply scored_from_In; eassumption.
Qed.

Lemma memories_prefix (w : world) (r : ContextRequest) (q : string)
  (data : option (list Memory)) (res : ContextResult) :
  body (context_response w r q data) = ContextBody res ->
  exists n,
    memories res =
    firstn n (JS.sort (Spec.by_key relevance_score)
                (scored_from w (keywords q (conversation_history r)) 0
                   (rows_of data))).
Proof.
  unfold context_response, respond. simpl. intros H. injection H as <-.
  simpl. apply JSFacts.slice0_firstn.
Qed.

(** C4: the memories of a successful response are in descending order of
    relevance score, and when the store returned its rows most recent
    first, as the query asks, memories of equal score are most recent
    first. *)
Theorem memories_ranked :
  forall (uid : string) (r : ContextRequest) (w : world)
         (resp : Response) (tr : list event) (res : ContextResult),
    run (post_context uid r) w = (resp, tr) ->
    body resp = ContextBody res ->
    (forall i j a b, (i < j)%nat ->
        nth_error (memories res) i = Some a ->
        nth_error (memories res) j = Some b ->
        relevance_score b <= relevance_score a) /\
    ((forall q data,
         query r = JS.Val q ->
         select w (context_query uid r q) = Settled data None ->
         StronglySorted recency_desc (rows_of data)) ->
     forall i j a b, (i < j)%nat ->
        nth_error (memories res) i = Some a ->
        nth_error (memories res) j = Some b ->
        relevance_score a == relevance_score b ->
        (created_at (memory b) <= created_at (memory a))%Z).
Proof.
  intros uid r w resp tr res Hrun Hbody.
  destruct (Runs.run_post_context_body _ _ _ _ _ _ Hrun Hbody)
    as (c & s & data & Hq & Hsel & -> & _).
  destruct (memories_prefix _ _ _ _ _ Hbody) as [n Hmem].
  split.
  - intros i j a b Hij Ha Hb. rewrite Hmem in Ha, Hb.
    assert (Hr : Spec.key_ranked relevance_score (fun _ _ => True) a b).
    { eapply JSFacts.StronglySorted_nth; [| exact Hij | exact Ha | exact Hb].
      apply JSFacts.StronglySorted_firstn, JSFacts.sort_ranked,
        JSFacts.StronglySorted_any. }
    destruct Hr as [Hlt | [Heq _]].
    + now apply Qlt_le_weak.
    + rewrite Heq. apply Qle_refl.
  - intros Hstore i j a b Hij Ha Hb Heq. rewrite Hmem in Ha, Hb.
    assert (Hr : Spec.key_ranked relevance_score
                   (fun x y => recency_desc (memory x) (memory y)) a b).
    { eapply JSFacts.StronglySorted_nth; [| exact Hij | exact Ha | exact Hb].
      apply JSFacts.StronglySorted_firstn, JSFacts.sort_ranked.
      apply scored_from_recency. eapply Hstore; eassumption. }
    destruct Hr as [Hlt | [_ Hrec]].
    + rewrite Heq in Hlt. exfalso. eapply Qlt_irrefl; eassumption.
    + exact Hrec.
Qed.

(** The theorem at work on four candidates: the second and third results
    have the same score, 10, and the more recent of the two comes first. *)
Lemma memories_ranked_witness :
  exists a b,
    nth_error (Sample.memories_of
                 (fst (run (post_context "u1" Sample.ranked_request)
                           Sample.ranked_world))) 1 = Some a /\
    nth_error (Sample.memories_of
                 (fst (run (post_context "u1" Sample.ranked_request)
                           Sample.ranked_world))) 2 = Some b /\
    memory a = Sample.m_old /\ memory b = Sample.m_older /\
    relevance_score b <= relevance_score a /\
    (created_at (memory b) <= created_at (memory a))%Z.
Proof.
  pose (out := run (post_context "u1" Sample.ranked_request) Sample.ranked_world).
  let v := eval vm_compute in (body (fst out)) in
  assert (Hbody : body (fst out) = v) by (vm_compute; reflexivity).
  match type of Hbody with
  | _ = ContextBody ?res =>
      destruct (memories_ranked "u1" Sample.ranked_request Sample.ranked_world
                  (fst out) (snd out) res (surjective_pairing out) Hbody)
        as [Hscore Htie];
      assert (Ha : exists a, nth_error (memories res) 1 = Some a)
        by (eexists; vm_compute; reflexivity);
      assert (Hb : exists b, nth_error (memories res) 2 = Some b)
        by (eexists; vm_compute; reflexivity)
  end.
  destruct Ha as [a Ha], Hb as [b Hb].
  exists a, b.
  assert (H12 : (1 < 2)%nat) by repeat constructor.
  split; [exact Ha | split; [exact Hb |]].
  split; [vm_compute in Ha; now injection Ha as <- |].
  split; [vm_compute in Hb; now injection Hb as <- |].
  split.
  - exact (Hscore 1%nat 2%nat a b H12 Ha Hb).
  - apply (Htie) with (i := 1%nat) (j := 2%nat); try assumption.
    + intros q data _ Hsel. injection Hsel as <-.
      repeat constructor; vm_compute; discriminate.
    + vm_compute in Ha, Hb. injection Ha as <-. injection Hb as <-.
      vm_compute. reflexivity.
Defined.

End RankingProps.

(* ================================================================== *)
(** * The cross-source flag                                            *)
(* ================================================================== *)

Module CrossSourceProps.
Import Api Spec Context.

(** The flag is the boolean [true] exactly when an identifier was
    supplied, the set of sources has more than one element and the
    identifier is not one of them. *)
Lemma crossLLM_true_iff (l : JS.opt string) (srcs : list string) :
  crossLLM_of l srcs = JS.VBool true <->
  exists s, l = JS.Val s /\ s <> "" /\
            (1 < JS.set_size srcs)%nat /\ JS.set_has srcs s = false.
Proof.
  unfold crossLLM_of, JS.and_. split.
  - destruct l as [| |[|c s]]; simpl; try discriminate.
    destruct (1 <? JS.set_size srcs)%nat eqn:Hsz; simpl; [| discriminate].
    intros H. injection H as H. apply negb_true_iff in H.
    exists (String c s). apply Nat.ltb_lt in Hsz.
    repeat split; [discriminate | assumption | assumption].
  - intros (s & -> & Hne & Hsz & Hhas).
    destruct s as [|c s]; [congruence |]. simpl.
    apply Nat.ltb_lt in Hsz. rewrite Hsz. simpl. now rewrite Hhas.
Qed.

(** With an identifier the flag is a boolean. *)
Lemma crossLLM_with_identifier (c : ascii) (s : string) (srcs : list string) :
  crossLLM_of (JS.Val (String c s)) srcs =
  JS.VBool ((1 <? JS.set_size srcs)%nat && negb (JS.set_has srcs (String c s))).
Proof.
  unfold crossLLM_of, JS.and_. simpl.
  destruct (1 <? JS.set_size srcs)%nat; reflexivity.
Qed.

(** Without one it is the falsy identifier itself, never [false]. *)
Lemma crossLLM_without_identifier (srcs : list string) :
  crossLLM_of JS.Undefined srcs = JS.VUndefined /\
  crossLLM_of JS.Null srcs = JS.VNull /\
  crossLLM_of (JS.Val "") srcs = JS.VStr "".
Proof. repeat split. Qed.

(** In terms of the scored memories: two of them differ in their source
    and none of them has the caller's identifier as its source. *)
Lemma crossLLM_true_meaning (l : JS.opt string) (scored : list ScoredMemory) :
  crossLLM_of l (sources scored) = JS.VBool true <->
  exists s, l = JS.Val s /\ s <> "" /\
    (exists a b, In a scored /\ In b scored /\
                 source (memory a) <> source (memory b)) /\
    (forall a, In a scored -> source (memory a) <> s).
Proof.
  rewrite crossLLM_true_iff. unfold sources.
  split; intros (s & Hl & Hne & Hsz & Hhas); exists s;
    (split; [assumption | split; [assumption |]]).
  - split.
    + apply JSFacts.set_size_gt1_iff in Hsz.
      destruct Hsz as (x & y & Hx & Hy & Hxy).
      apply in_map_iff in Hx, Hy.
      destruct Hx as (a & <- & Ha), Hy as (b & <- & Hb). now exists a, b.
    + intros a Ha Heq. apply not_true_iff_false in Hhas. apply Hhas.
      apply JSFacts.set_has_iff. apply in_map_iff. now exists a.
  - split.
    + apply JSFacts.set_size_gt1_iff.
      destruct Hsz as (a & b & Ha & Hb & Hab).
      exists (source (memory a)), (source (memory b)).
      repeat split; try assumption;
        now apply (in_map (fun m => source (memory m))).
    + apply not_true_iff_false. intros Hin.
      apply JSFacts.set_has_iff in Hin. apply in_map_iff in Hin.
      destruct Hin as (a & Heq & Ha). now apply (Hhas a).
Qed.

(** The flag of a response is computed over all scored memories; they
    are the memories of the response when the store kept to the cap. *)
Lemma crossLLM_over_results (uid : string) (r : ContextRequest) (w : world)
  (c : ascii) (s : string) (data : option (list Memory)) :
  query r = JS.Val (String c s) ->
  select w (context_query uid r (String c s)) = Settled data None ->
  inject_Z (Z.of_nat (List.length (rows_of data))) <= JS.number_or (limit r) 10 ->
  exists res,
    fst (run (post_context uid r) w)
    = {| status := 200; body := ContextBody res |} /\
    crossLLM res = crossLLM_of (llm r) (sources (memories res)).
Proof.
  intros Hq Hsel Hcap.
  rewrite (Runs.run_post_context_ok _ _ _ _ _ _ Hq Hsel).
  unfold context_response, respond. eexists. split; [reflexivity |].
  cbn [crossLLM memories]. rewrite JSFacts.slice0_all; [reflexivity |].
  now rewrite JSFacts.sort_length, RankingProps.scored_from_length.
Qed.

(** C1 at the failing input: a request without [llm] whose results come
    from three sources is answered with status 200 and a [crossLLM] that
    is [undefined], not [false]; an empty [llm] gives the empty string,
    and the identifier "gemini", which none of the results carries, gives
    [true]. *)
Theorem crossLLM_not_false_without_identifier :
  let answer l :=
    fst (run (post_context "u1" (Sample.request "dark mode" l JS.Undefined))
             Sample.ranked_world) in
  status (answer JS.Undefined) = 200%nat /\
  map (fun m => source (memory m)) (Sample.memories_of (answer JS.Undefined))
  = ["chatgpt"; "cursor"; "cursor"; "claude"] /\
  Sample.crossLLM_in (answer JS.Undefined) = Some JS.VUndefined /\
  Sample.crossLLM_in (answer (JS.Val "")) = Some (JS.VStr "") /\
  Sample.crossLLM_in (answer (JS.Val "gemini")) = Some (JS.VBool true) /\
  Sample.crossLLM_in (answer (JS.Val "claude")) = Some (JS.VBool false).
Proof. repeat split; vm_compute; reflexivity. Qed.

End CrossSourceProps.

(* ================================================================== *)
(** * The result limit                                                 *)
(* ================================================================== *)

Module LimitProps.
Import Api Spec Context.

Lemma falsy_limit_default (o : JS.opt Q) :
  falsy_limit o -> JS.number_or o 10 = 10.
Proof.
  unfold falsy_limit. destruct o as [| |q]; simpl; try reflexivity.
  intros H. apply negb_false_iff in H. now rewrite H.
Qed.

Lemma falsy_limit_cases (o : JS.opt Q) :
  falsy_limit o <-> o = JS.Undefined \/ o = JS.Null \/ exists q, o = JS.Val q /\ q == 0.
Proof.
  unfold falsy_limit. destruct o as [| |q]; simpl.
  - intuition.
  - intuition.
  - rewrite negb_false_iff, Qeq_bool_iff. split.
    + intros H. right. right. now exists q.
    + intros [H | [H | (q' & H & Hq)]]; try discriminate.
      injection H as ->. assumption.
Qed.

(** C10: the fetch cap of the store query and the end of the final
    [slice] are the same number, [limit || 10], which is 10 for a limit
    that is absent, [null] or 0; and when the store returned no more rows
    than the cap, the final truncation keeps every scored memory. *)
Theorem limit_defaults_to_10 :
  forall (uid : string) (r : ContextRequest) (w : world) (c : ascii)
         (s : string) (data : option (list Memory)),
    query r = JS.Val (String c s) ->
    select w (context_query uid r (String c s)) = Settled data None ->
    let cap := JS.number_or (limit r) 10 in
    let scoredMemories :=
      JS.sort by_score
        (scored_from w (keywords (String c s) (conversation_history r)) 0
           (rows_of data)) in
    exists res,
      run (post_context uid r) w =
      ({| status := 200; body := ContextBody res |},
       [ESelect (context_query uid r (String c s))]) /\
      sel_limit (context_query uid r (String c s)) = Some cap /\
      memories res = JS.slice0 scoredMemories cap /\
      count res = List.length (rows_of data) /\
      (falsy_limit (limit r) -> cap = 10) /\
      (inject_Z (Z.of_nat (List.length (rows_of data))) <= cap ->
       memories res = scoredMemories /\
       List.length (memories res) = List.length (rows_of data)).
Proof.
  intros uid r w c s data Hq Hsel cap scoredMemories.
  rewrite (Runs.run_post_context_ok _ _ _ _ _ _ Hq Hsel).
  unfold context_response, respond.
  assert (Hlen : List.length scoredMemories = List.length (rows_of data)).
  { unfold scoredMemories. now rewrite JSFacts.sort_length,
      RankingProps.scored_from_length. }
  eexists.
  split; [reflexivity |].
  split; [reflexivity |].
  split; [reflexivity |].
  split; [exact Hlen |].
  split; [apply falsy_limit_default |].
  intros Hcap. cbn [memories]. fold scoredMemories. fold cap.
  rewrite JSFacts.slice0_all by (now rewrite Hlen).
  now split.
Qed.

(** The theorem at work: a limit of 0 sends the cap 10 to the store, and
    the four rows the store returns are all in the response. *)
Lemma limit_defaults_to_10_witness :
  sel_limit (context_query "u1" (Sample.request "dark mode" JS.Undefined (JS.Val 0))
                           "dark mode") = Some 10 /\
  List.length
    (Sample.memories_of
       (fst (run (post_context "u1"
                    (Sample.request "dark mode" JS.Undefined (JS.Val 0)))
                 Sample.ranked_world))) = 4%nat.
Proof.
  destruct (limit_defaults_to_10 "u1"
              (Sample.request "dark mode" JS.Undefined (JS.Val 0))
              Sample.ranked_world "d"%char "ark mode"
              (Some Sample.ranked_rows) eq_refl eq_refl)
    as (res & Hrun & Hcap & _ & _ & _ & Hall).
  split.
  - exact Hcap.
  - rewrite Hrun. unfold Sample.memories_of. cbn [fst body].
    apply Hall. vm_compute. discriminate.
Defined.

End LimitProps.

(* ================================================================== *)
(** * Determinism of the lexical path                                  *)
(* ================================================================== *)

Module DeterminismProps.
Import Api Spec Context.

(** The scored candidates depend on the world through the clock only. *)
Lemma scored_from_ext (w1 w2 : world) (kws : list string) (rows : list Memory) :
  (forall n, now w1 n = now w2 n) ->
  forall n, scored_from w1 kws n rows = scored_from w2 kws n rows.
Proof.
  intros Hclock. induction rows as [|m ms IH]; intros n; simpl.
  - reflexivity.
  - now rewrite Hclock, IH.
Qed.

(** Two worlds that answer the issued store query alike and read the same
    clock give the same response and the same trace. *)
Lemma post_context_ext (uid : string) (r : ContextRequest) (w1 w2 : world) :
  (forall n, now w1 n = now w2 n) ->
  (forall q, query r = JS.Val q ->
             select w1 (context_query uid r q) = select w2 (context_query uid r q)) ->
  run (post_context uid r) w1 = run (post_context uid r) w2.
Proof.
  intros Hclock Hstore.
  destruct (Runs.missing_cases (query r)) as [Hm | (c & s & Hq)].
  - now rewrite !(Runs.run_post_context_invalid _ _ _ Hm).
  - specialize (Hstore _ Hq).
    destruct (Runs.failed_cases (select w1 (context_query uid r (String c s))))
      as [[data Hsel] | [e Hf]].
    + rewrite (Runs.run_post_context_ok _ _ w1 _ _ _ Hq Hsel).
      rewrite Hstore in Hsel.
      rewrite (Runs.run_post_context_ok _ _ w2 _ _ _ Hq Hsel).
      unfold context_response.
      now rewrite (scored_from_ext w1 w2 _ _ Hclock).
    + rewrite (Runs.run_post_context_failed _ _ w1 _ _ _ Hq Hf).
      rewrite Hstore in Hf.
      now rewrite (Runs.run_post_context_failed _ _ w2 _ _ _ Hq Hf).
Qed.

(** C9: two evaluations of POST /context on the same request, in which
    the store answers the issued query with the same candidates and every
    reading of the clock is the same instant, give the same response
    (keywords, scores, order, crossLLM and count) and issue the same
    call. *)
Theorem lexical_path_deterministic :
  forall (uid : string) (r : ContextRequest) (w1 w2 : world) (t : Z),
    (forall n, now w1 n = t) ->
    (forall n, now w2 n = t) ->
    (forall q, query r = JS.Val q ->
               select w1 (context_query uid r q)
               = select w2 (context_query uid r q)) ->
    run (post_context uid r) w1 = run (post_context uid r) w2.
Proof.
  intros uid r w1 w2 t H1 H2 Hstore.
  apply post_context_ext; [| assumption].
  intros n. now rewrite H1, H2.
Qed.

(** The theorem at work on two worlds that differ outside the lexical
    path. *)
Lemma lexical_path_deterministic_witness :
  run (post_context "u1" Sample.ranked_request) Sample.ranked_world
  = run (post_context "u1" Sample.ranked_request) Sample.other_world.
Proof.
  apply (lexical_path_deterministic "u1" Sample.ranked_request
           Sample.ranked_world Sample.other_world (32 * Sample.day)%Z).
  - intros n. reflexivity.
  - intros n. reflexivity.
  - intros q Hq. reflexivity.
Defined.

End DeterminismProps.

(* ================================================================== *)
(** * Runs of the memories router                                      *)
(* ================================================================== *)

Module MemoriesRuns.
Import Api Spec Memories.

Lemma extractKeyInfo_run (t : string) (w : world) (st : state) :
  extractKeyInfo t w st = (Return (extracted_text w t), after st [EChat t]).
Proof.
  unfold extractKeyInfo, try_catch, await_chat, extracted_text.
  unfold bind at 1. unfold bind at 1. unfold emit at 1.
  destruct (chat w t) as [e | [c |]]; reflexivity.
Qed.

Lemma generateEmbedding_run (t : string) (w : world) (st : state) :
  generateEmbedding t w st =
  (match embed w t with inl e => Throw e | inr v => Return v end,
   after st [EEmbed t]).
Proof.
  unfold generateEmbedding, try_catch, await_embed.
  unfold bind at 1. unfold emit at 1.
  destruct (embed w t) as [e | v]; reflexivity.
Qed.

Section VectorRetrieval.
Variables (uid q : string) (cnt : option Z) (w : world) (st : state).

Lemma match_memories_failed (e : Error) :
  vector_failure w uid q cnt e ->
  match_memories uid q cnt w st = (Throw e, after st (vector_trace w uid q cnt)).
Proof.
  unfold match_memories, vector_trace.
  intros [He | (v & Hv & Hf)]; unfold bind at 1;
    rewrite generateEmbedding_run.
  - now rewrite He.
  - rewrite Hv. unfold await_rpc.
    unfold bind at 1. unfold bind at 1. unfold emit at 1.
    fold (rpc_args uid cnt v).
    rewrite (Runs.settle_failed _ _ _ _ Hf).
    unfold after. simpl. now rewrite <- app_assoc.
Qed.

Lemma match_memories_settled (v : list Q) (data : option (list Memory)) :
  embed w q = inr v ->
  rpc w (rpc_args uid cnt v) = Settled data None ->
  match_memories uid q cnt w st =
  (Return (rows_of data), after st (vector_trace w uid q cnt)).
Proof.
  intros Hv Hr. unfold match_memories, vector_trace.
  unfold bind at 1. rewrite generateEmbedding_run, Hv.
  unfold await_rpc.
  unfold bind at 1. unfold bind at 1. unfold emit at 1.
  fold (rpc_args uid cnt v). rewrite Hr.
  unfold after, ret. simpl. now rewrite <- app_assoc.
Qed.

Lemma vector_cases :
  (exists e, vector_failure w uid q cnt e) \/
  (exists v data, embed w q = inr v /\
                  rpc w (rpc_args uid cnt v) = Settled data None).
Proof.
  unfold vector_failure.
  destruct (embed w q) as [e | v] eqn:He.
  - left. exists e. now left.
  - destruct (Runs.failed_cases (rpc w (rpc_args uid cnt v)))
      as [[data Hd] | [e Hf]].
    + right. now exists v, data.
    + left. exists e. right. now exists v.
Qed.

Lemma vector_trace_no_select (sel : Select) :
  ~ In (ESelect sel) (vector_trace w uid q cnt).
Proof.
  unfold vector_trace. destruct (embed w q); simpl; intuition discriminate.
Qed.

End VectorRetrieval.

Section Handlers.
Variables (uid : string) (w : world).

Lemma run_get_search_failed (c : ascii) (s : string) (lim : param) (e : Error) :
  vector_failure w uid (String c s) (parse_param lim 10) e ->
  run (get_search uid (One (String c s)) lim) w =
  (server_error e "Failed to search memories.",
   vector_trace w uid (String c s) (parse_param lim 10)).
Proof.
  intros Hf. unfold run, get_search, try_catch.
  unfold bind at 1. now rewrite (match_memories_failed _ _ _ _ _ _ Hf).
Qed.

Lemma run_get_context_failed (c : ascii) (s : string) (lim : param) (e : Error) :
  vector_failure w uid (String c s) (parse_param lim 10) e ->
  run (get_context uid (One (String c s)) lim) w =
  (server_error e "Failed to generate context.",
   vector_trace w uid (String c s) (parse_param lim 10)).
Proof.
  intros Hf. unfold run, get_context, try_catch.
  unfold bind at 1. now rewrite (match_memories_failed _ _ _ _ _ _ Hf).
Qed.

Lemma run_post_search_failed (c : ascii) (s : string) (l : option string)
  (e : Error) :
  vector_failure w uid (String c s) (body_count l) e ->
  run (post_search uid {| query := JS.VStr (String c s); limit := l |}) w =
  (server_error e "Failed to search memories.",
   vector_trace w uid (String c s) (body_count l)).
Proof.
  intros Hf. unfold run, post_search, try_catch. cbn [query limit].
  fold (body_count l).
  unfold bind at 1. now rewrite (match_memories_failed _ _ _ _ _ _ Hf).
Qed.

Lemma run_get_context_ok (c : ascii) (s : string) (lim : param)
  (v : list Q) (data : option (list Memory)) :
  embed w (String c s) = inr v ->
  rpc w (rpc_args uid (parse_param lim 10) v) = Settled data None ->
  run (get_context uid (One (String c s)) lim) w =
  ({| status := 200;
      body := TextBody (map Api.text (rows_of data))
                       (List.length (map Api.text (rows_of data))) |},
   vector_trace w uid (String c s) (parse_param lim 10)).
Proof.
  intros Hv Hr. unfold run, get_context, try_catch.
  unfold bind at 1.
  now rewrite (match_memories_settled _ _ _ _ _ _ _ Hv Hr).
Qed.

Lemma run_get_context_invalid (q lim : param) :
  (forall c s, q <> One (String c s)) ->
  run (get_context uid q lim) w =
  (error_response 400 "Bad Request" q_required, []).
Proof.
  intros Hq. unfold run, get_context, try_catch.
  destruct q as [|[|c s]|l]; try reflexivity.
  now destruct (Hq c s).
Qed.

Lemma run_get_context_all_ok (lim off : param) (data : option (list Memory)) :
  select w (all_query uid (parse_param lim 100) (parse_param off 0))
  = Settled data None ->
  run (get_context_all uid lim off) w =
  ({| status := 200;
      body := TextAllBody (map Api.text (rows_of data))
                (List.length (map Api.text (rows_of data)))
                (parse_param lim 100) (parse_param off 0) |},
   [ESelect (all_query uid (parse_param lim 100) (parse_param off 0))]).
Proof.
  intros Hsel. unfold run, get_context_all, try_catch, await_select.
  unfold bind at 1. unfold bind at 1. unfold emit at 1.
  now rewrite Hsel.
Qed.

Lemma run_get_context_all_failed (lim off : param) (e : Error) :
  failed (select w (all_query uid (parse_param lim 100) (parse_param off 0))) e ->
  run (get_context_all uid lim off) w =
  (server_error e "Failed to retrieve all context.",
   [ESelect (all_query uid (parse_param lim 100) (parse_param off 0))]).
Proof.
  intros Hf. unfold run, get_context_all, try_catch, await_select.
  unfold bind at 1. unfold bind at 1. unfold emit at 1.
  now rewrite (Runs.settle_failed _ _ _ _ Hf).
Qed.

Lemma run_post_memories_invalid (r : CreateMemoryRequest) :
  missing (text r) ->
  run (post_memories uid r) w =
  (error_response 400 "Bad Request" "Text is required.", []).
Proof.
  unfold missing, run, post_memories, try_catch.
  destruct (text r) as [| |[|c s]]; simpl; intros H;
    try reflexivity; discriminate.
Qed.

Lemma run_post_memories_embed_failed (r : CreateMemoryRequest) (c : ascii)
  (s : string) (e : Error) :
  text r = JS.Val (String c s) ->
  embed w (extracted_text w (String c s)) = inl e ->
  run (post_memories uid r) w =
  (server_error e "Failed to create memory.",
   [EChat (String c s); EEmbed (extracted_text w (String c s))]).
Proof.
  intros Ht He. unfold run, post_memories, try_catch. rewrite Ht.
  unfold create. unfold bind at 1. rewrite extractKeyInfo_run.
  unfold bind at 1. rewrite generateEmbedding_run, He. reflexivity.
Qed.

Lemma run_post_memories_insert_failed (r : CreateMemoryRequest) (c : ascii)
  (s : string) (v : list Q) (e : Error) :
  text r = JS.Val (String c s) ->
  embed w (extracted_text w (String c s)) = inr v ->
  failed (insert w (row uid r (String c s) (extracted_text w (String c s)) v)) e ->
  run (post_memories uid r) w =
  (server_error e "Failed to create memory.",
   [EChat (String c s); EEmbed (extracted_text w (String c s));
    EInsert (row uid r (String c s) (extracted_text w (String c s)) v)]).
Proof.
  intros Ht He Hf. unfold run, post_memories, try_catch. rewrite Ht.
  unfold create. unfold bind at 1. rewrite extractKeyInfo_run.
  unfold bind at 1. rewrite generateEmbedding_run, He.
  unfold await_insert.
  unfold bind at 1. unfold bind at 1. unfold emit at 1.
  now rewrite (Runs.settle_failed _ _ _ _ Hf).
Qed.

Lemma run_post_memories_created (r : CreateMemoryRequest) (c : ascii)
  (s : string) (v : list Q) (data : option Memory) :
  text r = JS.Val (String c s) ->
  embed w (extracted_text w (String c s)) = inr v ->
  insert w (row uid r (String c s) (extracted_text w (String c s)) v)
  = Settled data None ->
  run (post_memories uid r) w =
  ({| status := 201; body := CreatedBody data |},
   [EChat (String c s); EEmbed (extracted_text w (String c s));
    EInsert (row uid r (String c s) (extracted_text w (String c s)) v)]).
Proof.
  intros Ht He Hi. unfold run, post_memories, try_catch. rewrite Ht.
  unfold create. unfold bind at 1. rewrite extractKeyInfo_run.
  unfold bind at 1. rewrite generateEmbedding_run, He.
  unfold await_insert.
  unfold bind at 1. unfold bind at 1. unfold emit at 1.
  now rewrite Hi.
Qed.

(** A failure of the completion call is not an error of the request: the
    original text is embedded and stored. *)
Lemma extraction_failure_tolerated (t : string) (e : Error) :
  chat w t = inl e -> extracted_text w t = t.
Proof. unfold extracted_text. now intros ->. Qed.

End Handlers.

End MemoriesRuns.

(* ================================================================== *)
(** * Error handling                                                   *)
(* ================================================================== *)

Module ErrorProps.
Import Api Spec.

Lemma server_error_shape (e : Error) (fallback : string) :
  status (server_error e fallback) = 500%nat /\
  body (server_error e fallback)
  = ErrorBody "Internal Server Error" (message_of e fallback) /\
  (forall c s, message e = JS.Val (String c s) ->
               message_of e fallback = String c s) /\
  (missing (message e) -> message_of e fallback = fallback).
Proof.
  unfold message_of, missing. repeat split.
  - intros c s ->. reflexivity.
  - destruct (message e) as [| |[|c s]]; simpl; try reflexivity. discriminate.
Qed.

(** C5: a missing [query] on POST /context and a missing [text] on
    POST /memories are answered with status 400 and an error envelope
    without any external call; a failure of the store call or of the
    embedding call is answered with status 500 and an envelope of the
    same shape whose message is the message of the upstream error (the
    handler's fallback text when the error has no message). *)
Theorem errors_enveloped :
  forall (uid : string) (w : world),
    (forall r, missing (Context.query r) ->
       run (Context.post_context uid r) w =
       ({| status := 400; body := ErrorBody "Bad Request" "Query is required." |},
        [])) /\
    (forall r, missing (Memories.text r) ->
       run (Memories.post_memories uid r) w =
       ({| status := 400; body := ErrorBody "Bad Request" "Text is required." |},
        [])) /\
    (forall r c s e,
       Context.query r = JS.Val (String c s) ->
       failed (select w (context_query uid r (String c s))) e ->
       fst (run (Context.post_context uid r) w) =
       {| status := 500;
          body := ErrorBody "Internal Server Error"
                    (message_of e "Failed to recall context.") |}) /\
    (forall r c s e,
       Memories.text r = JS.Val (String c s) ->
       embed w (extracted_text w (String c s)) = inl e ->
       fst (run (Memories.post_memories uid r) w) =
       {| status := 500;
          body := ErrorBody "Internal Server Error"
                    (message_of e "Failed to create memory.") |}) /\
    (forall r c s v e,
       Memories.text r = JS.Val (String c s) ->
       embed w (extracted_text w (String c s)) = inr v ->
       failed (insert w (Memories.row uid r (String c s)
                           (extracted_text w (String c s)) v)) e ->
       fst (run (Memories.post_memories uid r) w) =
       {| status := 500;
          body := ErrorBody "Internal Server Error"
                    (message_of e "Failed to create memory.") |}) /\
    (forall e fallback c s,
       message e = JS.Val (String c s) -> message_of e fallback = String c s).
Proof.
  intros uid w. repeat split.
  - intros r Hm. now rewrite (Runs.run_post_context_invalid _ _ _ Hm).
  - intros r Hm. now rewrite (MemoriesRuns.run_post_memories_invalid _ _ _ Hm).
  - intros r c s e Hq Hf.
    now rewrite (Runs.run_post_context_failed _ _ _ _ _ _ Hq Hf).
  - intros r c s e Ht He.
    now rewrite (MemoriesRuns.run_post_memories_embed_failed _ _ _ _ _ _ Ht He).
  - intros r c s v e Ht He Hf.
    now rewrite (MemoriesRuns.run_post_memories_insert_failed
                   _ _ _ _ _ _ _ Ht He Hf).
  - intros e fallback c s. apply server_error_shape.
Qed.

(** The theorem at work: an empty query, a store that rejects the
    lexical query and the creation, and an embedding provider that
    rejects the creation. *)
Lemma errors_enveloped_witness :
  run (Context.post_context "u1" (Sample.request "" JS.Undefined JS.Undefined))
      Sample.store_down
  = ({| status := 400; body := ErrorBody "Bad Request" "Query is required." |},
     []) /\
  fst (run (Context.post_context "u1" Sample.ranked_request) Sample.store_down)
  = {| status := 500;
       body := ErrorBody "Internal Server Error" "upstream unavailable" |} /\
  fst (run (Memories.post_memories "u1" (Sample.create_request "We use PostgreSQL"))
           Sample.store_down)
  = {| status := 500;
       body := ErrorBody "Internal Server Error" "upstream unavailable" |} /\
  fst (run (Memories.post_memories "u1" (Sample.create_request "We use PostgreSQL"))
           Sample.embed_down)
  = {| status := 500;
       body := ErrorBody "Internal Server Error" "upstream unavailable" |}.
Proof.
  destruct (errors_enveloped "u1" Sample.store_down)
    as (Hquery & _ & Hstore & _ & Hinsert & _).
  destruct (errors_enveloped "u1" Sample.embed_down)
    as (_ & _ & _ & Hembed & _ & _).
  split; [apply Hquery; reflexivity |].
  split.
  { apply (Hstore Sample.ranked_request "d"%char "ark mode" Sample.oops).
    - reflexivity.
    - left. reflexivity. }
  split.
  { apply (Hinsert (Sample.create_request "We use PostgreSQL")
             "W"%char "e use PostgreSQL" [1 # 2; 1 # 4] Sample.oops).
    - reflexivity.
    - reflexivity.
    - right. exists None. reflexivity. }
  apply (Hembed (Sample.create_request "We use PostgreSQL")
           "W"%char "e use PostgreSQL" Sample.oops); reflexivity.
Defined.

(** C6: in vector mode, when the embedding call fails, or it succeeds and
    the [match_memories] call fails, GET /search, POST /search and
    GET /context answer with the single 500 error envelope of that
    failure; the calls made are the embedding call and at most the remote
    procedure, never a [select] on the store. *)
Theorem vector_failure_rejects_request :
  forall (uid : string) (w : world) (c : ascii) (s : string) (e : Error),
    (forall lim,
       vector_failure w uid (String c s) (Memories.parse_param lim 10) e ->
       run (Memories.get_search uid (Memories.One (String c s)) lim) w =
       (server_error e "Failed to search memories.",
        vector_trace w uid (String c s) (Memories.parse_param lim 10)) /\
       run (Memories.get_context uid (Memories.One (String c s)) lim) w =
       (server_error e "Failed to generate context.",
        vector_trace w uid (String c s) (Memories.parse_param lim 10))) /\
    (forall l,
       vector_failure w uid (String c s) (body_count l) e ->
       run (Memories.post_search uid
              {| Memories.query := JS.VStr (String c s);
                 Memories.limit := l |}) w =
       (server_error e "Failed to search memories.",
        vector_trace w uid (String c s) (body_count l))) /\
    (forall fallback,
       status (server_error e fallback) = 500%nat /\
       body (server_error e fallback)
       = ErrorBody "Internal Server Error" (message_of e fallback)) /\
    (forall cnt sel, ~ In (ESelect sel) (vector_trace w uid (String c s) cnt)).
Proof.
  intros uid w c s e. repeat split.
  - now apply MemoriesRuns.run_get_search_failed.
  - now apply MemoriesRuns.run_get_context_failed.
  - intros l Hf. now apply MemoriesRuns.run_post_search_failed.
  - intros cnt sel. apply MemoriesRuns.vector_trace_no_select.
Qed.

(** The theorem at work: the embedding provider is down for the GET
    endpoints, the remote procedure is down for POST /search. *)
Lemma vector_failure_rejects_request_witness :
  run (Memories.get_search "u1" (Memories.One "dark") Memories.Absent)
      Sample.embed_down
  = ({| status := 500;
        body := ErrorBody "Internal Server Error" "upstream unavailable" |},
     [EEmbed "dark"]) /\
  run (Memories.get_context "u1" (Memories.One "dark") (Memories.One "5"))
      Sample.embed_down
  = ({| status := 500;
        body := ErrorBody "Internal Server Error" "upstream unavailable" |},
     [EEmbed "dark"]) /\
  run (Memories.post_search "u1"
         {| Memories.query := JS.VStr "dark"; Memories.limit := Some "5" |})
      Sample.store_down
  = ({| status := 500;
        body := ErrorBody "Internal Server Error" "upstream unavailable" |},
     [EEmbed "dark";
      ERpc (rpc_args "u1" (Some 5%Z) [1 # 2; 1 # 4])]).
Proof.
  destruct (vector_failure_rejects_request "u1" Sample.embed_down
              "d"%char "ark" Sample.oops) as (Hget & _ & _ & _).
  destruct (vector_failure_rejects_request "u1" Sample.store_down
              "d"%char "ark" Sample.oops) as (_ & Hpost & _ & _).
  split; [apply (Hget Memories.Absent); left; reflexivity |].
  split; [apply (Hget (Memories.One "5")); left; reflexivity |].
  apply (Hpost (Some "5")). right. exists [1 # 2; 1 # 4].
  split; [reflexivity | left; reflexivity].
Defined.

End ErrorProps.

(* ================================================================== *)
(** * Text-only context                                                *)
(* ================================================================== *)

Module TextOnlyProps.
Import Api Spec Memories.

(** C7: a successful GET /context/all response carries, position by
    position, the [text] of the rows that the store returned for the one
    query the handler issued: the column [text] of the owner's rows,
    ordered by [created_at] descending, rows [offset] to
    [offset + limit - 1]; nothing else of a row is in the response.  A
    successful GET /context response likewise carries the [text] of the
    rows that [match_memories] returned, in their order. *)
Theorem text_only_context :
  forall (uid : string) (w : world),
    (forall lim off resp tr,
       run (get_context_all uid lim off) w = (resp, tr) ->
       status resp = 200%nat ->
       let l := parse_param lim 100 in
       let o := parse_param off 0 in
       exists data,
         tr = [ESelect (all_query uid l o)] /\
         select w (all_query uid l o) = Settled data None /\
         body resp = TextAllBody (map Api.text (rows_of data))
                       (List.length (rows_of data)) l o /\
         sel_columns (all_query uid l o) = "text" /\
         sel_eq (all_query uid l o) = [("user_id", uid)] /\
         sel_order (all_query uid l o) = Some ("created_at", false) /\
         sel_range (all_query uid l o)
         = Some (o, JS.num_sub (JS.num_add o l) (Some 1%Z))) /\
    (forall q lim resp tr,
       run (get_context uid q lim) w = (resp, tr) ->
       status resp = 200%nat ->
       exists c s v data,
         q = One (String c s) /\
         embed w (String c s) = inr v /\
         rpc w (rpc_args uid (parse_param lim 10) v) = Settled data None /\
         body resp = TextBody (map Api.text (rows_of data))
                       (List.length (rows_of data))).
Proof.
  intros uid w. split.
  - intros lim off resp tr Hrun Hst l o.
    destruct (Runs.failed_cases (select w (all_query uid l o)))
      as [[data Hsel] | [e Hf]].
    + rewrite (MemoriesRuns.run_get_context_all_ok _ _ _ _ _ Hsel) in Hrun.
      injection Hrun as <- <-. exists data. rewrite length_map.
      repeat split. exact Hsel.
    + rewrite (MemoriesRuns.run_get_context_all_failed _ _ _ _ _ Hf) in Hrun.
      injection Hrun as <- <-. discriminate.
  - intros q lim resp tr Hrun Hst.
    assert (Hq : (exists c s, q = One (String c s)) \/
                 (forall c s, q <> One (String c s))).
    { destruct q as [|[|c s]|l]; try (right; intros; discriminate).
      left. now exists c, s. }
    destruct Hq as [(c & s & ->) | Hq].
    + destruct (MemoriesRuns.vector_cases uid (String c s)
                  (parse_param lim 10) w)
        as [[e Hf] | (v & data & Hv & Hr)].
      * rewrite (MemoriesRuns.run_get_context_failed _ _ _ _ _ _ Hf) in Hrun.
        injection Hrun as <- <-. discriminate.
      * rewrite (MemoriesRuns.run_get_context_ok _ _ _ _ _ _ _ Hv Hr) in Hrun.
        injection Hrun as <- <-. exists c, s, v, data.
        rewrite length_map. now repeat split.
    + rewrite (MemoriesRuns.run_get_context_invalid _ _ _ _ Hq) in Hrun.
      injection Hrun as <- <-. discriminate.
Qed.

(** The theorem at work: rows 0 to 3 of the sample store, and the
    neighbours of the query "dark". *)
Lemma text_only_context_witness :
  body (fst (run (get_context_all "u1" (One "4") Absent) Sample.ranked_world))
  = TextAllBody ["Dark mode preferred"; "We decided to use PostgreSQL";
                 "dark theme notes"; "dark things"] 4 (Some 4%Z) (Some 0%Z) /\
  body (fst (run (get_context "u1" (One "dark") Absent) Sample.ranked_world))
  = TextBody ["Dark mode preferred"; "We decided to use PostgreSQL";
              "dark theme notes"; "dark things"] 4.
Proof.
  destruct (text_only_context "u1" Sample.ranked_world) as [Hall Hnear].
  split.
  - destruct (Hall (One "4") Absent _ _ (surjective_pairing _) eq_refl)
      as (data & _ & Hsel & Hbody & _).
    rewrite Hbody. injection Hsel as <-. reflexivity.
  - destruct (Hnear (One "dark") Absent _ _ (surjective_pairing _) eq_refl)
      as (c & s & v & data & _ & _ & Hr & Hbody).
    rewrite Hbody. injection Hr as <-. reflexivity.
Defined.

End TextOnlyProps.

(* ================================================================== *)
(** * Shape of the keywords                                            *)
(* ================================================================== *)

Module KeywordShape.
Import Api Spec Shape Context.

Lemma map_chars_chars (f : ascii -> ascii) (s : string) :
  chars (JS.map_chars f s) = map f (chars s).
Proof. induction s as [|c s IH]; simpl; [reflexivity | now f_equal]. Qed.

Lemma normalized_chars (s : string) :
  chars (JS.replace_non_word (JS.toLowerCase s)) = map normalize_char (chars s).
Proof.
  unfold JS.replace_non_word, JS.toLowerCase.
  rewrite !map_chars_chars, map_map. reflexivity.
Qed.

(** What is left of a character is white space or a lower-case word
    character. *)
Lemma normalize_char_cases (c : ascii) :
  JS.is_space (normalize_char c) = true \/
  (is_keyword_char (normalize_char c) = true /\
   JS.lower_char (normalize_char c) = normalize_char c).
Proof.
  destruct c as [[] [] [] [] [] [] [] []];
    first [left; reflexivity | right; split; reflexivity].
Qed.

Lemma rev_string_chars (s acc : string) :
  chars (JS.rev_string acc s) = rev (chars s) ++ chars acc.
Proof.
  revert acc. induction s as [|c s IH]; intros acc; simpl; [reflexivity |].
  rewrite IH. simpl. now rewrite <- app_assoc.
Qed.

(** The pieces of a split hold the characters that are not white space,
    and nothing else. *)
Lemma split_ws_from_pieces (P : ascii -> Prop) (s : string) :
  Forall (fun c => JS.is_space c = false -> P c) (chars s) ->
  forall cur in_ws,
    Forall P (chars cur) ->
    Forall (fun piece => Forall P (chars piece))
           (JS.split_ws_from s cur in_ws).
Proof.
  induction s as [|c s IH]; intros Hs cur in_ws Hcur; simpl.
  - constructor; [| constructor].
    rewrite rev_string_chars. simpl. rewrite app_nil_r.
    now apply Forall_rev.
  - inversion Hs as [|? ? Hc Hs']; subst.
    destruct (JS.is_space c) eqn:Hsp.
    + destruct in_ws.
      * now apply IH.
      * constructor.
        -- rewrite rev_string_chars. simpl. rewrite app_nil_r.
           now apply Forall_rev.
        -- apply IH; [assumption | constructor].
    + apply IH; [assumption |]. simpl. constructor; [now apply Hc | assumption].
Qed.

Lemma tokens_shape (s : string) :
  Forall (fun k => Forall (fun c => is_keyword_char c = true /\
                                     JS.lower_char c = c) (chars k))
         (tokens s).
Proof.
  unfold tokens.
  assert (H : Forall (fun k => Forall (fun c => is_keyword_char c = true /\
                                               JS.lower_char c = c) (chars k))
                (JS.split_ws (JS.replace_non_word (JS.toLowerCase s)))).
  { unfold JS.split_ws. apply split_ws_from_pieces; [| constructor].
    rewrite normalized_chars. apply Forall_forall. intros c Hc Hsp.
    apply in_map_iff in Hc. destruct Hc as (c0 & <- & _).
    destruct (normalize_char_cases c0) as [Hs | H]; [congruence | exact H]. }
  rewrite Forall_forall in H |- *. intros k Hk.
  apply filter_In in Hk. now apply H.
Qed.

Lemma lower_fixed (s : string) :
  Forall (fun c => JS.lower_char c = c) (chars s) -> JS.toLowerCase s = s.
Proof.
  induction s as [|c s IH]; simpl; intros H; [reflexivity |].
  inversion H; subst. unfold JS.toLowerCase in *. simpl. f_equal; auto.
Qed.

Lemma keywords_all (P : string -> Prop) :
  (forall s, Forall P (tokens s)) ->
  forall q h, Forall P (keywords q h).
Proof.
  intros HP q h. unfold keywords, historyKeywords.
  destruct h as [| |[|e es]];
    try apply Forall_app; try split;
    apply KeywordProps.Forall_firstn, HP.
Qed.

(** X1: every extracted keyword, from the query or from the history, is
    made of lower-case word characters [a-z0-9_] only, and lower-casing
    it again changes nothing: the case-insensitive match of the scorer
    compares lower case with lower case. *)
Theorem keywords_are_lowercase_words :
  forall (q : string) (h : JS.opt (list string)) (k : string),
    In k (keywords q h) ->
    Forall (fun c => is_keyword_char c = true) (chars k) /\
    JS.toLowerCase k = k.
Proof.
  intros q h k Hk.
  pose proof (keywords_all _ tokens_shape q h) as H.
  rewrite Forall_forall in H. specialize (H k Hk). split.
  - eapply Forall_impl; [| exact H]. now intros c [Hc _].
  - apply lower_fixed. eapply Forall_impl; [| exact H]. now intros c [_ Hc].
Qed.

(** The theorem at work on a keyword of a mixed-case query. *)
Lemma keywords_are_lowercase_words_witness :
  Forall (fun c => is_keyword_char c = true) (chars "postgresql") /\
  JS.toLowerCase "postgresql" = "postgresql".
Proof.
  apply (keywords_are_lowercase_words
           "We MOVED to PostgreSQL!" JS.Undefined "postgresql").
  vm_compute. tauto.
Defined.

End KeywordShape.

(* ================================================================== *)
(** * Keyword matching and the size of scores                          *)
(* ================================================================== *)

Module MatchingProps.
Import Api Spec Shape Context.

Lemma prefix_iff (a b : string) :
  String.prefix a b = true <-> exists post, b = (a ++ post)%string.
Proof.
  revert b. induction a as [|c a IH]; intros b.
  - split; [intros _; now exists b | intros _; now destruct b].
  - destruct b as [|d b]; simpl.
    + split; [discriminate | intros [post H]; discriminate].
    + destruct (Ascii.ascii_dec c d) as [-> | Hne].
      * rewrite IH. split; intros [post H]; exists post.
        -- now rewrite H.
        -- now injection H.
      * split; [discriminate |]. intros [post H]. injection H as H1 H2.
        congruence.
Qed.

Lemma includes_unfold (s sub : string) :
  JS.includes s sub =
  if String.prefix sub s then true
  else match s with
       | EmptyString => false
       | String _ s' => JS.includes s' sub
       end.
Proof. destruct s; reflexivity. Qed.

(** [includes] is the substring test. *)
Lemma includes_iff (s sub : string) :
  JS.includes s sub = true <-> exists pre post, s = (pre ++ sub ++ post)%string.
Proof.
  induction s as [|c s IH]; rewrite includes_unfold;
    destruct (String.prefix sub _) eqn:Hp.
  - apply prefix_iff in Hp. destruct Hp as [post Hp].
    split; [intros _ | reflexivity]. exists "", post. exact Hp.
  - split; [discriminate |]. intros (pre & post & H).
    destruct pre; [| discriminate]. simpl in H.
    assert (String.prefix sub "" = true) by (apply prefix_iff; now exists post).
    congruence.
  - apply prefix_iff in Hp. destruct Hp as [post Hp].
    split; [intros _ | reflexivity]. exists "", post. exact Hp.
  - rewrite IH. split.
    + intros (pre & post & H). exists (String c pre), post. simpl. now rewrite H.
    + intros (pre & post & H). destruct pre as [|d pre].
      * simpl in H.
        assert (String.prefix sub (String c s) = true)
          by (apply prefix_iff; now exists post).
        congruence.
      * simpl in H. injection H as _ H. now exists pre, post.
Qed.

Lemma toLowerCase_app (a b : string) :
  JS.toLowerCase (a ++ b)%string = (JS.toLowerCase a ++ JS.toLowerCase b)%string.
Proof.
  unfold JS.toLowerCase. induction a as [|c a IH]; simpl; [reflexivity |].
  now rewrite IH.
Qed.

Lemma matches_pos_iff (kws : list string) (memoryText : string) :
  (0 < matches kws memoryText)%nat <->
  exists k, In k kws /\ JS.includes memoryText k = true.
Proof.
  unfold matches. split.
  - destruct (filter (JS.includes memoryText) kws) as [|k l] eqn:Hf; simpl; [lia |].
    intros _. exists k. apply filter_In. rewrite Hf. now left.
  - intros (k & Hk). apply filter_In in Hk.
    destruct (filter (JS.includes memoryText) kws); [destruct Hk | simpl; lia].
Qed.

Lemma matches_le_length (kws : list string) (memoryText : string) :
  (matches kws memoryText <= List.length kws)%nat.
Proof. unfold matches. apply filter_length_le. Qed.

Lemma score_eq (kws : list string) (t : Z) (m : Memory) :
  score kws t m
  == 10 * inject_Z (Z.of_nat (matches kws (JS.toLowerCase (text m))))
     + recency_bonus (daysOld t m).
Proof. unfold score. now rewrite ScoreProps.keyword_score_matches. Qed.

Lemma inject_nat_le (a b : nat) :
  (a <= b)%nat -> inject_Z (Z.of_nat a) <= inject_Z (Z.of_nat b).
Proof. intros H. rewrite <- Zle_Qle. lia. Qed.

Lemma bonus_range (t : Z) (m : Memory) :
  (created_at m <= t)%Z ->
  0 <= recency_bonus (daysOld t m) /\ recency_bonus (daysOld t m) <= 5.
Proof.
  intros H. split; [apply ScoreProps.recency_bonus_nonneg |].
  apply ScoreProps.recency_bonus_at_most_5, ScoreProps.daysOld_nonneg, H.
Qed.

(** X3: for a memory created no later than the evaluation instant, the
    relevance score reaches 10 exactly when some entry of the keyword list
    occurs as a substring of the lower-cased text; when none does, the
    score is the recency bonus alone, which is at most 5. *)
Theorem score_reaches_10_iff_keyword_occurs :
  forall (kws : list string) (t : Z) (m : Memory),
    (created_at m <= t)%Z ->
    (10 <= score kws t m <->
     exists k pre post,
       In k kws /\ JS.toLowerCase (text m) = (pre ++ k ++ post)%string) /\
    (~ (exists k pre post,
          In k kws /\ JS.toLowerCase (text m) = (pre ++ k ++ post)%string) ->
     score kws t m == recency_bonus (daysOld t m) /\ score kws t m <= 5).
Proof.
  intros kws t m Hage.
  destruct (bonus_range t m Hage) as [Hlo Hhi].
  pose proof (score_eq kws t m) as Hs.
  pose proof (matches_pos_iff kws (JS.toLowerCase (text m))) as Hpos.
  split; [split |].
  - intros H10.
    destruct (matches kws (JS.toLowerCase (text m))) as [|n] eqn:Hm.
    + change (inject_Z (Z.of_nat 0)) with 0 in Hs. exfalso. lra.
    + destruct Hpos as [Hpos _]. destruct (Hpos ltac:(lia)) as (k & Hk & Hin).
      apply includes_iff in Hin. destruct Hin as (pre & post & Heq).
      now exists k, pre, post.
  - intros (k & pre & post & Hk & Heq).
    assert (Hone : (1 <= matches kws (JS.toLowerCase (text m)))%nat).
    { apply Hpos. exists k. split; [assumption |].
      apply includes_iff. now exists pre, post. }
    apply inject_nat_le in Hone. change (inject_Z (Z.of_nat 1)) with 1 in Hone. lra.
  - intros Hnone.
    destruct (matches kws (JS.toLowerCase (text m))) as [|n] eqn:Hm.
    + change (inject_Z (Z.of_nat 0)) with 0 in Hs. split; lra.
    + exfalso. apply Hnone.
      destruct Hpos as [Hpos _]. destruct (Hpos ltac:(lia)) as (k & Hk & Hin).
      apply includes_iff in Hin. destruct Hin as (pre & post & Heq).
      now exists k, pre, post.
Qed.

(** X4: keyword overlap dominates recency: of two memories created no
    later than their evaluation instants, the one whose text matches more
    entries of the keyword list has the strictly higher score, whatever
    the two ages. *)
Theorem more_matches_outrank :
  forall (kws : list string) (ta tb : Z) (a b : Memory),
    (created_at a <= ta)%Z -> (created_at b <= tb)%Z ->
    (matches kws (JS.toLowerCase (text b))
     < matches kws (JS.toLowerCase (text a)))%nat ->
    score kws tb b < score kws ta a.
Proof.
  intros kws ta tb a b Ha Hb Hm.
  destruct (bonus_range ta a Ha) as [Hla Hha].
  destruct (bonus_range tb b Hb) as [Hlb Hhb].
  pose proof (score_eq kws ta a) as Hsa.
  pose proof (score_eq kws tb b) as Hsb.
  apply inject_nat_le in Hm. rewrite ScoreProps.inject_nat_succ in Hm.
  lra.
Qed.


(** X5: with the keywords extracted from any query and history, the
    score of a memory created no later than the evaluation instant lies
    between 0 and 155 (at most 15 entries at 10 points, plus 5). *)
Theorem score_at_most_155 :
  forall (q : string) (h : JS.opt (list string)) (t : Z) (m : Memory),
    (created_at m <= t)%Z ->
    0 <= score (keywords q h) t m /\ score (keywords q h) t m <= 155.
Proof.
  intros q h t m Hage. split; [apply ScoreProps.score_nonneg |].
  destruct (bonus_range t m Hage) as [_ Hhi].
  pose proof (score_eq (keywords q h) t m) as Hs.
  assert (Hn : (matches (keywords q h) (JS.toLowerCase (text m)) <= 15)%nat).
  { etransitivity; [apply matches_le_length |].
    destruct (KeywordProps.keywords_primary_prefix q h) as (extra & -> & Hx).
    rewrite length_app.
    pose proof (firstn_le_length 10 (tokens q)). lia. }
  apply inject_nat_le in Hn. change (inject_Z (Z.of_nat 15)) with 15 in Hn.
  lra.
Qed.








(** The theorems at work on the sample memories. *)
Lemma score_reaches_10_iff_keyword_occurs_witness :
  10 <= score ["postgresql"] Sample.day Sample.m_postgres /\
  score ["postgresql"] (2 * Sample.day) Sample.m_dark
  == recency_bonus (daysOld (2 * Sample.day) Sample.m_dark).
Proof.
  split.
  - apply (score_reaches_10_iff_keyword_occurs
             ["postgresql"] Sample.day Sample.m_postgres).
    + discriminate.
    + exists "postgresql", "we decided to use ", "".
      split; [now left | reflexivity].
  - apply (score_reaches_10_iff_keyword_occurs
             ["postgresql"] (2 * Sample.day) Sample.m_dark).
    + discriminate.
    + intros (k & pre & post & [<- | []] & Heq).
      assert (H : JS.includes (JS.toLowerCase (text Sample.m_dark)) "postgresql"
                  = true)
        by (apply includes_iff; now exists pre, post).
      vm_compute in H. discriminate.
Defined.

Lemma more_matches_outrank_witness :
  score ["postgresql"; "dark"] (100 * Sample.day) Sample.m_dark
  < score ["postgresql"; "dark"] Sample.day Sample.m_postgres_dark.
Proof.
  apply (more_matches_outrank ["postgresql"; "dark"]
           Sample.day (100 * Sample.day) Sample.m_postgres_dark Sample.m_dark).
  - discriminate.
  - discriminate.
  - vm_compute. repeat constructor.
Defined.

Lemma score_at_most_155_witness :
  0 <= score (keywords "dark mode postgresql" JS.Undefined)
             Sample.day Sample.m_postgres_dark /\
  score (keywords "dark mode postgresql" JS.Undefined)
        Sample.day Sample.m_postgres_dark <= 155.
Proof.
  apply (score_at_most_155 "dark mode postgresql" JS.Undefined
           Sample.day Sample.m_postgres_dark).
  discriminate.
Defined.


End MatchingProps.

(* ================================================================== *)
(** * Conversation history                                             *)
(* ================================================================== *)

Module HistoryProps.
Import Api Spec Shape Context.

Lemma keep_word_empty : keep_word "" = false.
Proof. reflexivity. Qed.

(** Whether a run of white space has begun makes no difference once the
    empty pieces are dropped. *)
Lemma split_started (s : string) :
  filter keep_word (JS.split_ws_from s "" true)
  = filter keep_word (JS.split_ws_from s "" false).
Proof.
  destruct s as [|c s]; simpl; [reflexivity |].
  destruct (JS.is_space c); reflexivity.
Qed.

(** Splitting [a ++ " " ++ b] gives the pieces of [a], then those of [b]. *)
Lemma split_ws_from_join (a b cur : string) (in_ws : bool) :
  (in_ws = true -> cur = "") ->
  filter keep_word (JS.split_ws_from (a ++ String " " b) cur in_ws)
  = filter keep_word (JS.split_ws_from a cur in_ws)
    ++ filter keep_word (JS.split_ws b).
Proof.
  revert cur in_ws. induction a as [|c a IH]; intros cur in_ws Hinv.
  - cbn [append JS.split_ws_from].
    change (JS.is_space " ") with true. cbn iota.
    destruct in_ws.
    + rewrite (Hinv eq_refl). cbn [JS.rev_string filter].
      rewrite keep_word_empty. apply split_started.
    + cbn [filter app].
      destruct (keep_word (JS.rev_string "" cur)); cbn [app];
        unfold JS.split_ws; now rewrite split_started.
  - cbn [append JS.split_ws_from].
    destruct (JS.is_space c).
    + destruct in_ws.
      * now apply IH.
      * cbn [filter]. rewrite IH by reflexivity.
        destruct (keep_word (JS.rev_string "" cur)); reflexivity.
    + apply IH. discriminate.
Qed.

Lemma map_chars_app (f : ascii -> ascii) (a b : string) :
  JS.map_chars f (a ++ b) = (JS.map_chars f a ++ JS.map_chars f b)%string.
Proof. induction a as [|c a IH]; simpl; [reflexivity | now rewrite IH]. Qed.

(** The tokens of two texts joined by a space are those of the first
    followed by those of the second. *)
Lemma tokens_join2 (a b : string) :
  tokens (a ++ String " " b) = tokens a ++ tokens b.
Proof.
  unfold tokens, JS.toLowerCase, JS.replace_non_word.
  rewrite !map_chars_app. cbn [JS.map_chars].
  change (JS.lower_char " ") with " "%char.
  change (if JS.is_word " " || JS.is_space " " then " "%char else " "%char)
    with " "%char.
  unfold JS.split_ws at 1. rewrite split_ws_from_join by discriminate.
  reflexivity.
Qed.

Lemma tokens_join (l : list string) :
  tokens (JS.join " " l) = flat_map tokens l.
Proof.
  induction l as [|a l IH]; [reflexivity |].
  destruct l as [|b l].
  - simpl. now rewrite app_nil_r.
  - change (JS.join " " (a :: b :: l))
      with (a ++ String " " (JS.join " " (b :: l)))%string.
    rewrite tokens_join2, IH. reflexivity.
Qed.

Lemma slice_last_app {A} (n : nat) (older recent : list A) :
  List.length recent = n -> JS.slice_last n (older ++ recent) = recent.
Proof.
  intros <-. unfold JS.slice_last. rewrite length_app.
  replace (List.length older + List.length recent - List.length recent)%nat
    with (List.length older + 0)%nat by lia.
  rewrite skipn_app, Nat.add_0_r, skipn_all.
  replace (List.length older - List.length older)%nat with 0%nat by lia.
  reflexivity.
Qed.

Lemma slice_last_short {A} (n : nat) (l : list A) :
  (List.length l <= n)%nat -> JS.slice_last n l = l.
Proof.
  intros H. unfold JS.slice_last.
  replace (List.length l - n)%nat with 0%nat by lia. reflexivity.
Qed.

(** X2: the history contributes the tokens of its last three entries
    only, entry by entry in their order and cut to five; older entries
    never reach the keyword list, and a history of at most three entries
    contributes the tokens of all of them (none when it is empty). *)
Theorem history_contributes_last_three :
  forall (q : string) (older : list string) (e1 e2 e3 : string)
         (short : list string),
    keywords q (JS.Val (older ++ [e1; e2; e3]))
    = firstn 10 (tokens q)
      ++ firstn 5 (tokens e1 ++ tokens e2 ++ tokens e3) /\
    ((List.length short <= 3)%nat ->
     keywords q (JS.Val short)
     = firstn 10 (tokens q) ++ firstn 5 (flat_map tokens short)).
Proof.
  intros q older e1 e2 e3 short. split.
  - assert (H : recentContext (older ++ [e1; e2; e3]) = JS.join " " [e1; e2; e3]).
    { unfold recentContext. now rewrite slice_last_app. }
    unfold keywords.
    destruct (older ++ [e1; e2; e3]) as [|x xs] eqn:Hl.
    + destruct older; discriminate.
    + unfold historyKeywords. rewrite H, tokens_join. simpl.
      now rewrite app_nil_r.
  - intros Hshort. unfold keywords. destruct short as [|x xs].
    + simpl. now rewrite app_nil_r.
    + unfold historyKeywords, recentContext.
      now rewrite slice_last_short, tokens_join.
Qed.


(** The theorem at work on a history of two entries. *)
Lemma history_contributes_last_three_witness :
  keywords "dark mode" (JS.Val ["Use PostgreSQL!"; "the theme, please"])
  = ["dark"; "mode"; "use"; "postgresql"; "theme"; "please"].
Proof.
  rewrite (proj2 (history_contributes_last_three
                    "dark mode" [] "" "" ""
                    ["Use PostgreSQL!"; "the theme, please"])).
  - reflexivity.
  - repeat constructor.
Defined.

End HistoryProps.

(* ================================================================== *)
(** * What a context response holds                                    *)
(* ================================================================== *)

Module ResponseProps.
Import Api Spec Shape Context.







End ResponseProps.

(* ================================================================== *)
(** * Vector search and the owner of every call                        *)
(* ================================================================== *)

Module VectorProps.
Import Api Spec Shape Memories.

Section Handlers.
Variables (uid : string) (w : world).

Lemma run_get_search_ok (c : ascii) (s : string) (lim : param)
  (v : list Q) (data : option (list Memory)) :
  embed w (String c s) = inr v ->
  rpc w (rpc_args uid (parse_param lim 10) v) = Settled data None ->
  run (get_search uid (One (String c s)) lim) w =
  ({| status := 200;
      body := SearchBody (rows_of data) (List.length (rows_of data))
                         (String c s) |},
   vector_trace w uid (String c s) (parse_param lim 10)).
Proof.
  intros Hv Hr. unfold run, get_search, try_catch.
  unfold bind at 1.
  now rewrite (MemoriesRuns.match_memories_settled _ _ _ _ _ _ _ Hv Hr).
Qed.

Lemma run_post_search_ok (c : ascii) (s : string) (l : option string)
  (v : list Q) (data : option (list Memory)) :
  embed w (String c s) = inr v ->
  rpc w (rpc_args uid (body_count l) v) = Settled data None ->
  run (post_search uid {| query := JS.VStr (String c s); limit := l |}) w =
  ({| status := 200;
      body := SearchBody (rows_of data) (List.length (rows_of data))
                         (String c s) |},
   vector_trace w uid (String c s) (body_count l)).
Proof.
  intros Hv Hr. unfold run, post_search, try_catch. cbn [query limit].
  fold (body_count l). unfold bind at 1.
  now rewrite (MemoriesRuns.match_memories_settled _ _ _ _ _ _ _ Hv Hr).
Qed.

Lemma run_get_search_invalid (q lim : param) :
  (forall c s, q <> One (String c s)) ->
  run (get_search uid q lim) w =
  (error_response 400 "Bad Request" q_required, []).
Proof.
  intros Hq. unfold run, get_search, try_catch.
  destruct q as [|[|c s]|l]; try reflexivity.
  now destruct (Hq c s).
Qed.

Lemma run_post_search_invalid (r : SearchRequest) :
  (forall c s, query r <> JS.VStr (String c s)) ->
  run (post_search uid r) w =
  (error_response 400 "Bad Request" "Query field is required.", []).
Proof.
  intros Hq. unfold run, post_search, try_catch.
  destruct (query r) as [| | b | n |[|c s]]; try reflexivity.
  now destruct (Hq c s).
Qed.

Lemma param_cases (q : param) :
  (exists c s, q = One (String c s)) \/ (forall c s, q <> One (String c s)).
Proof.
  destruct q as [|[|c s]|l]; try (right; intros; discriminate).
  left. now exists c, s.
Qed.

Lemma value_cases (v : JS.value) :
  (exists c s, v = JS.VStr (String c s)) \/
  (forall c s, v <> JS.VStr (String c s)).
Proof.
  destruct v as [| | b | n |[|c s]]; try (right; intros; discriminate).
  left. now exists c, s.
Qed.

Lemma vector_trace_scoped (q : string) (cnt : option Z) (e : event) :
  In e (vector_trace w uid q cnt) -> scoped uid e.
Proof.
  unfold vector_trace. destruct (embed w q); simpl;
    intros [<- | H]; simpl; try tauto.
  destruct H as [<- | []]. reflexivity.
Qed.

Lemma get_search_trace (q lim : param) :
  snd (run (get_search uid q lim) w) = [] \/
  exists s cnt, snd (run (get_search uid q lim) w) = vector_trace w uid s cnt.
Proof.
  destruct (param_cases q) as [(c & s & ->) | Hq].
  - right. exists (String c s), (parse_param lim 10).
    destruct (MemoriesRuns.vector_cases uid (String c s) (parse_param lim 10) w)
      as [[e Hf] | (v & data & Hv & Hr)].
    + now rewrite (MemoriesRuns.run_get_search_failed _ _ _ _ _ _ Hf).
    + now rewrite (run_get_search_ok _ _ _ _ _ Hv Hr).
  - left. now rewrite (run_get_search_invalid _ _ Hq).
Qed.

Lemma get_context_trace (q lim : param) :
  snd (run (get_context uid q lim) w) = [] \/
  exists s cnt, snd (run (get_context uid q lim) w) = vector_trace w uid s cnt.
Proof.
  destruct (param_cases q) as [(c & s & ->) | Hq].
  - right. exists (String c s), (parse_param lim 10).
    destruct (MemoriesRuns.vector_cases uid (String c s) (parse_param lim 10) w)
      as [[e Hf] | (v & data & Hv & Hr)].
    + now rewrite (MemoriesRuns.run_get_context_failed _ _ _ _ _ _ Hf).
    + now rewrite (MemoriesRuns.run_get_context_ok _ _ _ _ _ _ _ Hv Hr).
  - left. now rewrite (MemoriesRuns.run_get_context_invalid _ _ _ _ Hq).
Qed.

Lemma post_search_trace (r : SearchRequest) :
  snd (run (post_search uid r) w) = [] \/
  exists s cnt, snd (run (post_search uid r) w) = vector_trace w uid s cnt.
Proof.
  destruct r as [q l].
  destruct (value_cases q) as [(c & s & ->) | Hq].
  - right. exists (String c s), (body_count l).
    destruct (MemoriesRuns.vector_cases uid (String c s) (body_count l) w)
      as [[e Hf] | (v & data & Hv & Hr)].
    + now rewrite (MemoriesRuns.run_post_search_failed _ _ _ _ _ _ Hf).
    + now rewrite (run_post_search_ok _ _ _ _ _ Hv Hr).
  - left. now rewrite (run_post_search_invalid {| query := q; limit := l |} Hq).
Qed.

Lemma post_memories_trace (r : CreateMemoryRequest) :
  snd (run (post_memories uid r) w) = [] \/
  exists t x,
    snd (run (post_memories uid r) w) = [EChat t; EEmbed x] \/
    exists v, snd (run (post_memories uid r) w)
              = [EChat t; EEmbed x; EInsert (row uid r t x v)].
Proof.
  destruct (Runs.missing_cases (text r)) as [Hm | (c & s & Ht)].
  - left. now rewrite (MemoriesRuns.run_post_memories_invalid _ _ _ Hm).
  - right. exists (String c s), (extracted_text w (String c s)).
    destruct (embed w (extracted_text w (String c s))) as [e | v] eqn:He.
    + left. now rewrite (MemoriesRuns.run_post_memories_embed_failed
                           _ _ _ _ _ _ Ht He).
    + right. exists v.
      destruct (Runs.failed_cases
                  (insert w (row uid r (String c s)
                               (extracted_text w (String c s)) v)))
        as [[data Hi] | [e Hf]].
      * now rewrite (MemoriesRuns.run_post_memories_created
                       _ _ _ _ _ _ _ Ht He Hi).
      * now rewrite (MemoriesRuns.run_post_memories_insert_failed
                       _ _ _ _ _ _ _ Ht He Hf).
Qed.

Lemma post_context_trace (r : Context.ContextRequest) :
  snd (run (Context.post_context uid r) w) = [] \/
  exists q, snd (run (Context.post_context uid r) w)
            = [ESelect (context_query uid r q)].
Proof.
  destruct (Runs.missing_cases (Context.query r)) as [Hm | (c & s & Hq)].
  - left. now rewrite (Runs.run_post_context_invalid _ _ _ Hm).
  - right. exists (String c s).
    destruct (Runs.failed_cases (select w (context_query uid r (String c s))))
      as [[data Hsel] | [e Hf]].
    + now rewrite (Runs.run_post_context_ok _ _ _ _ _ _ Hq Hsel).
    + now rewrite (Runs.run_post_context_failed _ _ _ _ _ _ Hq Hf).
Qed.

Lemma get_context_all_trace (lim off : param) :
  snd (run (get_context_all uid lim off) w)
  = [ESelect (all_query uid (parse_param lim 100) (parse_param off 0))].
Proof.
  destruct (Runs.failed_cases
              (select w (all_query uid (parse_param lim 100) (parse_param off 0))))
    as [[data Hsel] | [e Hf]].
  - now rewrite (MemoriesRuns.run_get_context_all_ok _ _ _ _ _ Hsel).
  - now rewrite (MemoriesRuns.run_get_context_all_failed _ _ _ _ _ Hf).
Qed.

End Handlers.

(** X8: every store call of the context and memories handlers carries
    the owner: each [select] filters on [user_id] with the caller's id,
    the inserted row has the caller's id as [user_id], and the remote
    procedure is given it as [filter_user_id]; no handler reads or writes
    rows without that scope. *)
Theorem store_calls_carry_the_owner :
  forall (uid : string) (w : world) (e : event),
    (forall r, In e (snd (run (Context.post_context uid r) w)) -> scoped uid e) /\
    (forall r, In e (snd (run (post_memories uid r) w)) -> scoped uid e) /\
    (forall q lim, In e (snd (run (get_search uid q lim) w)) -> scoped uid e) /\
    (forall r, In e (snd (run (post_search uid r) w)) -> scoped uid e) /\
    (forall q lim, In e (snd (run (get_context uid q lim) w)) -> scoped uid e) /\
    (forall lim off,
        In e (snd (run (get_context_all uid lim off) w)) -> scoped uid e).
Proof.
  intros uid w e. repeat split.
  - intros r. destruct (post_context_trace uid w r) as [-> | [q ->]];
      simpl; [tauto |]. intros [<- | []]. simpl. now left.
  - intros r. destruct (post_memories_trace uid w r)
      as [-> | (t & x & [-> | [v ->]])]; simpl; intuition (subst; simpl; auto).
  - intros q lim. destruct (get_search_trace uid w q lim) as [-> | (s & cnt & ->)];
      [simpl; tauto | apply vector_trace_scoped].
  - intros r. destruct (post_search_trace uid w r) as [-> | (s & cnt & ->)];
      [simpl; tauto | apply vector_trace_scoped].
  - intros q lim. destruct (get_context_trace uid w q lim) as [-> | (s & cnt & ->)];
      [simpl; tauto | apply vector_trace_scoped].
  - intros lim off. rewrite get_context_all_trace. simpl.
    intros [<- | []]. simpl. now left.
Qed.

(** X9: vector search validates before it calls: a [q] or [query] that is
    absent, empty or not a string is answered with status 400 and no
    external call.  When the embedding and the remote procedure succeed,
    the response holds the rows of [match_memories] as returned and in
    their order, their number and the query; the two calls made are the
    embedding of the query and the remote procedure with threshold 0.5
    and the parsed count. *)
Theorem vector_search_returns_neighbours :
  forall (uid : string) (w : world),
    (forall q lim, (forall c s, q <> One (String c s)) ->
       snd (run (get_search uid q lim) w) = [] /\
       status (fst (run (get_search uid q lim) w)) = 400%nat /\
       snd (run (get_context uid q lim) w) = [] /\
       status (fst (run (get_context uid q lim) w)) = 400%nat) /\
    (forall r, (forall c s, query r <> JS.VStr (String c s)) ->
       snd (run (post_search uid r) w) = [] /\
       status (fst (run (post_search uid r) w)) = 400%nat) /\
    (forall c s lim v data,
       embed w (String c s) = inr v ->
       rpc w {| query_embedding := v; match_threshold := 1 # 2;
                match_count := parse_param lim 10;
                filter_user_id := uid |} = Settled data None ->
       run (get_search uid (One (String c s)) lim) w =
       ({| status := 200;
           body := SearchBody (rows_of data) (List.length (rows_of data))
                              (String c s) |},
        [EEmbed (String c s);
         ERpc {| query_embedding := v; match_threshold := 1 # 2;
                 match_count := parse_param lim 10;
                 filter_user_id := uid |}])) /\
    (forall c s l v data,
       embed w (String c s) = inr v ->
       rpc w {| query_embedding := v; match_threshold := 1 # 2;
                match_count := body_count l;
                filter_user_id := uid |} = Settled data None ->
       run (post_search uid {| query := JS.VStr (String c s); limit := l |}) w =
       ({| status := 200;
           body := SearchBody (rows_of data) (List.length (rows_of data))
                              (String c s) |},
        [EEmbed (String c s);
         ERpc {| query_embedding := v; match_threshold := 1 # 2;
                 match_count := body_count l;
                 filter_user_id := uid |}])).
Proof.
  intros uid w. repeat split.
  - now rewrite (run_get_search_invalid _ _ _ _ H).
  - now rewrite (run_get_search_invalid _ _ _ _ H).
  - now rewrite (MemoriesRuns.run_get_context_invalid _ _ _ _ H).
  - now rewrite (MemoriesRuns.run_get_context_invalid _ _ _ _ H).
  - now rewrite (run_post_search_invalid _ _ _ H).
  - now rewrite (run_post_search_invalid _ _ _ H).
  - intros c s lim v data Hv Hr.
    rewrite (run_get_search_ok _ _ _ _ _ _ _ Hv Hr).
    unfold vector_trace. now rewrite Hv.
  - intros c s l v data Hv Hr.
    rewrite (run_post_search_ok _ _ _ _ _ _ _ Hv Hr).
    unfold vector_trace. now rewrite Hv.
Qed.


(** The theorems at work on the sample world. *)
Lemma store_calls_carry_the_owner_witness :
  scoped "u1" (ESelect (context_query "u1" Sample.ranked_request "dark mode")).
Proof.
  apply (proj1 (store_calls_carry_the_owner "u1" Sample.ranked_world _)
           Sample.ranked_request).
  left. reflexivity.
Defined.

Lemma vector_search_returns_neighbours_witness :
  run (get_search "u1" (One "dark") (One "3")) Sample.ranked_world
  = ({| status := 200; body := SearchBody Sample.ranked_rows 4 "dark" |},
     [EEmbed "dark";
      ERpc {| query_embedding := [1 # 2; 1 # 4]; match_threshold := 1 # 2;
              match_count := Some 3%Z; filter_user_id := "u1" |}]).
Proof.
  destruct (vector_search_returns_neighbours "u1" Sample.ranked_world)
    as (_ & _ & Hget & _).
  apply (Hget "d"%char "ark" (One "3") [1 # 2; 1 # 4]
           (Some Sample.ranked_rows)); reflexivity.
Defined.

End VectorProps.

(* ================================================================== *)
(** * Creation of a memory                                             *)
(* ================================================================== *)

Module CreationProps.
Import Api Spec Shape Memories.

Lemma lookup_set_key_same (k v : string) (l : list (string * string)) :
  lookup k (set_key k v l) = Some v.
Proof.
  induction l as [|[k' v'] l IH]; simpl.
  - now rewrite String.eqb_refl.
  - destruct (String.eqb k k') eqn:Hk; simpl.
    + now rewrite String.eqb_refl.
    + now rewrite Hk.
Qed.

Lemma lookup_set_key_other (k k0 v : string) (l : list (string * string)) :
  k0 <> k -> lookup k0 (set_key k v l) = lookup k0 l.
Proof.
  intros Hne. induction l as [|[k' v'] l IH]; simpl.
  - destruct (String.eqb k0 k) eqn:H; [| reflexivity].
    apply String.eqb_eq in H. contradiction.
  - destruct (String.eqb k k') eqn:Hk; simpl.
    + apply String.eqb_eq in Hk. subst k'.
      destruct (String.eqb k0 k) eqn:H; [| reflexivity].
      apply String.eqb_eq in H. contradiction.
    + now rewrite IH.
Qed.

Lemma extracted_text_nonempty (w : world) (c : ascii) (s : string) :
  extracted_text w (String c s) <> "".
Proof.
  unfold extracted_text.
  destruct (chat w (String c s)) as [e | [x |]]; try discriminate.
  destruct (JS.trim x); discriminate.
Qed.

Lemma extracted_text_cases (w : world) (t : string) :
  extracted_text w t = t \/
  exists completion,
    chat w t = inr (Some completion) /\
    extracted_text w t = JS.trim completion /\ JS.trim completion <> "".
Proof.
  unfold extracted_text.
  destruct (chat w t) as [e | [x |]]; try (now left).
  destruct (JS.trim x) eqn:Hx; [now left |].
  right. exists x. rewrite Hx. repeat split. discriminate.
Qed.

Lemma extracted_text_completion (w : world) (t completion : string) :
  chat w t = inr (Some completion) -> JS.trim completion <> "" ->
  extracted_text w t = JS.trim completion.
Proof.
  intros Hc Hne. unfold extracted_text. rewrite Hc.
  destruct (JS.trim completion); [now destruct Hne | reflexivity].
Qed.

Lemma extracted_text_original (w : world) (t : string) :
  (forall completion,
     chat w t = inr (Some completion) -> JS.trim completion = "") ->
  extracted_text w t = t.
Proof.
  intros Hnone. unfold extracted_text.
  destruct (chat w t) as [e | [x |]]; try reflexivity.
  now rewrite (Hnone x eq_refl).
Qed.

(** X10: a memory is created with status 201 only after the completion,
    the embedding and the insert were called in that order; the stored
    text is never empty: it is the trimmed completion whenever the
    completion call returns a text that is not blank, and the original
    text in every other case, a failed call, a missing completion or a
    blank one; the embedding stored is that of the stored text;
    [metadata.original_text] is the original text and
    [metadata.extracted] is true even when the caller supplied these
    keys, and every other key of the caller's metadata is kept. *)
Theorem created_memory_keeps_original_text :
  forall (uid : string) (w : world) (r : CreateMemoryRequest)
         (resp : Response) (tr : list event),
    run (post_memories uid r) w = (resp, tr) ->
    status resp = 201%nat ->
    exists t x v data stored,
      text r = JS.Val t /\
      tr = [EChat t; EEmbed x; EInsert stored] /\
      embed w x = inr v /\
      insert w stored = Settled data None /\
      body resp = CreatedBody data /\
      x <> "" /\
      (x = t \/
       exists completion,
         chat w t = inr (Some completion) /\ x = JS.trim completion) /\
      (forall completion,
         chat w t = inr (Some completion) -> JS.trim completion <> "" ->
         x = JS.trim completion) /\
      ((forall completion,
          chat w t = inr (Some completion) -> JS.trim completion = "") ->
       x = t) /\
      new_user_id stored = uid /\
      new_text stored = x /\
      new_embedding stored = v /\
      new_source stored = JS.string_or (source r) "api" /\
      new_project_id stored = JS.string_or (project_id r) "default" /\
      lookup "original_text" (new_metadata stored) = Some t /\
      lookup "extracted" (new_metadata stored) = Some "true" /\
      (forall k, k <> "original_text" -> k <> "extracted" ->
         lookup k (new_metadata stored) = lookup k (or_nil (metadata r))).
Proof.
  intros uid w r resp tr Hrun Hst.
  destruct (Runs.missing_cases (text r)) as [Hm | (c & s & Ht)].
  { rewrite (MemoriesRuns.run_post_memories_invalid _ _ _ Hm) in Hrun.
    injection Hrun as <- <-. discriminate. }
  set (t := String c s) in *. set (x := extracted_text w t).
  destruct (embed w x) as [e | v] eqn:He.
  { rewrite (MemoriesRuns.run_post_memories_embed_failed _ _ _ _ _ _ Ht He)
      in Hrun. injection Hrun as <- <-. discriminate. }
  destruct (Runs.failed_cases (insert w (row uid r t x v)))
    as [[data Hi] | [e Hf]].
  2:{ rewrite (MemoriesRuns.run_post_memories_insert_failed
                 _ _ _ _ _ _ _ Ht He Hf) in Hrun.
      injection Hrun as <- <-. discriminate. }
  rewrite (MemoriesRuns.run_post_memories_created _ _ _ _ _ _ _ Ht He Hi) in Hrun.
  injection Hrun as <- <-.
  exists t, x, v, data, (row uid r t x v).
  split; [exact Ht |].
  split; [reflexivity |].
  split; [exact He |].
  split; [exact Hi |].
  split; [reflexivity |].
  split; [apply extracted_text_nonempty |].
  split.
  { destruct (extracted_text_cases w t) as [H | (cpl & Hc & Hx & _)];
      [now left | right; now exists cpl]. }
  split; [intros cpl Hc Hne; now apply extracted_text_completion |].
  split; [apply extracted_text_original |].
  repeat split; try reflexivity.
  - cbn [row new_metadata].
    rewrite lookup_set_key_other by discriminate.
    apply lookup_set_key_same.
  - cbn [row new_metadata]. apply lookup_set_key_same.
  - intros k H1 H2. cbn [row new_metadata].
    rewrite !lookup_set_key_other by assumption. reflexivity.
Qed.

(** The theorem at work: the completion is trimmed and stored, the
    caller's [original_text] is overwritten and its [topic] kept. *)
Lemma created_memory_keeps_original_text_witness :
  exists stored,
    snd (run (post_memories "u1" More.create_with_metadata) More.creating)
    = [EChat "We use PostgreSQL"; EEmbed (JS.trim "  use PostgreSQL  ");
       EInsert stored] /\
    new_text stored = JS.trim "  use PostgreSQL  " /\
    lookup "original_text" (new_metadata stored) = Some "We use PostgreSQL" /\
    lookup "topic" (new_metadata stored) = Some "db".
Proof.
  pose (out := run (post_memories "u1" More.create_with_metadata) More.creating).
  destruct (created_memory_keeps_original_text "u1" More.creating
              More.create_with_metadata (fst out) (snd out)
              (surjective_pairing out) eq_refl)
    as (t & x & v & data & stored & Ht & Htr & _ & _ & _ & _ & _ & Hcompl & _
        & _ & Htext & _ & _ & _ & Horig & _ & Hkeep).
  injection Ht as <-.
  assert (Hx : x = JS.trim "  use PostgreSQL  ").
  { apply Hcompl; [reflexivity | discriminate]. }
  rewrite Hx in Htr, Htext. exists stored. fold out.
  split; [exact Htr |]. split; [exact Htext |]. split; [exact Horig |].
  rewrite Hkeep by discriminate. reflexivity.
Defined.

End CreationProps.

(* ================================================================== *)
(** * Keywords extracted again                                         *)
(* ================================================================== *)

Module IdempotenceProps.
Import Api Spec Shape Context.










End IdempotenceProps.

(* ================================================================== *)
(** * The filter search and the rest of the memories router            *)
(* ================================================================== *)

Module RestProps.
Import Api Spec Rest RestSpec RestCalls.

Ltac step :=
  unfold Eff.run, get_one, delete_one, put_one, post_search, get_list;
  unfold generateEmbedding, await_rows;
  unfold Eff.try_catch, Eff.bind, Eff.call, internal_error, status_500,
    message_of, Eff.ret, Eff.throw;
  cbv beta.

(** X12: POST /context/search returns the rows of one store call as they
    came, unscored and in the order of the store, with their number as
    [count]; a failure of the call is answered with status 500.  The
    query is scoped to the caller, ordered by recency and capped at
    [limit || 50]: the cap is 50 when the limit is absent, [null] or
    zero.  The full-text filter is applied only for a non-empty query and
    the tag filter only for a non-empty array of tags. *)
Theorem filter_search_lists_rows :
  forall (uid : string) (w : world) (r : SearchFilters),
    (forall data, rows w (dbQuery uid r) = Settled data None ->
       Eff.run (post_search uid r) w =
       (inr {| status := 200;
               body := ListBody (Some (rows_of data))
                                (List.length (rows_of data)) |},
        [ERows (dbQuery uid r)])) /\
    (forall e, failed (rows w (dbQuery uid r)) e ->
       Eff.run (post_search uid r) w =
       (inr (status_500 e "Failed to search memories."),
        [ERows (dbQuery uid r)])) /\
    owned uid (dbQuery uid r) /\
    q_order (dbQuery uid r) = Some ("created_at", false) /\
    q_limit (dbQuery uid r) = Some (Some (JS.number_or (limit r) 50)) /\
    (falsy_limit (limit r) -> q_limit (dbQuery uid r) = Some (Some 50)) /\
    (missing (query r) -> q_textSearch (dbQuery uid r) = None) /\
    (forall c s, query r = JS.Val (String c s) ->
       q_textSearch (dbQuery uid r) = Some ("text_search", String c s)) /\
    (tags r = JS.Val [] -> q_contains (dbQuery uid r) = None) /\
    (forall t ts, tags r = JS.Val (t :: ts) ->
       q_contains (dbQuery uid r) = Some ("tags", t :: ts)).
Proof.
  intros uid w r. repeat split.
  - intros data Hr. step. rewrite Hr. now destruct data.
  - intros e [Hr | [d Hr]]; step; now rewrite Hr.
  - unfold owned. simpl. now left.
  - intros Hf. simpl. do 2 f_equal. unfold falsy_limit in Hf.
    destruct (limit r) as [| |q]; simpl in *; try reflexivity.
    apply negb_false_iff in Hf. now rewrite Hf.
  - unfold missing. simpl. now destruct (query r) as [| |[|c s]].
  - intros c s Hq. simpl. now rewrite Hq.
  - intros Ht. simpl. now rewrite Ht.
  - intros t ts Ht. simpl. now rewrite Ht.
Qed.

(** The theorem at work: a search without query, with an empty array of
    tags and the limit 0 lists the four rows of the store, asked for with
    the cap 50 and without a full-text or tag filter. *)
Lemma filter_search_lists_rows_witness :
  Eff.run (post_search "u1" (filters JS.Undefined (JS.Val []) (JS.Val 0)))
          (constant (Settled (Some Sample.ranked_rows) None)
                    (Settled None None) (Settled None None) (inr []))
  = (inr {| status := 200; body := ListBody (Some Sample.ranked_rows) 4 |},
     [ERows (dbQuery "u1" (filters JS.Undefined (JS.Val []) (JS.Val 0)))]) /\
  q_limit (dbQuery "u1" (filters JS.Undefined (JS.Val []) (JS.Val 0)))
  = Some (Some 50) /\
  q_textSearch (dbQuery "u1" (filters JS.Undefined (JS.Val []) (JS.Val 0)))
  = None /\
  q_contains (dbQuery "u1" (filters JS.Undefined (JS.Val []) (JS.Val 0)))
  = None.
Proof.
  destruct (filter_search_lists_rows "u1"
              (constant (Settled (Some Sample.ranked_rows) None)
                        (Settled None None) (Settled None None) (inr []))
              (filters JS.Undefined (JS.Val []) (JS.Val 0)))
    as (Hrun & _ & _ & _ & _ & Hlim & Hq & _ & Ht & _).
  split; [| split; [| split]].
  - apply (Hrun (Some Sample.ranked_rows)). reflexivity.
  - apply Hlim. reflexivity.
  - apply Hq. reflexivity.
  - apply Ht. reflexivity.
Defined.

(** X13: GET /memories passes [data] on as it came, [null] included,
    with [count] its length or 0; a failure of the store call is answered
    with status 500.  The query is scoped to the caller, and is capped
    only when the parameter [limit] is given and not empty: the cap is
    then the integer that [parseInt] reads at its start, and NaN when
    there is none. *)
Theorem list_applies_limit_when_given :
  forall (uid : string) (w : world) (lim src proj : Memories.param),
    (forall data, rows w (list_query uid lim src proj) = Settled data None ->
       Eff.run (get_list uid lim src proj) w =
       (inr {| status := 200; body := ListBody data (length_or_0 data) |},
        [ERows (list_query uid lim src proj)])) /\
    (forall e, failed (rows w (list_query uid lim src proj)) e ->
       Eff.run (get_list uid lim src proj) w =
       (inr (status_500 e "Failed to retrieve memories."),
        [ERows (list_query uid lim src proj)])) /\
    owned uid (list_query uid lim src proj) /\
    (lim = Memories.Absent \/ lim = Memories.One "" ->
     q_limit (list_query uid lim src proj) = None) /\
    (forall c s n, lim = Memories.One (String c s) ->
       JS.parseInt (String c s) = Some n ->
       q_limit (list_query uid lim src proj) = Some (Some (inject_Z n))) /\
    (forall c s, lim = Memories.One (String c s) ->
       JS.parseInt (String c s) = None ->
       q_limit (list_query uid lim src proj) = Some None).
Proof.
  intros uid w lim src proj. repeat split.
  - intros data Hr. step. rewrite Hr. now destruct data.
  - intros e [Hr | [d Hr]]; step; now rewrite Hr.
  - unfold owned. simpl. now left.
  - intros [-> | ->]; reflexivity.
  - intros c s n -> Hp. simpl. now rewrite Hp.
  - intros c s -> Hp. simpl. now rewrite Hp.
Qed.

(** The theorem at work: [limit=5abc] caps the query at 5, [limit=abc]
    caps it at NaN, and an empty [limit] does not cap it. *)
Lemma list_applies_limit_when_given_witness :
  q_limit (list_query "u1" (Memories.One "5abc") Memories.Absent Memories.Absent)
  = Some (Some (inject_Z 5)) /\
  q_limit (list_query "u1" (Memories.One "abc") Memories.Absent Memories.Absent)
  = Some None /\
  q_limit (list_query "u1" (Memories.One "") Memories.Absent Memories.Absent)
  = None.
Proof.
  pose (w := constant (Settled None None) (Settled None None)
                      (Settled None None) (inr [])).
  split; [| split].
  - apply (proj1 (proj2 (proj2 (proj2 (proj2
             (list_applies_limit_when_given
                "u1" w (Memories.One "5abc") Memories.Absent Memories.Absent)))))
             "5"%char "abc" 5%Z); reflexivity.
  - apply (proj2 (proj2 (proj2 (proj2 (proj2
             (list_applies_limit_when_given
                "u1" w (Memories.One "abc") Memories.Absent Memories.Absent)))))
             "a"%char "bc"); reflexivity.
  - apply (proj1 (proj2 (proj2 (proj2
             (list_applies_limit_when_given
                "u1" w (Memories.One "") Memories.Absent Memories.Absent))))).
    now right.
Defined.

(** X14: GET /memories/:id asks the store for the row with this id that
    belongs to the caller.  The row is returned with status 200; a reply
    that carries an error, or no row, is answered with 404 "Memory not
    found." and the error of the store is not shown; status 500 is left
    to a call that rejects. *)
Theorem get_one_answers_404_on_error :
  forall (uid id : string) (w : world),
    (forall m, single w (by_id uid id) = Settled (Some m) None ->
       Eff.run (get_one uid id) w =
       (inr {| status := 200; body := MemoryBody m |},
        [ESingle (by_id uid id)])) /\
    (forall d e, single w (by_id uid id) = Settled d (Some e) ->
       Eff.run (get_one uid id) w =
       (inr {| status := 404; body := ErrorBody "Not Found" "Memory not found." |},
        [ESingle (by_id uid id)])) /\
    (single w (by_id uid id) = Settled None None ->
       Eff.run (get_one uid id) w =
       (inr {| status := 404; body := ErrorBody "Not Found" "Memory not found." |},
        [ESingle (by_id uid id)])) /\
    (forall e, single w (by_id uid id) = Rejected e ->
       Eff.run (get_one uid id) w =
       (inr (status_500 e "Failed to retrieve memory."),
        [ESingle (by_id uid id)])) /\
    q_eq (by_id uid id)
    = [("id", Memories.One id); ("user_id", Memories.One uid)].
Proof.
  intros uid id w. repeat split.
  - intros m Hr. step. now rewrite Hr.
  - intros d e Hr. step. rewrite Hr. now destruct d.
  - intros Hr. step. now rewrite Hr.
  - intros e Hr. step. now rewrite Hr.
Qed.

(** The theorem at work: a store error that comes with a row is answered
    with 404, a rejection with 500 and the message of the error. *)
Lemma get_one_answers_404_on_error_witness :
  Eff.run (get_one "u1" "m1")
          (constant (Settled None None)
                    (Settled (Some Sample.m_dark) (Some Sample.oops))
                    (Settled None None) (inr []))
  = (inr {| status := 404; body := ErrorBody "Not Found" "Memory not found." |},
     [ESingle (by_id "u1" "m1")]) /\
  Eff.run (get_one "u1" "m1")
          (constant (Settled None None) (Rejected Sample.oops)
                    (Settled None None) (inr []))
  = (inr {| status := 500;
            body := ErrorBody "Internal Server Error" "upstream unavailable" |},
     [ESingle (by_id "u1" "m1")]).
Proof.
  split.
  - apply (proj1 (proj2 (get_one_answers_404_on_error "u1" "m1" _))
             (Some Sample.m_dark) Sample.oops).
    reflexivity.
  - apply (proj1 (proj2 (proj2 (proj2
             (get_one_answers_404_on_error "u1" "m1" _)))) Sample.oops).
    reflexivity.
Defined.

(** X15: DELETE /memories/:id issues one delete for the row with this id
    that belongs to the caller and answers every reply without an error
    with status 200 and the id, whether or not a row was deleted; a
    failure is answered with status 500.  No run answers 404. *)
Theorem delete_never_answers_404 :
  forall (uid id : string) (w : world),
    (forall d, delete w (by_id uid id) = Settled d None ->
       Eff.run (delete_one uid id) w =
       (inr {| status := 200;
               body := DeletedBody "Memory deleted successfully." id |},
        [EDelete (by_id uid id)])) /\
    (forall e, failed (delete w (by_id uid id)) e ->
       Eff.run (delete_one uid id) w =
       (inr (status_500 e "Failed to delete memory."),
        [EDelete (by_id uid id)])) /\
    (forall out tr, Eff.run (delete_one uid id) w = (out, tr) ->
       tr = [EDelete (by_id uid id)] /\
       exists resp, out = inr resp /\
                    (status resp = 200%nat \/ status resp = 500%nat)).
Proof.
  intros uid id w. split; [| split].
  - intros d Hr. step. now rewrite Hr.
  - intros e [Hr | [d Hr]]; step; now rewrite Hr.
  - intros out tr. step.
    destruct (delete w (by_id uid id)) as [d [e|]|e]; simpl;
      intros [= <- <-]; (split; [reflexivity |]);
      eexists; (split; [reflexivity |]); simpl; auto.
Qed.

(** The theorem at work: a delete that removed no row is answered with
    status 200. *)
Lemma delete_never_answers_404_witness :
  Eff.run (delete_one "u1" "no-such-id")
          (constant (Settled None None) (Settled None None)
                    (Settled None None) (inr []))
  = (inr {| status := 200;
            body := DeletedBody "Memory deleted successfully." "no-such-id" |},
     [EDelete (by_id "u1" "no-such-id")]).
Proof.
  apply (proj1 (delete_never_answers_404 "u1" "no-such-id" _) None).
  reflexivity.
Defined.

(** X16: PUT /memories/:id computes a new embedding exactly when the body
    has a non-empty text, and from that text.  Without one, the update
    sets neither [text] nor [embedding] and the provider is not called.
    When the provider fails, the store is not called and the request is
    answered with status 500.  Otherwise the update sets the text and its
    embedding together.  The update is sent for the row with this id that
    belongs to the caller; a reply without an error is answered with the
    row, or with 404 when there is none. *)
Theorem update_embeds_only_new_text :
  forall (uid id : string) (w : world) (r : UpdateRequest),
    (truthy_string (new_text r) = None ->
     forall u, u = updates_of r None ->
       up_text u = None /\ up_embedding u = None /\
       ((forall data, update w u (by_id uid id) = Settled data None ->
           Eff.run (put_one uid id r) w
           = (inr (updated data), [EUpdate u (by_id uid id)])) /\
        (forall e, failed (update w u (by_id uid id)) e ->
           Eff.run (put_one uid id r) w
           = (inr (status_500 e "Failed to update memory."),
              [EUpdate u (by_id uid id)])))) /\
    (forall t e,
       truthy_string (new_text r) = Some t -> embed w t = inl e ->
       Eff.run (put_one uid id r) w
       = (inr (status_500 e "Failed to update memory."), [EEmbed t])) /\
    (forall t v u,
       truthy_string (new_text r) = Some t -> embed w t = inr v ->
       u = updates_of r (Some v) ->
       up_text u = Some t /\ up_embedding u = Some v /\
       ((forall data, update w u (by_id uid id) = Settled data None ->
           Eff.run (put_one uid id r) w
           = (inr (updated data), [EEmbed t; EUpdate u (by_id uid id)])) /\
        (forall e, failed (update w u (by_id uid id)) e ->
           Eff.run (put_one uid id r) w
           = (inr (status_500 e "Failed to update memory."),
              [EEmbed t; EUpdate u (by_id uid id)])))).
Proof.
  intros uid id w r. split; [| split].
  - intros Ht u ->. unfold updates_of at 1 2. cbn [up_text up_embedding].
    repeat split; try assumption.
    + intros data Hr. step. rewrite Ht. simpl. rewrite Hr. now destruct data.
    + intros e [Hr | [d Hr]]; step; rewrite Ht; simpl; now rewrite Hr.
  - intros t e Ht He. step. rewrite Ht. simpl. now rewrite He.
  - intros t v u Ht He ->. unfold updates_of at 1 2. cbn [up_text up_embedding].
    repeat split; try assumption.
    + intros data Hr. step. rewrite Ht. simpl. rewrite He. simpl.
      rewrite Hr. now destruct data.
    + intros e [Hr | [d Hr]]; step; rewrite Ht; simpl; rewrite He; simpl;
        now rewrite Hr.
Qed.

(** The theorem at work: when the provider fails on the new text, the
    store is not called; with an empty text the provider is not called
    and a missing row is answered with 404. *)
Lemma update_embeds_only_new_text_witness :
  Eff.run (put_one "u1" "m1" (new_text_only (JS.Val "dark mode, always")))
          (constant (Settled None None) (Settled (Some Sample.m_dark) None)
                    (Settled None None) (inl Sample.oops))
  = (inr {| status := 500;
            body := ErrorBody "Internal Server Error" "upstream unavailable" |},
     [EEmbed "dark mode, always"]) /\
  Eff.run (put_one "u1" "m1" (new_text_only (JS.Val "")))
          (constant (Settled None None) (Settled None None)
                    (Settled None None) (inl Sample.oops))
  = (inr not_found,
     [EUpdate (updates_of (new_text_only (JS.Val "")) None) (by_id "u1" "m1")]).
Proof.
  split.
  - apply (proj1 (proj2 (update_embeds_only_new_text "u1" "m1" _ _))
             "dark mode, always" Sample.oops); reflexivity.
  - destruct (proj1 (update_embeds_only_new_text "u1" "m1"
                       (constant (Settled None None) (Settled None None)
                                 (Settled None None) (inl Sample.oops))
                       (new_text_only (JS.Val "")))
                    eq_refl _ eq_refl) as (_ & _ & Hrun & _).
    apply (Hrun None). reflexivity.
Defined.

Ltac answered :=
  do 2 eexists; split; [reflexivity |];
  cbn [status store_calls app not_found];
  split; [simpl; auto |];
  split; [simpl; lia |];
  split; [repeat (apply Forall_cons || apply Forall_nil);
          unfold owned; simpl; tauto
         | first [discriminate | intros _; reflexivity]].

(** X17: what the five handlers have in common.  Every run ends in a
    response, with status 200, 404 or 500; it makes at most one store
    call, and that call filters on the caller's id; a run without a store
    call is answered with status 500. *)
Theorem handlers_stay_with_the_owner :
  forall (uid : string) (h : H Response) (w : world),
    handler uid h ->
    exists resp tr,
      Eff.run h w = (inr resp, tr) /\
      (status resp = 200%nat \/ status resp = 404%nat \/ status resp = 500%nat) /\
      (List.length (store_calls tr) <= 1)%nat /\
      Forall (owned uid) (store_calls tr) /\
      (store_calls tr = [] -> status resp = 500%nat).
Proof.
  intros uid h w Hh.
  destruct Hh as [r | lim src proj | id | id | id r]; step.
  - destruct (rows w (dbQuery uid r)) as [d [e|]|e]; answered.
  - destruct (rows w (list_query uid lim src proj)) as [d [e|]|e]; answered.
  - destruct (single w (by_id uid id)) as [[d|] [e|]|e]; answered.
  - destruct (delete w (by_id uid id)) as [d [e|]|e]; answered.
  - destruct (truthy_string (new_text r)) as [t|]; cbv beta iota;
      [destruct (embed w t) as [e|v]; cbv beta iota; [answered |] |];
      match goal with
      | |- context [update w ?u ?q] =>
          destruct (update w u q) as [[d|] [e|]|e]
      end; answered.
Qed.

(** The theorem at work on an update. *)
Lemma handlers_stay_with_the_owner_witness :
  exists resp tr,
    Eff.run (put_one "u1" "m1" (new_text_only (JS.Val "dark mode, always")))
            (constant (Settled None None) (Settled (Some Sample.m_dark) None)
                      (Settled None None) (inr [1 # 2; 1 # 4]))
    = (inr resp, tr) /\
    (status resp = 200%nat \/ status resp = 404%nat \/ status resp = 500%nat) /\
    (List.length (store_calls tr) <= 1)%nat /\
    Forall (owned "u1") (store_calls tr) /\
    (store_calls tr = [] -> status resp = 500%nat).
Proof.
  apply (handlers_stay_with_the_owner "u1"). constructor.
Defined.

End RestProps.

(* ================================================================== *)
(** * The authentication middleware                                    *)
(* ================================================================== *)

Module AuthProps.
Import Auth AuthSpec.

Ltac auth_step :=
  unfold authenticateApiKey, authenticate, jwt, api_key_branch;
  unfold Eff.run, Eff.try_catch, Eff.bind, Eff.call, Eff.read, Eff.ret,
    Eff.throw;
  cbv beta.

Lemma bearer_dec (req : Request) : bearer req \/ ~ bearer req.
Proof.
  unfold bearer. destruct (authorization (headers req)) as [h|].
  - destruct (String.prefix "Bearer " h) eqn:Hp.
    + left. now exists h.
    + right. intros (h' & [= <-] & Hp'). congruence.
  - right. intros (h' & Hh & _). discriminate.
Qed.

(** Without a Bearer header the outer [try] is the API key branch. *)
Lemma without_bearer (req : Request) :
  ~ bearer req ->
  authenticate req =
  match presented req with
  | Some k => api_key_branch req k
  | None => Eff.throw authentication_required
  end.
Proof.
  intros Hb. unfold authenticate, presented.
  destruct (authorization (headers req)) as [h|] eqn:Hh.
  - destruct (String.prefix "Bearer " h) eqn:Hp.
    + exfalso. apply Hb. now exists h.
    + now destruct (x_api_key (headers req)) as [[|c s]|].
  - now destruct (x_api_key (headers req)) as [[|c s]|].
Qed.

Section Outcomes.
Variables (w : world) (req : Request).

Section Jwt.
Variable h : string.
Hypothesis Hh : authorization (headers req) = Some h.
Hypothesis Hp : String.prefix "Bearer " h = true.

Lemma jwt_accepted (u : AuthUser) :
  getUser w (drop 7 h) = UserSettled (Some u) None ->
  authenticateApiKey req w = (with_jwt req u, Continue, [EGetUser (drop 7 h)]).
Proof.
  intros Hu. auth_step. rewrite Hh, Hp. cbv beta. now rewrite Hu.
Qed.

Lemma jwt_refused :
  (forall u, getUser w (drop 7 h) <> UserSettled (Some u) None) ->
  authenticateApiKey req w = (req, Fail invalid_token, [EGetUser (drop 7 h)]).
Proof.
  intros Hn. auth_step. rewrite Hh, Hp. cbv beta.
  destruct (getUser w (drop 7 h)) as [[u|] [e|] | e]; try reflexivity.
  now destruct (Hn u).
Qed.
End Jwt.

Hypothesis Hb : ~ bearer req.

Lemma key_absent :
  presented req = None ->
  authenticateApiKey req w = (req, Fail authentication_required, []).
Proof.
  intros Hk. unfold authenticateApiKey. rewrite (without_bearer _ Hb), Hk.
  reflexivity.
Qed.

Section Key.
Variable k : string.
Hypothesis Hk : presented req = Some k.

Ltac key_step :=
  unfold authenticateApiKey; rewrite (without_bearer _ Hb), Hk;
  unfold api_key_branch;
  unfold Eff.run, Eff.try_catch, Eff.bind, Eff.call, Eff.read, Eff.ret,
    Eff.throw;
  cbv beta.

Lemma key_inactive (row : ApiKeyRow) :
  findKey w k = KeySettled (Some row) None -> is_active row = false ->
  authenticateApiKey req w = (req, Fail inactive_key, [EFindKey k]).
Proof. intros Hf Hact. key_step. now rewrite Hf, Hact. Qed.

Lemma key_accepted (row : ApiKeyRow) :
  findKey w k = KeySettled (Some row) None -> is_active row = true ->
  touch w (key_id row) (now w) = Touched ->
  authenticateApiKey req w
  = (with_api_key req row k, Continue, [EFindKey k; ETouch (key_id row) (now w)]).
Proof.
  intros Hf Hact Ht. key_step. rewrite Hf, Hact. cbv beta. now rewrite Ht.
Qed.

Lemma key_update_rejected (row : ApiKeyRow) (e : Foreign) :
  findKey w k = KeySettled (Some row) None -> is_active row = true ->
  touch w (key_id row) (now w) = TouchRejected e ->
  authenticateApiKey req w
  = (req, Fail (rejected_as e), [EFindKey k; ETouch (key_id row) (now w)]).
Proof.
  intros Hf Hact Ht. key_step. rewrite Hf, Hact. cbv beta. rewrite Ht.
  unfold rejected_as. cbv beta iota. now destruct (is_401 (Other e)).
Qed.

Lemma key_unknown :
  (forall row, findKey w k <> KeySettled (Some row) None) ->
  (forall e, findKey w k <> KeyRejected e) ->
  authenticateApiKey req w = (req, Fail invalid_key, [EFindKey k]).
Proof.
  intros Hn Hr. key_step.
  destruct (findKey w k) as [[row|] [e|] | e]; try reflexivity.
  - now destruct (Hn row).
  - now destruct (Hr e).
Qed.

Lemma key_lookup_rejected (e : Foreign) :
  findKey w k = KeyRejected e ->
  authenticateApiKey req w = (req, Fail (rejected_as e), [EFindKey k]).
Proof.
  intros Hf. key_step. rewrite Hf. unfold rejected_as. cbv beta iota.
  now destruct (is_401 (Other e)).
Qed.
End Key.
End Outcomes.

Lemma rejected_as_status (e : Foreign) :
  status_of (rejected_as e) = Some 401%nat \/
  status_of (rejected_as e) = Some 500%nat.
Proof.
  unfold rejected_as, is_401.
  destruct (foreign_statusCode e) as [n|] eqn:Hn; [| now right].
  destruct (Nat.eqb_spec n 401); [| now right].
  left. simpl. now subst.
Qed.

(** X18: a request whose [Authorization] header starts with "Bearer "
    is decided by the token alone.  The only call is [getUser] on the
    text after the prefix; the API key of the request, valid or not, is
    never looked up.  The request goes on as that user when the reply
    holds a user and no error, and is refused as "Invalid or expired
    token" in every other case, a rejected call included. *)
Theorem bearer_token_is_never_backed_by_a_key :
  forall (w : world) (req : Request) (token : string) (key : option string),
    headers req = {| authorization := Some ("Bearer " ++ token)%string;
                     x_api_key := key |} ->
    exists req' nxt,
      authenticateApiKey req w = (req', nxt, [EGetUser token]) /\
      ((exists u, getUser w token = UserSettled (Some u) None /\
                  nxt = Continue /\ req' = with_jwt req u) \/
       ((forall u, getUser w token <> UserSettled (Some u) None) /\
        nxt = Fail invalid_token /\ req' = req)).
Proof.
  intros w req token key Hh.
  assert (Ha : authorization (headers req) = Some ("Bearer " ++ token)%string)
    by now rewrite Hh.
  assert (Hp : String.prefix "Bearer " ("Bearer " ++ token)%string = true)
    by (simpl; now destruct token).
  change token with (drop 7 ("Bearer " ++ token)%string) at 1 2 3.
  destruct (getUser w (drop 7 ("Bearer " ++ token)%string)) as [[u|] [e|] | e] eqn:Hu.
  2: { exists (with_jwt req u), Continue. split.
       - now apply jwt_accepted.
       - left. now exists u. }
  all: exists req, (Fail invalid_token); split;
    [apply jwt_refused; try assumption; intros u'; rewrite Hu; discriminate
    | right; split; [intros u'; discriminate | now split]].
Qed.

(** The theorem at work: a bad token is not rescued by a valid key, and
    the key is not looked up. *)
Lemma bearer_token_is_never_backed_by_a_key_witness :
  exists req' nxt,
    authenticateApiKey (anonymous (Some "Bearer stale") (Some "rb_live")) sample
    = (req', nxt, [EGetUser "stale"]) /\
    ((exists u, getUser sample "stale" = UserSettled (Some u) None /\
                nxt = Continue /\
                req' = with_jwt (anonymous (Some "Bearer stale")
                                           (Some "rb_live")) u) \/
     ((forall u, getUser sample "stale" <> UserSettled (Some u) None) /\
      nxt = Fail invalid_token /\
      req' = anonymous (Some "Bearer stale") (Some "rb_live"))).
Proof.
  apply (bearer_token_is_never_backed_by_a_key
           sample (anonymous (Some "Bearer stale") (Some "rb_live"))
           "stale" (Some "rb_live")).
  reflexivity.
Defined.

(** X19: the outcomes of a request without a Bearer header.  Without a
    non-empty [X-API-Key] it is refused before any call.  A key whose row
    is found is refused when the row is inactive, without an update;
    when it is active, [last_used_at] is set to the current time and the
    request goes on as the owner of the key, unless the update rejects,
    which refuses the request.  A lookup that returns an error or no row
    is refused as "Invalid API key".  A rejected call is refused with
    the error "Failed to validate API key", unless what was thrown has
    itself the status code 401. *)
Theorem api_key_outcomes :
  forall (w : world) (req : Request),
    ~ bearer req ->
    (presented req = None ->
     authenticateApiKey req w = (req, Fail authentication_required, [])) /\
    (forall k, presented req = Some k ->
       (forall row, findKey w k = KeySettled (Some row) None ->
          (is_active row = false ->
           authenticateApiKey req w = (req, Fail inactive_key, [EFindKey k])) /\
          (is_active row = true ->
           touch w (key_id row) (now w) = Touched ->
           authenticateApiKey req w
           = (with_api_key req row k, Continue,
              [EFindKey k; ETouch (key_id row) (now w)])) /\
          (is_active row = true ->
           forall e, touch w (key_id row) (now w) = TouchRejected e ->
           authenticateApiKey req w
           = (req, Fail (rejected_as e),
              [EFindKey k; ETouch (key_id row) (now w)]))) /\
       (forall d e, findKey w k = KeySettled d (Some e) ->
          authenticateApiKey req w = (req, Fail invalid_key, [EFindKey k])) /\
       (findKey w k = KeySettled None None ->
          authenticateApiKey req w = (req, Fail invalid_key, [EFindKey k])) /\
       (forall e, findKey w k = KeyRejected e ->
          authenticateApiKey req w = (req, Fail (rejected_as e), [EFindKey k]) /\
          (foreign_statusCode e <> Some 401%nat ->
           rejected_as e = validation_failed e))).
Proof.
  intros w req Hb. split; [now apply key_absent |].
  intros k Hk. split; [| split; [| split]].
  - intros row Hf. split; [| split].
    + now apply key_inactive.
    + now apply key_accepted.
    + intros Hact e Ht. now apply key_update_rejected.
  - intros d e Hf. apply key_unknown; try assumption;
      intros x; rewrite Hf; discriminate.
  - intros Hf. apply key_unknown; try assumption;
      intros x; rewrite Hf; discriminate.
  - intros e Hf. split; [now apply key_lookup_rejected |].
    intros Hs. unfold rejected_as, is_401.
    destruct (foreign_statusCode e) as [n|]; [| reflexivity].
    destruct (Nat.eqb_spec n 401); [subst; congruence | reflexivity].
Qed.

(** The theorem at work: an inactive key is refused after the lookup,
    and an active key is accepted after the update. *)
Lemma api_key_outcomes_witness :
  authenticateApiKey (anonymous None (Some "rb_old")) sample
  = (anonymous None (Some "rb_old"), Fail inactive_key, [EFindKey "rb_old"]) /\
  authenticateApiKey (anonymous (Some "Basic abc") (Some "rb_live")) sample
  = (with_api_key (anonymous (Some "Basic abc") (Some "rb_live"))
              (key_row true) "rb_live",
     Continue, [EFindKey "rb_live"; ETouch "key-7" 1700000000000]).
Proof.
  split.
  - assert (Hb : ~ bearer (anonymous None (Some "rb_old")))
      by (intros (h & Hh & _); discriminate).
    destruct (api_key_outcomes sample _ Hb) as [_ Hkey].
    destruct (Hkey "rb_old" eq_refl) as [Hrow _].
    destruct (Hrow (key_row false) eq_refl) as [Hinactive _].
    now apply Hinactive.
  - assert (Hb : ~ bearer (anonymous (Some "Basic abc") (Some "rb_live")))
      by (intros (h & [= <-] & Hp); discriminate).
    destruct (api_key_outcomes sample _ Hb) as [_ Hkey].
    destruct (Hkey "rb_live" eq_refl) as [Hrow _].
    destruct (Hrow (key_row true) eq_refl) as (_ & Hactive & _).
    now apply Hactive.
Defined.

(** X20: the middleware fails closed.  Whenever it lets a request go
    on, the headers are unchanged, [userId] is set and is the id of
    [user], and the identity was vouched for by a collaborator: by
    [getUser] for the token, or by an active row of [api_keys] for the
    key.  Whenever it refuses, the request is left as it was and the
    error handed on has status 401 or 500. *)
Theorem authentication_fails_closed :
  forall (w : world) (req req' : Request) (nxt : Next) (tr : list event),
    authenticateApiKey req w = (req', nxt, tr) ->
    (nxt = Continue ->
       headers req' = headers req /\
       (exists uid, userId req' = Some uid /\
                    exists u, user req' = Some u /\ id u = uid) /\
       ((exists h u, authorization (headers req) = Some h /\
                     String.prefix "Bearer " h = true /\
                     getUser w (drop 7 h) = UserSettled (Some u) None /\
                     req' = with_jwt req u) \/
        (exists k row, ~ bearer req /\ presented req = Some k /\
                       findKey w k = KeySettled (Some row) None /\
                       is_active row = true /\
                       req' = with_api_key req row k))) /\
    (forall e, nxt = Fail e ->
       req' = req /\
       (status_of e = Some 401%nat \/ status_of e = Some 500%nat)).
Proof.
  intros w req req' nxt tr Hrun.
  assert (Hfail : forall e,
             (status_of e = Some 401%nat \/ status_of e = Some 500%nat) ->
             (req, Fail e, tr) = (req', nxt, tr) ->
             (nxt = Continue ->
              headers req' = headers req /\
              (exists uid, userId req' = Some uid /\
                           exists u, user req' = Some u /\ id u = uid) /\
              ((exists h u, authorization (headers req) = Some h /\
                            String.prefix "Bearer " h = true /\
                            getUser w (drop 7 h) = UserSettled (Some u) None /\
                            req' = with_jwt req u) \/
               (exists k row, ~ bearer req /\ presented req = Some k /\
                              findKey w k = KeySettled (Some row) None /\
                              is_active row = true /\
                              req' = with_api_key req row k))) /\
             (forall e0, nxt = Fail e0 ->
                req' = req /\
                (status_of e0 = Some 401%nat \/ status_of e0 = Some 500%nat))).
  { intros e He [= <- <-]. split; [discriminate |].
    intros e0 [= <-]. now split. }
  destruct (bearer_dec req) as [(h & Hh & Hp) | Hb].
  - destruct (getUser w (drop 7 h)) as [[u|] [e|] | e] eqn:Hu.
    2: { rewrite (jwt_accepted w req h Hh Hp u Hu) in Hrun.
         injection Hrun as <- <- <-.
         split; [| discriminate]. intros _.
         split; [reflexivity |].
         split; [exists (user_id u); split; [reflexivity |];
                 eexists; split; reflexivity |].
         left. now exists h, u. }
    all: rewrite (jwt_refused w req h Hh Hp) in Hrun
        by (intros u'; rewrite Hu; discriminate);
      injection Hrun as <- <- <-;
      apply (Hfail invalid_token); [now left | reflexivity].
  - destruct (presented req) as [k|] eqn:Hk.
    2: { rewrite (key_absent w req Hb Hk) in Hrun. injection Hrun as <- <- <-.
         apply (Hfail authentication_required); [now left | reflexivity]. }
    destruct (findKey w k) as [[row|] [e|] | e] eqn:Hf.
    2: { destruct (is_active row) eqn:Ha.
         - destruct (touch w (key_id row) (now w)) as [|e] eqn:Ht.
           + rewrite (key_accepted w req Hb k Hk row Hf Ha Ht) in Hrun.
             injection Hrun as <- <- <-.
             split; [| discriminate]. intros _.
             split; [reflexivity |].
             split; [exists (key_user_id row); split; [reflexivity |];
                     eexists; split; reflexivity |].
             right. now exists k, row.
           + rewrite (key_update_rejected w req Hb k Hk row e Hf Ha Ht) in Hrun.
             injection Hrun as <- <- <-.
             apply (Hfail (rejected_as e));
               [apply rejected_as_status | reflexivity].
         - rewrite (key_inactive w req Hb k Hk row Hf Ha) in Hrun.
           injection Hrun as <- <- <-.
           apply (Hfail inactive_key); [now left | reflexivity]. }
    4: { rewrite (key_lookup_rejected w req Hb k Hk e Hf) in Hrun.
         injection Hrun as <- <- <-.
         apply (Hfail (rejected_as e)); [apply rejected_as_status | reflexivity]. }
    all: rewrite (key_unknown w req Hb k Hk) in Hrun
        by (intros x; rewrite Hf; discriminate);
      injection Hrun as <- <- <-;
      apply (Hfail invalid_key); [now left | reflexivity].
Qed.

(** The theorem at work: a lookup that rejects is refused with status
    500, and a request that goes on carries the owner of its key. *)
Lemma authentication_fails_closed_witness :
  (status_of (validation_failed outage) = Some 401%nat \/
   status_of (validation_failed outage) = Some 500%nat) /\
  exists uid,
    userId (with_api_key (anonymous None (Some "rb_live")) (key_row true) "rb_live")
    = Some uid /\
    exists u,
      user (with_api_key (anonymous None (Some "rb_live")) (key_row true) "rb_live")
      = Some u /\ id u = uid.
Proof.
  split.
  - destruct (authentication_fails_closed
                sample (anonymous None (Some "rb_down"))
                (anonymous None (Some "rb_down"))
                (Fail (validation_failed outage)) [EFindKey "rb_down"]
                eq_refl) as [_ Hfail].
    exact (proj2 (Hfail _ eq_refl)).
  - destruct (authentication_fails_closed
                sample (anonymous None (Some "rb_live"))
                (with_api_key (anonymous None (Some "rb_live")) (key_row true)
                          "rb_live")
                Continue [EFindKey "rb_live"; ETouch "key-7" 1700000000000]
                eq_refl) as [Hok _].
    exact (proj1 (proj2 (Hok eq_refl))).
Defined.

End AuthProps.

(* ================================================================== *)
(** * The tools of the MCP server                                      *)
(* ================================================================== *)

Module McpProps.
Import Mcp McpSpec.

Ltac tool_step :=
  unfold callTool, dispatch;
  unfold Eff.run, Eff.bind, Eff.call, Eff.ret, Eff.throw, awaited,
    throw_if_error;
  cbn [String.eqb Ascii.eqb Bool.eqb]; cbv beta.

Ltac effects :=
  unfold Eff.run, Eff.bind, Eff.call, Eff.ret, Eff.throw, awaited,
    throw_if_error; cbv beta.

Ltac listed :=
  split; [intros _; reflexivity
         | intros _; split; [simpl; auto 10 | discriminate]].

Lemma name_differs (a b : string) : a <> b -> String.eqb a b = false.
Proof. intros H. now apply String.eqb_neq. Qed.

(** X21: the tool handler and the list of tools agree.  A call of a
    name that is not among the five listed tools is answered with the
    error "Unknown tool: <name>" and makes no database call; [ping] is
    answered without a database call; no call makes more than one
    database call, and the calls that make one are exactly those of a
    listed tool other than [ping]. *)
Theorem unknown_tool_is_refused :
  forall (name : string) (args : Args) (w : world),
    (~ In name known ->
     callTool name args w = (Failed ("Unknown tool: " ++ name), [])) /\
    callTool "ping" args w = (Pong, []) /\
    (List.length (snd (callTool name args w)) <= 1)%nat /\
    (In name known /\ name <> "ping" <->
     List.length (snd (callTool name args w)) = 1%nat).
Proof.
  intros name args w.
  assert (Hcalls :
            (List.length (snd (callTool name args w)) <= 1)%nat /\
            (In name known /\ name <> "ping" <->
             List.length (snd (callTool name args w)) = 1%nat)).
  { unfold callTool, dispatch, known.
    destruct (String.eqb_spec name "ping") as [-> | Hping].
    { simpl. split; [lia |]. split; [intros [_ H]; now destruct H | discriminate]. }
    destruct (String.eqb_spec name "supabase_health") as [-> | Hhealth].
    { effects. destruct (health w) as [[e|] c|t]; simpl;
        (split; [lia |]); listed. }
    destruct (String.eqb_spec name "putMemory") as [-> | Hput].
    { effects.
      match goal with
      | |- context [upsert w ?r] => destruct (upsert w r) as [d [e|]|t]
      end; simpl;
        (split; [lia |]); listed. }
    destruct (String.eqb_spec name "getMemory") as [-> | Hget].
    { effects. destruct (getOne w (id args)) as [d [e|]|t];
        [simpl; destruct (is_not_found e) | |]; simpl;
        (split; [lia |]); listed. }
    destruct (String.eqb_spec name "listMemories") as [-> | Hlist].
    { effects.
      destruct (recent w (user_id args) (limit_of (limit args)))
        as [d [e|]|t]; simpl;
        (split; [lia |]); listed. }
    simpl. split; [lia |]. split; [| discriminate].
    intros [[H | [H | [H | [H | [H | []]]]]] _]; congruence. }
  split; [| split; [reflexivity | exact Hcalls]].
  intros Hn. unfold known in Hn. simpl in Hn.
  unfold callTool, dispatch.
  rewrite !name_differs by (intros ->; tauto).
  reflexivity.
Qed.

(** The theorem at work on a tool that does not exist. *)
Lemma unknown_tool_is_refused_witness :
  callTool "deleteMemory" no_args empty_db
  = (Failed "Unknown tool: deleteMemory", []).
Proof.
  apply (proj1 (unknown_tool_is_refused "deleteMemory" no_args empty_db)).
  vm_compute. intuition discriminate.
Defined.

(** X22: [getMemory] treats the database error with the code PGRST116,
    no rows found, as a success: the answer is the data of the reply,
    [null] when there is none.  Any other error of the reply is answered
    as a failure with the message of that error, and a rejected call
    with the text of what was thrown. *)
Theorem getMemory_tolerates_not_found :
  forall (args : Args) (w : world),
    (forall d e, getOne w (id args) = Resolved d (Some e) ->
       code e = JS.Val "PGRST116" ->
       callTool "getMemory" args w = (Found d, [EGet (id args)])) /\
    (forall d e, getOne w (id args) = Resolved d (Some e) ->
       code e <> JS.Val "PGRST116" ->
       callTool "getMemory" args w
       = (Failed (match message e with
                  | JS.Undefined => ""
                  | m => to_String m
                  end), [EGet (id args)])) /\
    (forall d, getOne w (id args) = Resolved d None ->
       callTool "getMemory" args w = (Found d, [EGet (id args)])) /\
    (forall t, getOne w (id args) = Rejected t ->
       callTool "getMemory" args w
       = (Failed (thrown_text t), [EGet (id args)])).
Proof.
  intros args w. split; [| split; [| split]].
  - intros d e Hr Hc. tool_step. rewrite Hr. simpl.
    unfold is_not_found. rewrite Hc. reflexivity.
  - intros d e Hr Hc. tool_step. rewrite Hr. simpl.
    assert (Hn : is_not_found e = false).
    { unfold is_not_found. destruct (code e) as [| |c]; try reflexivity.
      apply name_differs. intros ->. now apply Hc. }
    rewrite Hn. now destruct (message e).
  - intros d Hr. tool_step. now rewrite Hr.
  - intros t Hr. tool_step. now rewrite Hr.
Qed.

(** The theorem at work: a memory that does not exist is answered with
    [memory: null], not with an error. *)
Lemma getMemory_tolerates_not_found_witness :
  callTool "getMemory" no_args empty_db = (Found None, [EGet JS.Undefined]).
Proof.
  apply (proj1 (getMemory_tolerates_not_found no_args empty_db) None no_rows);
    reflexivity.
Defined.

(** X23: [putMemory] makes one upsert, of a row with the id and the
    user id of the arguments as they came.  The text is stored as
    [String(text)], so a missing text is stored as the text "undefined"
    and [null] as "null"; the meta is stored as it came, with [null] for
    a missing one.  The answer is a success when the reply has no error,
    and a failure with the message of the error otherwise. *)
Theorem putMemory_stores_text_as_string :
  forall (args : Args) (w : world),
    exists r,
      snd (callTool "putMemory" args w) = [EUpsert r] /\
      row_id r = id args /\ row_user_id r = user_id args /\
      (text args = JS.Undefined -> row_text r = "undefined") /\
      (text args = JS.Null -> row_text r = "null") /\
      (forall s, text args = JS.Val s -> row_text r = s) /\
      (meta args = JS.Undefined -> row_meta r = JS.Null) /\
      (meta args <> JS.Undefined -> row_meta r = meta args) /\
      (forall d, upsert w r = Resolved d None ->
         fst (callTool "putMemory" args w) = Done) /\
      (forall d e, upsert w r = Resolved d (Some e) ->
         fst (callTool "putMemory" args w)
         = Failed (match message e with
                   | JS.Undefined => ""
                   | m => to_String m
                   end)).
Proof.
  intros args w. eexists. split.
  - tool_step.
    match goal with
    | |- context [upsert w ?r] => destruct (upsert w r) as [d [e|]|t]
    end; reflexivity.
  - cbn [row_id row_user_id row_text row_meta].
    repeat split.
    + now intros ->.
    + now intros ->.
    + now intros s ->.
    + now intros ->.
    + intros Hm. destruct (meta args); [now destruct Hm | |]; reflexivity.
    + intros d Hr. tool_step. now rewrite Hr.
    + intros d e Hr. tool_step. rewrite Hr. simpl. now destruct (message e).
Qed.

(** The theorem at work: a call without arguments stores the text
    "undefined". *)
Lemma putMemory_stores_text_as_string_witness :
  exists r,
    snd (callTool "putMemory" no_args empty_db) = [EUpsert r] /\
    row_text r = "undefined" /\ row_meta r = JS.Null /\
    fst (callTool "putMemory" no_args empty_db) = Done.
Proof.
  destruct (putMemory_stores_text_as_string no_args empty_db)
    as (r & Htr & _ & _ & Hundef & _ & _ & Hmeta & _ & Hok & _).
  exists r. split; [exact Htr |].
  split; [now apply Hundef |].
  split; [now apply Hmeta |].
  apply (Hok None). reflexivity.
Defined.

(** X24: [listMemories] makes one query, for the user id of the
    arguments and capped at [Number(limit)] with the default 20 for a
    missing limit only: [null] gives the cap 0.  The answer holds the
    rows of the reply, none when there is no data, and is a failure when
    the reply has an error. *)
Theorem listMemories_limit_defaults_to_20 :
  forall (args : Args) (w : world),
    snd (callTool "listMemories" args w)
    = [EList (user_id args) (limit_of (limit args))] /\
    (limit args = JS.Undefined -> limit_of (limit args) = 20) /\
    (limit args = JS.Null -> limit_of (limit args) = 0) /\
    (forall q, limit args = JS.Val q -> limit_of (limit args) = q) /\
    (forall l, recent w (user_id args) (limit_of (limit args))
               = Resolved (Some l) None ->
       fst (callTool "listMemories" args w) = Items l) /\
    (recent w (user_id args) (limit_of (limit args)) = Resolved None None ->
       fst (callTool "listMemories" args w) = Items []) /\
    (forall d e, recent w (user_id args) (limit_of (limit args))
                 = Resolved d (Some e) ->
       exists m, fst (callTool "listMemories" args w) = Failed m).
Proof.
  intros args w. split.
  - tool_step.
    destruct (recent w (user_id args) (limit_of (limit args))) as [d [e|]|t];
      reflexivity.
  - repeat split.
    + now intros ->.
    + now intros ->.
    + now intros q ->.
    + intros l Hr. tool_step. now rewrite Hr.
    + intros Hr. tool_step. now rewrite Hr.
    + intros d e Hr. tool_step. rewrite Hr. simpl. eexists. reflexivity.
Qed.

(** The theorem at work: without a limit the cap is 20, and a reply
    without data is answered with no items. *)
Lemma listMemories_limit_defaults_to_20_witness :
  limit_of (limit no_args) = 20 /\
  fst (callTool "listMemories" no_args empty_db) = Items [].
Proof.
  destruct (listMemories_limit_defaults_to_20 no_args empty_db)
    as (_ & Hdefault & _ & _ & _ & Hnone & _).
  split; [now apply Hdefault | now apply Hnone].
Defined.

End McpProps.

(* ================================================================== *)
(** * Required environment variables                                   *)
(* ================================================================== *)

Module BootProps.
Import Boot.

Lemma trim_start_no_lead (s : string) : no_lead (JS.trim_start s).
Proof.
  induction s as [|c s IH]; simpl; [exact I |].
  destruct (JS.is_space c) eqn:Hc; [exact IH | exact Hc].
Qed.

Lemma no_lead_fixed (s : string) : no_lead s -> JS.trim_start s = s.
Proof. destruct s as [|c s]; simpl; [reflexivity |]. now intros ->. Qed.

Lemma trim_end_cons (c : ascii) (s : string) :
  JS.trim_end (String c s) =
  match JS.trim_end s with
  | EmptyString => if JS.is_space c then EmptyString else String c EmptyString
  | t => String c t
  end.
Proof. reflexivity. Qed.

Lemma trim_end_fixed (s : string) : JS.trim_end (JS.trim_end s) = JS.trim_end s.
Proof.
  induction s as [|c s IH]; [reflexivity |].
  rewrite trim_end_cons.
  destruct (JS.trim_end s) as [|d t] eqn:Ht.
  - destruct (JS.is_space c) eqn:Hc; [reflexivity |].
    rewrite trim_end_cons. simpl. now rewrite Hc.
  - rewrite trim_end_cons, IH. reflexivity.
Qed.

Lemma trim_end_no_lead (s : string) : no_lead s -> no_lead (JS.trim_end s).
Proof.
  destruct s as [|c s]; [trivial |]. simpl no_lead at 1. intros Hc.
  rewrite trim_end_cons. destruct (JS.trim_end s); [rewrite Hc |]; exact Hc.
Qed.

Lemma trim_end_no_trail (s : string) : no_trail (JS.trim_end s).
Proof.
  induction s as [|c s IH]; [exact I |].
  rewrite trim_end_cons. destruct (JS.trim_end s) as [|d t] eqn:Ht.
  - destruct (JS.is_space c) eqn:Hc; [exact I | exact Hc].
  - exact IH.
Qed.

Lemma trim_end_empty (s : string) : JS.trim_end s = "" <-> blank s = true.
Proof.
  induction s as [|c s IH]; [simpl; tauto |].
  rewrite trim_end_cons. simpl blank. rewrite andb_true_iff, <- IH.
  destruct (JS.trim_end s) as [|d t].
  - destruct (JS.is_space c); split; try tauto; try discriminate.
    intros [H _]. discriminate.
  - split; [discriminate | intros [_ H]; discriminate].
Qed.

Lemma trim_start_blank (s : string) : blank (JS.trim_start s) = blank s.
Proof.
  induction s as [|c s IH]; [reflexivity |]. simpl.
  destruct (JS.is_space c) eqn:Hc; [exact IH |]. simpl. now rewrite Hc.
Qed.

Lemma trim_empty (s : string) : JS.trim s = "" <-> blank s = true.
Proof. unfold JS.trim. now rewrite trim_end_empty, trim_start_blank. Qed.

Lemma trim_fixed (s : string) : JS.trim (JS.trim s) = JS.trim s.
Proof.
  unfold JS.trim.
  rewrite (no_lead_fixed (JS.trim_end (JS.trim_start s))).
  - apply trim_end_fixed.
  - apply trim_end_no_lead, trim_start_no_lead.
Qed.

(** X25: [must] returns a value exactly when the variable is set to
    something other than white space, and then returns it trimmed: the
    result is never empty, has no white space at either end and is left
    unchanged by trimming it again.  In every other case, a variable that
    is unset, empty or blank, it throws "[BOOT] Missing env: <name>". *)
Theorem must_returns_the_trimmed_value :
  forall (env : string -> option string) (name : string),
    (forall r, must env name = inr r ->
       r <> "" /\ JS.trim r = r /\ no_lead r /\ no_trail r /\
       exists v, env name = Some v /\ blank v = false /\ r = JS.trim v) /\
    (forall m, must env name = inl m ->
       m = ("[BOOT] Missing env: " ++ name)%string /\
       (env name = None \/ exists v, env name = Some v /\ blank v = true)) /\
    (forall v, env name = Some v -> blank v = false ->
       must env name = inr (JS.trim v)).
Proof.
  intros env name. unfold must.
  destruct (env name) as [[|c v]|] eqn:He.
  - split; [discriminate |]. split.
    + intros m [= <-]. split; [reflexivity |]. right. now exists "".
    + intros v [= <-]. discriminate.
  - destruct (JS.trim (String c v)) as [|d t] eqn:Ht.
    + pose proof (proj1 (trim_empty _) Ht) as Hb.
      split; [discriminate |]. split.
      * intros m [= <-]. split; [reflexivity |]. right. now exists (String c v).
      * intros v' [= <-] Hb'. congruence.
    + assert (Hb : blank (String c v) = false).
      { destruct (blank (String c v)) eqn:Hb; [| reflexivity].
        apply trim_empty in Hb. congruence. }
      cbn [JS.is_empty]. split; [| split].
      * intros r [= <-]. rewrite <- Ht.
        split; [rewrite Ht; discriminate |].
        split; [apply trim_fixed |].
        split; [apply trim_end_no_lead, trim_start_no_lead |].
        split; [apply trim_end_no_trail |].
        now exists (String c v).
      * discriminate.
      * intros v' [= <-] _. now rewrite Ht.
  - split; [discriminate |]. split.
    + intros m [= <-]. split; [reflexivity |]. now left.
    + discriminate.
Qed.

(** The theorem at work on a value with white space around it. *)
Lemma must_returns_the_trimmed_value_witness :
  must (fun _ => Some "  https://db.example.org ") "SUPABASE_URL"
  = inr (JS.trim "  https://db.example.org ").
Proof.
  apply (proj2 (proj2 (must_returns_the_trimmed_value
                         (fun _ => Some "  https://db.example.org ")
                         "SUPABASE_URL"))
           "  https://db.example.org "); reflexivity.
Defined.

End BootProps.

(* ================================================================== *)
(** * Error codes and error responses                                  *)
(* ================================================================== *)

Module ErrorsProps.
Import Errors.

Lemma produced_cases (e : APIError) :
  produced e ->
  (statusCode e = 401%nat /\
   In (code e) [INVALID_API_KEY; MISSING_API_KEY; UNAUTHORIZED]) \/
  (statusCode e = 400%nat /\ In (code e) [VALIDATION_ERROR; INVALID_TEXT_LENGTH]) \/
  (statusCode e = 429%nat /\ code e = RATE_LIMIT_EXCEEDED) \/
  (statusCode e = 500%nat /\ code e = DATABASE_ERROR) \/
  (statusCode e = 404%nat /\ In (code e) [RESOURCE_NOT_FOUND; ROUTE_NOT_FOUND]) \/
  (statusCode e = 503%nat /\ In (code e) [SERVICE_UNAVAILABLE; CIRCUIT_BREAKER_OPEN]).
Proof. intros []; simpl; tauto. Qed.

(** X26: the errors of the factories and their responses.  The status
    of a factory's error is fixed by its code, lies between 400 and 599,
    and is 401 exactly for the three authentication codes.  The response
    made for such an error carries its code, message and details, the
    fields of [toJSON], with the request id given; it has a [stack] key
    only when [includeStack] is passed as true. *)
Theorem factory_errors_fix_the_status :
  forall (e1 e2 : APIError) (stack : JS.opt string) (rid : option string)
         (includeStack : option bool) (now : string),
    produced e1 -> produced e2 ->
    (code e1 = code e2 -> statusCode e1 = statusCode e2) /\
    (400 <= statusCode e1 < 600)%nat /\
    (statusCode e1 = 401%nat <->
     In (code e1) [INVALID_API_KEY; MISSING_API_KEY; UNAUTHORIZED]) /\
    response_code (createErrorResponse (Api e1 stack) rid includeStack now)
    = json_code (toJSON e1) /\
    response_message (createErrorResponse (Api e1 stack) rid includeStack now)
    = json_message (toJSON e1) /\
    response_details (createErrorResponse (Api e1 stack) rid includeStack now)
    = json_details (toJSON e1) /\
    requestId (createErrorResponse (Api e1 stack) rid includeStack now) = rid /\
    (response_stack (createErrorResponse (Api e1 stack) rid includeStack now)
     <> None <-> includeStack = Some true).
Proof.
  intros e1 e2 stack rid includeStack now H1 H2.
  pose proof (produced_cases _ H1) as C1.
  pose proof (produced_cases _ H2) as C2.
  split; [| split; [| split]].
  - intros Hc. rewrite <- Hc in C2. simpl in C1, C2.
    destruct (code e1); intuition (try congruence; try discriminate).
  - simpl in C1. intuition lia.
  - simpl in C1. split.
    + intros H401. rewrite H401 in C1. simpl.
      intuition (try discriminate; try congruence).
    + intros Hin. simpl in Hin.
      destruct (code e1); intuition (try congruence; try discriminate).
  - repeat split; try reflexivity.
    + destruct includeStack as [[|]|]; simpl; intros H;
        [reflexivity | now destruct H | now destruct H].
    + intros ->. simpl. discriminate.
Qed.

(** The theorem at work on the two errors that the authentication
    middleware hands on. *)
Lemma factory_errors_fix_the_status_witness :
  (code (unauthorized (Some "Invalid API key"))
   = code (unauthorized None) ->
   statusCode (unauthorized (Some "Invalid API key"))
   = statusCode (unauthorized None)) /\
  (400 <= statusCode (databaseError "Failed to validate API key" None) < 600)%nat.
Proof.
  split.
  - apply (factory_errors_fix_the_status
             (unauthorized (Some "Invalid API key")) (unauthorized None)
             JS.Undefined None None "2026-01-01T00:00:00.000Z");
      constructor.
  - apply (factory_errors_fix_the_status
             (databaseError "Failed to validate API key" None)
             circuitBreakerOpen
             JS.Undefined None None "2026-01-01T00:00:00.000Z");
      constructor.
Defined.

End ErrorsProps.

(* ================================================================== *)
(** * Facts about double precision                                     *)
(* ================================================================== *)

Module DoubleFacts.
Import SpecFloat Double DoubleSpec.
Local Open Scope Z_scope.

Lemma digits_size (p : positive) : digits2_pos p = Pos.size p.
Proof. induction p; simpl; congruence. Qed.

Lemma digits_shl (p : positive) (n : nat) :
  Zpos (digits2_pos (shl p n)) = (Zpos (digits2_pos p) + Z.of_nat n)%Z.
Proof.
  induction n as [|n IH]; [simpl; lia |].
  change (shl p (S n)) with (xO (shl p n)). cbn [digits2_pos]. lia.
Qed.

Lemma shl_value (p : positive) (n : nat) :
  Zpos (shl p n) = (Zpos p * 2 ^ Z.of_nat n)%Z.
Proof.
  induction n as [|n IH]; [simpl; lia |].
  change (shl p (S n)) with (xO (shl p n)).
  rewrite Pos2Z.inj_xO, IH, Nat2Z.inj_succ, Z.pow_succ_r by lia. ring.
Qed.

Lemma shl_shl (p : positive) (n k : nat) : shl (shl p n) k = shl p (k + n).
Proof. unfold shl. now rewrite Nat.iter_add. Qed.

Lemma iter_shl (p d : positive) : Pos.iter xO p d = shl p (Pos.to_nat d).
Proof.
  rewrite Pos2Nat.inj_iter. unfold shl.
  induction (Pos.to_nat d) as [|n IH]; simpl; congruence.
Qed.

Lemma iter_pos_nat {A} (f : A -> A) (n : positive) (x : A) :
  iter_pos f n x = Nat.iter (Pos.to_nat n) f x.
Proof.
  revert x. induction n as [n IH | n IH |]; intros x; cbn [iter_pos].
  - rewrite !IH, Pos2Nat.inj_xI.
    replace (S (2 * Pos.to_nat n)) with (Pos.to_nat n + (Pos.to_nat n + 1))%nat by lia.
    rewrite !Nat.iter_add. reflexivity.
  - rewrite !IH, Pos2Nat.inj_xO.
    replace (2 * Pos.to_nat n)%nat with (Pos.to_nat n + Pos.to_nat n)%nat by lia.
    now rewrite Nat.iter_add.
  - reflexivity.
Qed.

Lemma shr_shl (p : positive) (n : nat) :
  Nat.iter n shr_1 {| shr_m := Zpos (shl p n); shr_r := false; shr_s := false |}
  = {| shr_m := Zpos p; shr_r := false; shr_s := false |}.
Proof.
  induction n as [|n IH]; [reflexivity |].
  rewrite Nat.iter_succ_r. change (shl p (S n)) with (xO (shl p n)).
  exact IH.
Qed.

Lemma fexp_small (d : Z) :
  (1 <= d <= 53)%Z -> fexp prec emax d = (d - 53)%Z.
Proof. intros H. unfold fexp, emin, prec, emax. lia. Qed.

Lemma digits_pos (p : positive) : (1 <= Zpos (digits2_pos p))%Z.
Proof. lia. Qed.

(** A mantissa of 53 digits is not shifted. *)
Lemma shr_fexp_canonical (m : positive) (e : Z) :
  Zpos (digits2_pos m) = 53%Z -> (-1074 <= e)%Z ->
  shr_fexp prec emax (Zpos m) e loc_Exact
  = ({| shr_m := Zpos m; shr_r := false; shr_s := false |}, e).
Proof.
  intros Hd He. unfold shr_fexp. cbn [Zdigits2 shr_record_of_loc].
  rewrite Hd. unfold fexp, emin, prec, emax.
  replace (Z.max (53 + e - 53) (3 - 1024 - 53) - e)%Z with 0%Z by lia.
  reflexivity.
Qed.

Lemma binary_round_aux_canonical (s : bool) (m : positive) (e : Z) :
  Zpos (digits2_pos m) = 53%Z -> (-1074 <= e <= 971)%Z ->
  binary_round_aux prec emax s (Zpos m) e loc_Exact = S754_finite s m e.
Proof.
  intros Hd He. unfold binary_round_aux.
  rewrite shr_fexp_canonical by (assumption || lia).
  cbn [shr_m loc_of_shr_record round_nearest_even].
  rewrite shr_fexp_canonical by (assumption || lia).
  cbn [shr_m]. unfold emax, prec.
  destruct (Z.leb_spec e (1024 - 53)); [reflexivity | lia].
Qed.

(** A multiple of a power of two is shifted back exactly. *)
Lemma shr_fexp_shl (p : positive) (k : nat) :
  (Zpos (digits2_pos p) <= 53)%Z ->
  (53 - Zpos (digits2_pos p) <= Z.of_nat k)%Z ->
  shr_fexp prec emax (Zpos (shl p k)) (- Z.of_nat k) loc_Exact
  = ({| shr_m := Zpos (shl p (Z.to_nat (53 - Zpos (digits2_pos p))));
        shr_r := false; shr_s := false |},
     (Zpos (digits2_pos p) - 53)%Z).
Proof.
  intros Hd Hk. unfold shr_fexp. cbn [Zdigits2 shr_record_of_loc].
  rewrite digits_shl.
  replace (Zpos (digits2_pos p) + Z.of_nat k + - Z.of_nat k)%Z
    with (Zpos (digits2_pos p)) by lia.
  rewrite fexp_small by lia.
  set (d := Zpos (digits2_pos p)) in *.
  destruct (d - 53 - - Z.of_nat k)%Z as [|n|n] eqn:Hn; cbn [shr]; try lia.
  - replace (Z.to_nat (53 - d)) with k by lia.
    f_equal. lia.
  - rewrite iter_pos_nat.
    replace k with (Pos.to_nat n + Z.to_nat (53 - d))%nat at 1 by lia.
    rewrite <- shl_shl, shr_shl. f_equal. lia.
Qed.

Lemma binary_round_shl (s : bool) (p : positive) (k : nat) :
  (Zpos (digits2_pos p) <= 53)%Z ->
  binary_round prec emax s (shl p k) (- Z.of_nat k)
  = S754_finite s (shl p (Z.to_nat (53 - Zpos (digits2_pos p))))
                (Zpos (digits2_pos p) - 53).
Proof.
  intros Hd. unfold binary_round. rewrite digits_shl.
  replace (Zpos (digits2_pos p) + Z.of_nat k + - Z.of_nat k)%Z
    with (Zpos (digits2_pos p)) by lia.
  rewrite fexp_small by lia.
  set (d := Zpos (digits2_pos p)) in *.
  assert (Hcanon : Zpos (digits2_pos (shl p (Z.to_nat (53 - d)))) = 53%Z)
    by (rewrite digits_shl; fold d; lia).
  unfold shl_align.
  destruct (d - 53 - - Z.of_nat k)%Z as [|n|n] eqn:Hn.
  - unfold binary_round_aux. rewrite shr_fexp_shl by (fold d; lia). fold d.
    cbn [shr_m loc_of_shr_record round_nearest_even].
    rewrite shr_fexp_canonical by (assumption || lia).
    cbn [shr_m]. unfold emax, prec.
    destruct (Z.leb_spec (d - 53) (1024 - 53)); [reflexivity | lia].
  - unfold binary_round_aux. rewrite shr_fexp_shl by (fold d; lia). fold d.
    cbn [shr_m loc_of_shr_record round_nearest_even].
    rewrite shr_fexp_canonical by (assumption || lia).
    cbn [shr_m]. unfold emax, prec.
    destruct (Z.leb_spec (d - 53) (1024 - 53)); [reflexivity | lia].
  - rewrite iter_shl, shl_shl.
    replace (Pos.to_nat n + k)%nat with (Z.to_nat (53 - d)) by lia.
    apply binary_round_aux_canonical; [assumption | lia].
Qed.

Lemma digits_bound (p : positive) (n : nat) :
  (Zpos p < 2 ^ Z.of_nat n)%Z -> (Zpos (digits2_pos p) <= Z.of_nat n)%Z.
Proof.
  revert n. induction p as [p IH | p IH |]; intros n H;
    (destruct n as [|n]; [simpl in H; lia |]);
    rewrite Nat2Z.inj_succ, Z.pow_succ_r in H by lia; cbn [digits2_pos];
    try (specialize (IH n ltac:(lia))); lia.
Qed.

Lemma small_digits (p : positive) :
  (Zpos p < 2 ^ 53)%Z -> (Zpos (digits2_pos p) <= 53)%Z.
Proof. intros H. now apply (digits_bound p 53). Qed.

(** Any way of writing a small integer as [m * 2 ^ -k] is normalized to
    the same double. *)
Lemma normalize_shl (z : Z) (k : nat) :
  small z ->
  binary_normalize prec emax (z * 2 ^ Z.of_nat k) (- Z.of_nat k) false = canon z.
Proof.
  unfold small. intros Hz. destruct z as [|p|p]; cbn [Z.abs] in Hz.
  - reflexivity.
  - rewrite <- shl_value. cbn [binary_normalize canon].
    apply binary_round_shl, small_digits, Hz.
  - replace (Zneg p * 2 ^ Z.of_nat k)%Z with (Zneg (shl p k))
      by (rewrite <- Pos2Z.opp_pos, shl_value; lia).
    cbn [binary_normalize canon].
    apply binary_round_shl, small_digits, Hz.
Qed.

Lemma of_Z_canon (z : Z) : small z -> of_Z z = canon z.
Proof.
  intros Hz. unfold of_Z.
  rewrite <- (normalize_shl z 0 Hz). f_equal. simpl. lia.
Qed.

Lemma shl_align_fst (m : positive) (e e' : Z) :
  (e' <= e)%Z -> fst (shl_align m e e') = shl m (Z.to_nat (e - e')).
Proof.
  intros H. unfold shl_align.
  destruct (e' - e)%Z as [|d|d] eqn:Hd; cbn [fst]; try lia.
  - replace (Z.to_nat (e - e')) with 0%nat by lia. reflexivity.
  - rewrite iter_shl. f_equal. lia.
Qed.

(** The mantissa of a small integer, aligned at the exponent [- k]. *)
Lemma aligned (s : bool) (p : positive) (k : nat) :
  (Zpos (digits2_pos p) <= 53)%Z ->
  (53 - Zpos (digits2_pos p) <= Z.of_nat k)%Z ->
  cond_Zopp s
    (Zpos (fst (shl_align (shl p (Z.to_nat (53 - Zpos (digits2_pos p))))
                          (Zpos (digits2_pos p) - 53) (- Z.of_nat k))))
  = (cond_Zopp s (Zpos p) * 2 ^ Z.of_nat k)%Z.
Proof.
  intros Hd Hk. rewrite shl_align_fst by lia. rewrite shl_shl, shl_value.
  replace (Z.of_nat (Z.to_nat (Zpos (digits2_pos p) - 53 - - Z.of_nat k)
                     + Z.to_nat (53 - Zpos (digits2_pos p))))
    with (Z.of_nat k) by lia.
  destruct s; cbn [cond_Zopp]; ring.
Qed.

Lemma add_canon (a b : Z) :
  small a -> small b -> small (a + b) ->
  add (canon a) (canon b) = canon (a + b).
Proof.
  intros Ha Hb Hab.
  destruct a as [|pa|pa]; [now destruct b | |];
    (destruct b as [|pb|pb]; [now rewrite Z.add_0_r | |]).
  all: unfold small in Ha, Hb; cbn [Z.abs] in Ha, Hb;
    pose proof (small_digits _ Ha) as Hda;
    pose proof (small_digits _ Hb) as Hdb;
    unfold add; cbn [canon SFadd];
    set (da := Zpos (digits2_pos pa)) in *;
    set (db := Zpos (digits2_pos pb)) in *;
    set (k := Z.to_nat (53 - Z.min da db));
    replace (Z.min (da - 53) (db - 53)) with (- Z.of_nat k)%Z by lia;
    unfold da, db; rewrite !aligned by (fold da; fold db; lia);
    rewrite <- Z.mul_add_distr_r;
    rewrite normalize_shl by exact Hab; reflexivity.
Qed.

Lemma sub_canon (a b : Z) :
  small a -> small b -> small (a - b) ->
  sub (canon a) (canon b) = canon (a - b).
Proof.
  intros Ha Hb Hab.
  destruct a as [|pa|pa]; [now destruct b | |];
    (destruct b as [|pb|pb]; [now rewrite Z.sub_0_r | |]).
  all: unfold small in Ha, Hb; cbn [Z.abs] in Ha, Hb;
    pose proof (small_digits _ Ha) as Hda;
    pose proof (small_digits _ Hb) as Hdb;
    unfold sub; cbn [canon SFsub];
    set (da := Zpos (digits2_pos pa)) in *;
    set (db := Zpos (digits2_pos pb)) in *;
    set (k := Z.to_nat (53 - Z.min da db));
    replace (Z.min (da - 53) (db - 53)) with (- Z.of_nat k)%Z by lia;
    unfold da, db; rewrite !aligned by (fold da; fold db; lia);
    rewrite <- Z.mul_sub_distr_r;
    rewrite normalize_shl by exact Hab; reflexivity.
Qed.

(** Sums and differences of integers are exact as long as everything
    stays below [2 ^ 53]. *)
Lemma add_of_Z (a b : Z) :
  small a -> small b -> small (a + b) -> add (of_Z a) (of_Z b) = of_Z (a + b).
Proof. intros Ha Hb Hab. rewrite !of_Z_canon by assumption. now apply add_canon. Qed.

Lemma sub_of_Z (a b : Z) :
  small a -> small b -> small (a - b) -> sub (of_Z a) (of_Z b) = of_Z (a - b).
Proof. intros Ha Hb Hab. rewrite !of_Z_canon by assumption. now apply sub_canon. Qed.


Lemma small_abs (z : Z) (b : Z) : Z.abs z <= b -> b < 2 ^ 53 -> small z.
Proof. unfold small. lia. Qed.

(** The value of the double of a small integer is that integer. *)
Lemma value_canon (z : Z) : small z -> (value (canon z) == inject_Z z)%Q.
Proof.
  assert (H : forall p : positive,
             Zpos (digits2_pos p) <= 53 ->
             (magnitude (shl p (Z.to_nat (53 - Zpos (digits2_pos p))))
                        (Zpos (digits2_pos p) - 53)
              == inject_Z (Zpos p))%Q).
  { intros p Hd. set (d := Zpos (digits2_pos p)) in *. unfold magnitude.
    destruct (d - 53) as [|k|k] eqn:Hk; try lia.
    - replace (Z.to_nat (53 - d)) with 0%nat by lia. reflexivity.
    - unfold Qeq. cbn [Qnum Qden inject_Z]. rewrite shl_value.
      replace (Z.of_nat (Z.to_nat (53 - d))) with (Zpos k) by lia.
      rewrite Pos2Z.inj_pow. ring. }
  unfold small. intros Hz. destruct z as [|p|p]; cbn [Z.abs] in Hz.
  - reflexivity.
  - cbn [canon value]. apply H, small_digits, Hz.
  - cbn [canon value]. rewrite (H p (small_digits _ Hz)). reflexivity.
Qed.

Lemma value_of_Z (z : Z) : small z -> (value (of_Z z) == inject_Z z)%Q.
Proof. intros Hz. rewrite of_Z_canon by assumption. now apply value_canon. Qed.

Lemma is_finite_of_Z (z : Z) : small z -> is_finite (of_Z z) = true.
Proof.
  intros Hz. rewrite of_Z_canon by assumption. now destruct z.
Qed.

End DoubleFacts.

(* ================================================================== *)
(** * The value of the score                                           *)
(* ================================================================== *)

Module ScoreValues.
Import Api Spec.

Lemma small_nonneg (z : Z) : (0 <= z < 2 ^ 53)%Z -> DoubleSpec.small z.
Proof. unfold DoubleSpec.small. lia. Qed.

Lemma small_time (t : Z) : Double.time_value t -> DoubleSpec.small t.
Proof. unfold Double.time_value, DoubleSpec.small. lia. Qed.

(** The [forEach] adds ten per matching entry, without rounding. *)
Lemma keyword_fold_exact (kws : list string) (memoryText : string) (a : Z) :
  (0 <= a)%Z -> (a + 10 * Z.of_nat (List.length kws) < 2 ^ 53)%Z ->
  fold_left (fun score keyword =>
               if JS.includes memoryText keyword
               then Double.add score (Double.of_Z 10) else score)
            kws (Double.of_Z a)
  = Double.of_Z (a + 10 * Z.of_nat (matches kws memoryText)).
Proof.
  revert a. unfold matches.
  induction kws as [|k ks IH]; intros a Ha Hlen; cbn [fold_left filter].
  - cbn [List.length]. f_equal. lia.
  - cbn [List.length] in Hlen. rewrite Nat2Z.inj_succ in Hlen.
    destruct (JS.includes memoryText k).
    + rewrite DoubleFacts.add_of_Z by (apply small_nonneg; lia).
      rewrite IH by lia. cbn [List.length]. f_equal. lia.
    + now rewrite IH by lia.
Qed.

Lemma keyword_score_exact (kws : list string) (memoryText : string) :
  (10 * Z.of_nat (List.length kws) < 2 ^ 53)%Z ->
  Double.keyword_score kws memoryText
  = Double.of_Z (10 * Z.of_nat (matches kws memoryText)).
Proof.
  intros Hlen. unfold Double.keyword_score.
  now rewrite keyword_fold_exact by lia.
Qed.

Lemma matches_bound (kws : list string) (memoryText : string) :
  (matches kws memoryText <= List.length kws)%nat.
Proof. unfold matches. apply filter_length_le. Qed.

Lemma ms_per_day_exact : Double.ms_per_day = Double.of_Z 86400000.
Proof. vm_compute. reflexivity. Qed.

(** The difference of two time values is exact when it has less than 54
    bits. *)
Lemma daysOld_exact (t : Z) (m : Memory) :
  Double.time_value t -> Double.time_value (created_at m) ->
  DoubleSpec.small (t - created_at m) ->
  Double.daysOld t m
  = Double.div (Double.of_Z (t - created_at m)) (Double.of_Z 86400000).
Proof.
  intros Ht Hc Hd. unfold Double.daysOld.
  rewrite DoubleFacts.sub_of_Z by (assumption || now apply small_time).
  now rewrite ms_per_day_exact.
Qed.

(** C2, as the code computes it.  The keyword part of a score is ten
    times the number of entries of the keyword list (counted with
    multiplicity, the list is not deduplicated) that the lower-cased text
    includes, and this part is exact, the same number as in exact
    arithmetic.  The score is the double nearest to
    the sum of this part and of max(0, 5 - 0.1 * ageInDays) as evaluated
    in double precision, where the difference of the two time values is
    exact and the quotient, the product and the difference from 5 are
    each rounded.  One more matching entry at the same age raises the
    keyword part by exactly 10 and leaves the bonus as it is, so that the
    score becomes the double nearest to the sum of the keyword part plus
    10 and of the bonus.  One matching entry on a memory created exactly
    one day before the evaluation scores 14.9. *)
Theorem score_formula :
  forall (kws : list string) (t : Z) (m : Memory),
    (10 * Z.of_nat (List.length kws) < 2 ^ 53)%Z ->
    Double.keyword_score kws (JS.toLowerCase (text m))
    = Double.of_Z (10 * Z.of_nat (matches kws (JS.toLowerCase (text m)))) /\
    Double.is_finite (Double.keyword_score kws (JS.toLowerCase (text m))) = true /\
    Double.value (Double.keyword_score kws (JS.toLowerCase (text m)))
    == 10 * inject_Z (Z.of_nat (matches kws (JS.toLowerCase (text m)))) /\
    Double.value (Double.keyword_score kws (JS.toLowerCase (text m)))
    == Context.keyword_score kws (JS.toLowerCase (text m)) /\
    Double.score kws t m
    = Double.add
        (Double.of_Z (10 * Z.of_nat (matches kws (JS.toLowerCase (text m)))))
        (Double.Math_max (Double.of_Z 0)
           (Double.sub (Double.of_Z 5)
              (Double.mul (Double.daysOld t m) Double.tenth))) /\
    (Double.time_value t -> Double.time_value (created_at m) ->
     (Z.abs (t - created_at m) < 2 ^ 53)%Z ->
     Double.daysOld t m
     = Double.div (Double.of_Z (t - created_at m)) (Double.of_Z 86400000)) /\
    (forall m' : Memory,
        created_at m' = created_at m ->
        matches kws (JS.toLowerCase (text m'))
        = S (matches kws (JS.toLowerCase (text m))) ->
        Double.keyword_score kws (JS.toLowerCase (text m'))
        = Double.add (Double.keyword_score kws (JS.toLowerCase (text m)))
                     (Double.of_Z 10) /\
        Double.value (Double.keyword_score kws (JS.toLowerCase (text m')))
        == Double.value (Double.keyword_score kws (JS.toLowerCase (text m))) + 10 /\
        Double.recency_bonus (Double.daysOld t m')
        = Double.recency_bonus (Double.daysOld t m) /\
        Double.score kws t m'
        = Double.add
            (Double.add (Double.keyword_score kws (JS.toLowerCase (text m)))
                        (Double.of_Z 10))
            (Double.recency_bonus (Double.daysOld t m))) /\
    (Double.time_value t -> Double.time_value (created_at m) ->
     (t - created_at m = 86400000)%Z ->
     matches kws (JS.toLowerCase (text m)) = 1%nat ->
     Double.score kws t m = Double.lit_14_9).
Proof.
  intros kws t m Hlen.
  assert (Hsmall : forall x,
             DoubleSpec.small
               (10 * Z.of_nat (matches kws (JS.toLowerCase (text x))))).
  { intros x. apply small_nonneg.
    pose proof (matches_bound kws (JS.toLowerCase (text x))). lia. }
  assert (Hval : forall x,
             Double.value (Double.keyword_score kws (JS.toLowerCase (text x)))
             == 10 * inject_Z (Z.of_nat (matches kws (JS.toLowerCase (text x))))).
  { intros x. rewrite keyword_score_exact by assumption.
    rewrite DoubleFacts.value_of_Z by apply Hsmall.
    now rewrite inject_Z_mult. }
  split; [now apply keyword_score_exact |].
  split; [rewrite keyword_score_exact by assumption;
          apply DoubleFacts.is_finite_of_Z, Hsmall |].
  split; [apply Hval |].
  split; [rewrite Hval; symmetry; apply ScoreProps.keyword_score_matches |].
  split; [unfold Double.score, Double.recency_bonus;
          now rewrite keyword_score_exact by assumption |].
  split; [intros Ht Hc Hd; now apply daysOld_exact |].
  split.
  - intros m' Hage Hm.
    assert (Hstep : Double.keyword_score kws (JS.toLowerCase (text m'))
                    = Double.add
                        (Double.keyword_score kws (JS.toLowerCase (text m)))
                        (Double.of_Z 10)).
    { rewrite !keyword_score_exact by assumption. rewrite Hm.
      rewrite DoubleFacts.add_of_Z.
      - f_equal. lia.
      - apply Hsmall.
      - now apply small_nonneg.
      - apply small_nonneg.
        pose proof (matches_bound kws (JS.toLowerCase (text m'))). lia. }
    assert (Hbonus : Double.recency_bonus (Double.daysOld t m')
                     = Double.recency_bonus (Double.daysOld t m))
      by (unfold Double.daysOld; now rewrite Hage).
    split; [exact Hstep |].
    split; [rewrite (Hval m'), (Hval m), Hm, ScoreProps.inject_nat_succ; ring |].
    split; [exact Hbonus |].
    unfold Double.score. now rewrite Hstep, Hbonus.
  - intros Ht Hc Hday Hm. unfold Double.score.
    rewrite keyword_score_exact by assumption.
    rewrite daysOld_exact, Hday, Hm by
      (assumption || (rewrite Hday; now apply small_nonneg)).
    vm_compute. reflexivity.
Qed.

(** Every extracted keyword list is short enough for the keyword part to
    be exact. *)
Lemma extracted_keywords_fit (q : string) (h : JS.opt (list string)) :
  (10 * Z.of_nat (List.length (Context.keywords q h)) < 2 ^ 53)%Z.
Proof.
  assert (H : (List.length (Context.keywords q h) <= 15)%nat).
  { unfold Context.keywords.
    pose proof (firstn_le_length 10 (Context.tokens q)) as H10.
    destruct h as [| |[|e es]]; try lia.
    rewrite length_app.
    pose proof (KeywordProps.historyKeywords_length (e :: es)). lia. }
  lia.
Qed.

(** The theorem at work on the keywords of a query: one matching entry
    one day after creation, and a second entry matched by a longer text
    of the same age. *)
Lemma score_formula_witness :
  Double.score (Context.keywords "PostgreSQL, dark?" JS.Undefined)
               Sample.day Sample.m_postgres
  = Double.lit_14_9 /\
  Double.value (Double.keyword_score
                  (Context.keywords "PostgreSQL, dark?" JS.Undefined)
                  (JS.toLowerCase (text Sample.m_postgres_dark)))
  == Double.value (Double.keyword_score
                     (Context.keywords "PostgreSQL, dark?" JS.Undefined)
                     (JS.toLowerCase (text Sample.m_postgres))) + 10 /\
  Double.score (Context.keywords "PostgreSQL, dark?" JS.Undefined)
               Sample.day Sample.m_postgres_dark
  = Double.add
      (Double.add (Double.keyword_score
                     (Context.keywords "PostgreSQL, dark?" JS.Undefined)
                     (JS.toLowerCase (text Sample.m_postgres)))
                  (Double.of_Z 10))
      (Double.recency_bonus (Double.daysOld Sample.day Sample.m_postgres)) /\
  Double.daysOld Sample.day Sample.m_postgres
  = Double.div (Double.of_Z 86400000) (Double.of_Z 86400000).
Proof.
  assert (Hk : Context.keywords "PostgreSQL, dark?" JS.Undefined
               = ["postgresql"; "dark"]) by (vm_compute; reflexivity).
  pose proof (extracted_keywords_fit "PostgreSQL, dark?" JS.Undefined) as Hfit.
  rewrite Hk in Hfit |- *.
  destruct (score_formula ["postgresql"; "dark"] Sample.day Sample.m_postgres
                          Hfit)
    as (_ & _ & _ & _ & _ & Hage & Hstep & Hday).
  destruct (Hstep Sample.m_postgres_dark eq_refl eq_refl)
    as (_ & Hval & _ & Hscore).
  split; [| split; [exact Hval | split; [exact Hscore |]]].
  - apply Hday; try reflexivity; vm_compute; discriminate.
  - apply Hage; try reflexivity; vm_compute; discriminate.
Defined.

(** C2 as stated fails, twice.  The query "dark dark" yields the keyword
    list [dark; dark]; a memory whose text includes "dark", scored at the
    instant of its creation, gets 20 + 5 = 25, in exact arithmetic and in
    double precision alike, while ten times the number of distinct
    matching keywords plus the bonus is 15.  And a score does not rise
    by exactly 10 with one more matching keyword: at the age of 32 days
    the bonus is the double 1.7999999999999998, which is the score
    without a match, and the score with one match is the double 11.8;
    the two are [10 + 2 ^ -50] apart. *)
Lemma score_counts_repeated_keywords :
  Context.keywords "dark dark" JS.Undefined = ["dark"; "dark"] /\
  Context.score (Context.keywords "dark dark" JS.Undefined)
                Sample.day Sample.m_dark == 25 /\
  spec_score (Context.keywords "dark dark" JS.Undefined)
             Sample.day Sample.m_dark == 15 /\
  ~ Context.score (Context.keywords "dark dark" JS.Undefined)
                  Sample.day Sample.m_dark
    == spec_score (Context.keywords "dark dark" JS.Undefined)
                  Sample.day Sample.m_dark /\
  Double.score (Context.keywords "dark dark" JS.Undefined)
               Sample.day Sample.m_dark = Double.of_Z 25 /\
  Double.score ["postgresql"] (32 * Sample.day) DoubleSpec.m_plain
  = SpecFloat.S754_finite false 8106479329266892 (-52) /\
  Double.score ["postgresql"] (32 * Sample.day) Sample.m_postgres
  = SpecFloat.S754_finite false 6642809450371482 (-49) /\
  Double.value (Double.score ["postgresql"] (32 * Sample.day) Sample.m_postgres)
  - Double.value (Double.score ["postgresql"] (32 * Sample.day) DoubleSpec.m_plain)
  == 10 + (1 # 1125899906842624) /\
  ~ Double.value (Double.score ["postgresql"] (32 * Sample.day) Sample.m_postgres)
    == Double.value (Double.score ["postgresql"] (32 * Sample.day) DoubleSpec.m_plain)
       + 10.
Proof.
  split; [reflexivity |].
  split; [vm_compute; reflexivity |].
  split; [vm_compute; reflexivity |].
  split; [vm_compute; discriminate |].
  split; [vm_compute; reflexivity |].
  split; [vm_compute; reflexivity |].
  split; [vm_compute; reflexivity |].
  split; [vm_compute; reflexivity |].
  vm_compute. discriminate.
Qed.

End ScoreValues.
